(** * A shallow embedding of the VIXL AArch64 simulator core

    Source: src/aarch64/simulator-aarch64.cc.

    Machine integers are modelled as [Z] with the wrap-around of each C++
    type written out.  Handlers are state transformers over a [Simulator]
    record; [VIXL_ABORT_WITH_MSG], [VIXL_UNREACHABLE], [VIXL_UNIMPLEMENTED]
    and alignment exceptions terminate the simulation and are modelled by the
    [Aborted] outcome.  [VIXL_ASSERT] is a contract check: it is recorded in
    comments and appears as a hypothesis where a statement depends on it.

    The state records the memory accesses and barriers of a handler in a
    trace, so that statements can tell a store that was performed from one
    that was not.  Logging ([LogRead], [LogWrite], [LogSystemRegister], the
    one-time warning about exclusive accesses) only produces output and is
    left out. *)

From Stdlib Require Import ZArith Lia Bool List String.
Import ListNotations.
Local Open Scope Z_scope.

(** ** Fixed-width integers *)

Definition uint32 (z : Z) : Z := z mod 2 ^ 32.
Definition uint64 (z : Z) : Z := z mod 2 ^ 64.

(** Conversion of an integer to a signed type of [bits] bits (two's
    complement, as every supported host does it). *)
Definition to_signed (bits : Z) (z : Z) : Z :=
  let u := z mod 2 ^ bits in
  if u <? 2 ^ (bits - 1) then u else u - 2 ^ bits.

Definition int32 (z : Z) : Z := to_signed 32 z.
Definition int64 (z : Z) : Z := to_signed 64 z.

(** Constants of the register model (globals-aarch64 / constants-aarch64). *)
Definition kWRegSize : Z := 32.
Definition kXRegSize : Z := 64.
Definition kWMaxUInt : Z := 0xffffffff.
Definition kXMaxUInt : Z := 0xffffffffffffffff.
Definition kWRegMask : Z := 0xffffffff.
Definition kXRegMask : Z := 0xffffffffffffffff.
Definition kWSignMask : Z := 0x80000000.
Definition kXSignMask : Z := 0x8000000000000000.
Definition kWMinInt : Z := - 2 ^ 31.
Definition kXMinInt : Z := - 2 ^ 63.
Definition kByteMask : Z := 0xff.
Definition kHalfWordMask : Z := 0xffff.
Definition kWordMask : Z := 0xffffffff.
Definition kZeroRegCode : Z := 31.
Definition kLinkRegCode : Z := 30.

(** ** System registers (NZCV) *)

Record SimSystemRegister : Type := mkSimSystemRegister {
  value_ : Z;
  write_ignore_mask_ : Z
}.

(** [SimSystemRegister::SetBits].  [bits] and [mask] are [uint32_t]; the two
    assertions (the field value fits, the field is writable) are contracts
    of the caller. *)
Definition SetBits (msb lsb bits : Z) (r : SimSystemRegister) : SimSystemRegister :=
  let width := msb - lsb + 1 in
  let bits := uint32 (Z.shiftl bits lsb) in
  let mask := uint32 (Z.shiftl (Z.shiftl 1 width - 1) lsb) in
  {| value_ := Z.lor (Z.land (value_ r) (uint32 (Z.lnot mask))) (Z.land bits mask);
     write_ignore_mask_ := write_ignore_mask_ r |}.

(** Modelled from the spec: the field accessors of the flags register, which
    the class declaration in the header generates.  NZCV is a
    bitfield with N, Z, C and V in bits 31, 30, 29 and 28. *)
Definition ExtractBits (msb lsb : Z) (r : SimSystemRegister) : Z :=
  Z.land (Z.shiftr (value_ r) lsb) (Z.shiftl 1 (msb - lsb + 1) - 1).

Definition N_offset : Z := 31.
Definition Z_offset : Z := 30.
Definition C_offset : Z := 29.
Definition V_offset : Z := 28.

Definition SetN (bits : Z) := SetBits N_offset N_offset bits.
Definition SetZ (bits : Z) := SetBits Z_offset Z_offset bits.
Definition SetC (bits : Z) := SetBits C_offset C_offset bits.
Definition SetV (bits : Z) := SetBits V_offset V_offset bits.
Definition GetN := ExtractBits N_offset N_offset.
Definition GetZ := ExtractBits Z_offset Z_offset.
Definition GetC := ExtractBits C_offset C_offset.
Definition GetV := ExtractBits V_offset V_offset.

(** Modelled from the spec: [CalcNFlag] and [CalcZFlag], declared with the
    class: N is the sign bit of the result at the register size, Z tells
    whether the result is zero. *)
Definition CalcNFlag (result reg_size : Z) : Z :=
  Z.land (Z.shiftr result (reg_size - 1)) 1.
Definition CalcZFlag (result : Z) : Z := if result =? 0 then 1 else 0.

(** ** Arithmetic helpers *)

(** [Simulator::AddWithCarry].  It touches the simulator state only through
    [ReadNzcv()], so the flags register is threaded explicitly. *)
Definition AddWithCarry (reg_size : Z) (set_flags : bool)
    (left right : Z) (carry_in : Z) (nzcv : SimSystemRegister)
  : Z * SimSystemRegister :=
  let max_uint := if reg_size =? kWRegSize then kWMaxUInt else kXMaxUInt in
  let reg_mask := if reg_size =? kWRegSize then kWRegMask else kXRegMask in
  let sign_mask := if reg_size =? kWRegSize then kWSignMask else kXSignMask in
  let left := Z.land left reg_mask in
  let right := Z.land right reg_mask in
  let result := Z.land (uint64 (left + right + carry_in)) reg_mask in
  if set_flags then
    let nzcv := SetN (CalcNFlag result reg_size) nzcv in
    let nzcv := SetZ (CalcZFlag result) nzcv in
    let max_uint_2op := uint64 (max_uint - carry_in) in
    let C := (left >? max_uint_2op) || (uint64 (max_uint_2op - left) <? right) in
    let nzcv := SetC (if C then 1 else 0) nzcv in
    let left_sign := Z.land left sign_mask in
    let right_sign := Z.land right sign_mask in
    let result_sign := Z.land result sign_mask in
    let V := (left_sign =? right_sign) && negb (left_sign =? result_sign) in
    let nzcv := SetV (if V then 1 else 0) nzcv in
    (result, nzcv)
  else (result, nzcv).

Inductive Shift : Type := NO_SHIFT | LSL | LSR | ASR | ROR | MSL.

(** Modelled from the spec: [RotateRight] of the utilities header, a rotation
    of the low [width] bits of [value]. *)
Definition RotateRight (value rotate width : Z) : Z :=
  let width_mask := Z.shiftr kXMaxUInt (64 - width) in
  let rotate := Z.land rotate 63 in
  let value :=
    if 0 <? rotate then
      let value := Z.land value width_mask in
      Z.lor (uint64 (Z.shiftl value (width - rotate))) (Z.shiftr value rotate)
    else value in
  Z.land value width_mask.

(** [Simulator::ShiftOperand].  [value] and the result are [int64_t]; the
    shifts are done on the [uint64_t] copy.  [None] is the unimplemented
    shift kind. *)
Definition ShiftOperand (reg_size : Z) (value : Z) (shift_type : Shift)
    (amount : Z) : option Z :=
  if amount =? 0 then Some value else
  let uvalue := uint64 value in
  let mask := if reg_size =? kXRegSize then kXRegMask else kWRegMask in
  let is_negative :=
    if reg_size =? kXRegSize
    then negb (Z.land uvalue kXSignMask =? 0)
    else negb (Z.land uvalue kWSignMask =? 0) in
  let shifted :=
    match shift_type with
    | LSL => Some (uint64 (Z.shiftl uvalue amount))
    | LSR => Some (Z.shiftr uvalue amount)
    | ASR =>
        let uvalue := Z.shiftr uvalue amount in
        Some (if is_negative
              then Z.lor uvalue (uint64 (Z.shiftl kXMaxUInt (reg_size - amount)))
              else uvalue)
    | ROR => Some (RotateRight uvalue amount reg_size)
    | _ => None
    end in
  match shifted with
  | Some uvalue => Some (int64 (Z.land uvalue mask))
  | None => None
  end.

Inductive Extend : Type :=
  UXTB | UXTH | UXTW | UXTX | SXTB | SXTH | SXTW | SXTX.

(** [Simulator::ExtendValue].  [value] is [int64_t]; [value |= ~UINT64_C(0)
    << n] is computed on [uint64_t] and converted back. *)
Definition ExtendValue (reg_size : Z) (value : Z) (extend_type : Extend)
    (left_shift : Z) : option Z :=
  let sign_extend (value bit n : Z) :=
    if negb (Z.land value bit =? 0)
    then int64 (Z.lor (uint64 value) (uint64 (Z.shiftl kXMaxUInt n)))
    else value in
  let value :=
    match extend_type with
    | UXTB => Z.land value kByteMask
    | UXTH => Z.land value kHalfWordMask
    | UXTW => Z.land value kWordMask
    | SXTB => sign_extend (Z.land value kByteMask) 0x80 8
    | SXTH => sign_extend (Z.land value kHalfWordMask) 0x8000 16
    | SXTW => sign_extend (Z.land value kWordMask) 0x80000000 32
    | UXTX | SXTX => value
    end in
  ShiftOperand reg_size value LSL left_shift.

(** Specification of the extension: what [ExtendValue] makes of a value before it shifts: the low 8, 16 or
    32 bits, zero- or sign-extended, or the value itself for the X forms. *)
Definition extended (value : Z) (extend_type : Extend) : Z :=
  match extend_type with
  | UXTB => value mod 2 ^ 8
  | UXTH => value mod 2 ^ 16
  | UXTW => value mod 2 ^ 32
  | SXTB => to_signed 8 value
  | SXTH => to_signed 16 value
  | SXTW => to_signed 32 value
  | UXTX | SXTX => value
  end.

(** ** Element types of the templated helpers *)

Inductive CType : Type :=
  | uint8_t | uint16_t | uint32_t | uint64_t
  | int8_t | int16_t | int32_t | int64_t.

Definition sizeof (T : CType) : Z :=
  match T with
  | uint8_t | int8_t => 1
  | uint16_t | int16_t => 2
  | uint32_t | int32_t => 4
  | uint64_t | int64_t => 8
  end.

Definition is_signed (T : CType) : bool :=
  match T with
  | int8_t | int16_t | int32_t | int64_t => true
  | _ => false
  end.

(** [static_cast<T>(z)]: the value of type [T] congruent to [z]. *)
Definition cast (T : CType) (z : Z) : Z :=
  if is_signed T then to_signed (8 * sizeof T) z else z mod 2 ^ (8 * sizeof T).

(** ** General-purpose registers *)

Inductive Reg31Mode : Type := Reg31IsStackPointer | Reg31IsZeroRegister.

(** Modelled from the spec: the general register file, declared with the
    class.  There are 31 general-purpose 64-bit slots plus slot 31, which an
    access reads as zero and ignores on writes under [Reg31IsZeroRegister] and
    uses as the stack pointer under [Reg31IsStackPointer].  A read of type [T]
    takes the low [sizeof T] bytes of the slot.  A write targets the 32-bit or
    the 64-bit view and zero-extends into the full slot; a narrower value is
    first converted to [int32_t]. *)
Definition RegisterFile : Type := Z -> Z.

Definition is_zero_mode (m : Reg31Mode) : bool :=
  match m with Reg31IsZeroRegister => true | Reg31IsStackPointer => false end.

Definition ReadRegister (T : CType) (code : Z) (r31mode : Reg31Mode)
    (registers : RegisterFile) : Z :=
  if (code =? 31) && is_zero_mode r31mode then 0
  else cast T (registers code).

Definition WriteRegister (T : CType) (code : Z) (value : Z) (r31mode : Reg31Mode)
    (registers : RegisterFile) : RegisterFile :=
  let slot :=
    if sizeof T <? 4 then uint32 (int32 value)
    else value mod 2 ^ (8 * sizeof T) in
  if (code =? 31) && is_zero_mode r31mode then registers
  else fun c => if c =? code then slot else registers c.

Definition ReadXRegister (code : Z) (r31mode : Reg31Mode) := ReadRegister int64_t code r31mode.
Definition ReadWRegister (code : Z) (r31mode : Reg31Mode) := ReadRegister int32_t code r31mode.
Definition WriteXRegister (code value : Z) (r31mode : Reg31Mode) :=
  WriteRegister int64_t code value r31mode.
Definition WriteWRegister (code value : Z) (r31mode : Reg31Mode) :=
  WriteRegister int32_t code value r31mode.

(** The accessors that take the register size at run time.  A 32-bit read
    gives the low half of the slot zero-extended to [int64_t]: the callers
    take it as an unsigned value ([ShiftOperand] shifts it right as it is for
    LSR and simulates the sign extension of ASR itself). *)
Definition ReadRegisterSized (reg_size code : Z) (r31mode : Reg31Mode)
    (registers : RegisterFile) : Z :=
  if reg_size =? kWRegSize then ReadRegister uint32_t code r31mode registers
  else ReadXRegister code r31mode registers.

Definition WriteRegisterSized (reg_size code value : Z) (r31mode : Reg31Mode)
    (registers : RegisterFile) : RegisterFile :=
  if reg_size =? kWRegSize
  then WriteWRegister code (int32 (Z.land value kWRegMask)) r31mode registers
  else WriteXRegister code value r31mode registers.

(** ** Memory *)

(** Modelled from the spec: the memory primitive [Read<T>(address)] /
    [Write<T>(address, value)] over a flat array of bytes, declared in the
    header.  Values are laid out little-endian, as on the hosts the simulator
    supports. *)
Definition MemoryBytes : Type := Z -> Z.

Fixpoint ReadBytes (n : nat) (address : Z) (m : MemoryBytes) : Z :=
  match n with
  | O => 0
  | S k => m address mod 256 + 256 * ReadBytes k (address + 1) m
  end.

Fixpoint WriteBytes (n : nat) (address value : Z) (m : MemoryBytes) : MemoryBytes :=
  match n with
  | O => m
  | S k =>
      WriteBytes k (address + 1) (value / 256)
        (fun a => if a =? address then value mod 256 else m a)
  end.

Definition MemoryRead (T : CType) (address : Z) (m : MemoryBytes) : Z :=
  cast T (ReadBytes (Z.to_nat (sizeof T)) address m).

Definition MemoryWrite (T : CType) (address value : Z) (m : MemoryBytes) : MemoryBytes :=
  WriteBytes (Z.to_nat (sizeof T)) address (value mod 2 ^ (8 * sizeof T)) m.

(** ** Exclusive monitors *)

(** Modelled from the spec: the local exclusive monitor, declared in the
    header.  It holds at most one reservation [(address, size)];
    [MarkExclusive] records one, [Clear] drops it and [IsExclusive] tells
    whether the given reservation is the recorded one.  [seed_] is the private
    state that [MaybeClear] consults. *)
Record SimExclusiveLocalMonitor : Type := mkLocalMonitor {
  reservation_ : option (Z * Z);
  seed_ : Z
}.

Definition LocalClear (m : SimExclusiveLocalMonitor) : SimExclusiveLocalMonitor :=
  {| reservation_ := None; seed_ := seed_ m |}.

Definition LocalMarkExclusive (address size : Z) (m : SimExclusiveLocalMonitor)
  : SimExclusiveLocalMonitor :=
  {| reservation_ := Some (address, size); seed_ := seed_ m |}.

Definition LocalIsExclusive (address size : Z) (m : SimExclusiveLocalMonitor) : bool :=
  match reservation_ m with
  | Some (a, s) => (size =? s) && (address =? a)
  | None => false
  end.

(** ** Pointer authentication: data *)

Inductive PACKey : Type := kPACKeyIA | kPACKeyIB | kPACKeyDA | kPACKeyDB | kPACKeyGA.
Inductive PointerType : Type := kDataPointer | kInstructionPointer.

(** ** External collaborators *)

(** The parts of the simulator that this file uses but does not define.  They
    are kept abstract: the global exclusive monitor (state shared between
    simulator instances, queried through [IsExclusive]), the pseudo-random
    choice made by the local monitor's [MaybeClear], the validity check for
    atomic accesses (alignment), and the pointer-authentication primitives
    (the keyed code, the position of the code field for each pointer kind and
    the two-bit code that marks a failed authentication). *)
Class Collaborators : Type := {
  SimExclusiveGlobalMonitor : Type;
  GlobalIsExclusive :
    Z -> Z -> SimExclusiveGlobalMonitor -> bool * SimExclusiveGlobalMonitor;
  MaybeClearSkips : Z -> bool * Z;
  AtomicAccessIsValid : Z -> Z -> Z -> bool;
  ComputePAC : Z -> Z -> PACKey -> Z;
  PACMask : PointerType -> Z;
  TopPACBit : PointerType -> Z;
  PACErrorCode : PACKey -> Z
}.

(** ** Decoded instructions *)

Inductive UnconditionalBranchToRegisterOp : Type :=
  | BR | BLR | RET
  | BRAAZ | BRABZ | BLRAAZ | BLRABZ | RETAA | RETAB
  | BRAA | BRAB | BLRAA | BLRAB
  | UnconditionalBranchToRegisterUnallocated.

Inductive LoadStoreExclusive : Type :=
  | CAS_w | CASA_w | CASL_w | CASAL_w
  | CAS_x | CASA_x | CASL_x | CASAL_x
  | CASB | CASAB | CASLB | CASALB
  | CASH | CASAH | CASLH | CASALH
  | CASP_w | CASPA_w | CASPL_w | CASPAL_w
  | CASP_x | CASPA_x | CASPL_x | CASPAL_x
  | LDXRB_w | LDAXRB_w | LDARB_w | LDLARB
  | LDXRH_w | LDAXRH_w | LDARH_w | LDLARH
  | LDXR_w | LDAXR_w | LDAR_w | LDLAR_w
  | LDXR_x | LDAXR_x | LDAR_x | LDLAR_x
  | LDXP_w | LDAXP_w | LDXP_x | LDAXP_x
  | STXRB_w | STLXRB_w | STLRB_w | STLLRB
  | STXRH_w | STLXRH_w | STLRH_w | STLLRH
  | STXR_w | STLXR_w | STLR_w | STLLR_w
  | STXR_x | STLXR_x | STLR_x | STLLR_x
  | STXP_w | STLXP_w | STXP_x | STLXP_x
  | LoadStoreExclusiveUnallocated.

(** The operation field selected by [AtomicMemorySimpleOpMask]. *)
Inductive AtomicMemorySimpleOp : Type :=
  | LDADDOp | LDCLROp | LDEOROp | LDSETOp
  | LDSMAXOp | LDSMINOp | LDUMAXOp | LDUMINOp.

(** Ordering suffix of an atomic opcode: none, [A], [L] or [AL]. *)
Inductive AtomicOrdering : Type := OrdNone | OrdA | OrdL | OrdAL.

(** Size suffix of an atomic opcode: [B], [H], [_w] or [_x]. *)
Inductive AtomicSize : Type := SizeB | SizeH | SizeW | SizeX.

(** The opcodes selected by [AtomicMemoryMask].  An opcode name is an
    operation, an ordering suffix and a size suffix: [LDADDALB] is
    [AtomicSimple LDADDOp OrdAL SizeB], [SWPA_w] is [SWP OrdA SizeW] and
    [LDAPR_x] is [LDAPR SizeX]. *)
Inductive AtomicMemoryOp : Type :=
  | AtomicSimple (op : AtomicMemorySimpleOp) (ord : AtomicOrdering) (sz : AtomicSize)
  | SWP (ord : AtomicOrdering) (sz : AtomicSize)
  | LDAPR (sz : AtomicSize)
  | AtomicMemoryUnallocated.

(** The rows of [PAUTH_MODES]. *)
Inductive PAuthMode : Type := IA | IB | IZA | IZB | DA | DB | DZA | DZB.

(** The pointer-authentication opcodes of [DataProcessing1SourceMask]:
    [PACIA] is [PAC IA], [AUTDZB] is [AUT DZB].  The bit-manipulation opcodes
    of the same class (RBIT, REV, CLZ, CLS) are outside this model. *)
Inductive DataProcessing1SourceOp : Type :=
  | PAC (m : PAuthMode) | AUT (m : PAuthMode) | XPACI | XPACD.

(** The opcodes of [DataProcessing2SourceMask], the CRC32 family excepted,
    which is outside this model. *)
Inductive DataProcessing2SourceOp : Type :=
  | SDIV_w | SDIV_x | UDIV_w | UDIV_x
  | LSLV_w | LSLV_x | LSRV_w | LSRV_x
  | ASRV_w | ASRV_x | RORV_w | RORV_x
  | PACGA
  | DataProcessing2SourceUnallocated.

Inductive SystemPStateOp : Type := CFINV | AXFLAG | XAFLAG | SystemPStateOther.

(** The rows of [PAUTH_SYSTEM_MODES]. *)
Inductive PAuthSystemMode : Type := A1716 | B1716 | AZ | BZ | ASP | BSP.

(** The opcodes of [SystemPAuthMask]: [PACIASP] is [PACI ASP], [AUTIB1716]
    is [AUTI B1716]. *)
Inductive SystemPAuthOp : Type :=
  | PACI (m : PAuthSystemMode) | AUTI (m : PAuthSystemMode) | SystemPAuthOther.

Inductive SystemHint : Type :=
  | NOP | ESB | CSDB | BTI | BTI_c | BTI_j | BTI_jc | OtherHint (imm : Z).

(** Which branch of the chain of mask tests in [VisitSystem] an instruction
    takes.  System-register moves (MRS, MSR) and SYS are outside this model. *)
Inductive SystemClass : Type :=
  | IsXPACLRI
  | IsSystemPState (op : SystemPStateOp)
  | IsSystemPAuth (op : SystemPAuthOp)
  | IsSystemExclusiveMonitor
  | IsSystemHint
  | IsMemBarrier
  | SystemUnallocated.

(** The decoded instruction is opaque to the handlers: they only call its
    accessors.  An instruction is modelled by the values its accessors
    return; each [..Mask] field is the result of [instr->Mask(..Mask)]. *)
Record Instruction : Type := mkInstruction {
  InstructionAddress : Z;
  GetRd : Z;
  GetRn : Z;
  GetRm : Z;
  GetRs : Z;
  GetRt : Z;
  GetRt2 : Z;
  GetSixtyFourBits : bool;
  ExtractBit : Z -> Z;
  GetLdStXNotExclusive : bool;
  GetLdStXAcquireRelease : bool;
  GetLdStXLoad : bool;
  GetLdStXPair : bool;
  GetLdStXSizeLog2 : Z;
  GetImmHint : SystemHint;
  UnconditionalBranchToRegisterMask : UnconditionalBranchToRegisterOp;
  LoadStoreExclusiveMask : LoadStoreExclusive;
  AtomicMemoryMask : AtomicMemoryOp;
  DataProcessing1SourceMask : DataProcessing1SourceOp;
  DataProcessing2SourceMask : DataProcessing2SourceOp;
  SystemMask : SystemClass
}.

Definition kInstructionSize : Z := 4.
Definition GetNextInstruction (instr : Instruction) : Z :=
  InstructionAddress instr + kInstructionSize.

(** [instr->Mask(AtomicMemorySimpleOpMask)]: the operation bits of the
    opcode. *)
Definition AtomicMemorySimpleOpMask (instr : Instruction) : option AtomicMemorySimpleOp :=
  match AtomicMemoryMask instr with
  | AtomicSimple op _ _ => Some op
  | _ => None
  end.

(** ** Simulator state *)

Inductive BType : Type :=
  | DefaultBType
  | BranchFromUnguardedOrToIP
  | BranchAndLink
  | BranchFromGuardedNotToIP.

(** The memory accesses and barriers a handler performs, most recent first. *)
Inductive Event : Type :=
  | EvRead (address size : Z)
  | EvWrite (address size value : Z)
  | EvFence.

Inductive AbortReason : Type :=
  | AlignmentException
  | Unreachable
  | Unimplemented
  | AbortWithMsg (msg : string).

Inductive Outcome (A : Type) : Type :=
  | Done (a : A)
  | Aborted (why : AbortReason).
Arguments Done {A} a.
Arguments Aborted {A} why.

Definition bind {A B : Type} (o : Outcome A) (k : A -> Outcome B) : Outcome B :=
  match o with
  | Done a => k a
  | Aborted why => Aborted why
  end.

Notation "x <- o ;; k" := (bind o (fun x => k))
  (at level 61, o at next level, right associativity).

Definition is_aborted {A : Type} (o : Outcome A) : bool :=
  match o with Done _ => false | Aborted _ => true end.

Section Handlers.
Context `{Collaborators}.

Record Simulator : Type := mkSimulator {
  registers_ : RegisterFile;
  nzcv_ : SimSystemRegister;
  memory_ : MemoryBytes;
  local_monitor_ : SimExclusiveLocalMonitor;
  global_monitor_ : SimExclusiveGlobalMonitor;
  pc_ : Z;
  pc_modified_ : bool;
  btype_ : BType;
  next_btype_ : BType;
  guard_pages_ : bool;
  trace_ : list Event
}.

Definition set_registers (f : RegisterFile -> RegisterFile) (sim : Simulator) : Simulator :=
  mkSimulator (f (registers_ sim)) (nzcv_ sim) (memory_ sim) (local_monitor_ sim)
    (global_monitor_ sim) (pc_ sim) (pc_modified_ sim) (btype_ sim)
    (next_btype_ sim) (guard_pages_ sim) (trace_ sim).

Definition set_nzcv (f : SimSystemRegister -> SimSystemRegister) (sim : Simulator) : Simulator :=
  mkSimulator (registers_ sim) (f (nzcv_ sim)) (memory_ sim) (local_monitor_ sim)
    (global_monitor_ sim) (pc_ sim) (pc_modified_ sim) (btype_ sim)
    (next_btype_ sim) (guard_pages_ sim) (trace_ sim).

Definition set_local_monitor (f : SimExclusiveLocalMonitor -> SimExclusiveLocalMonitor)
    (sim : Simulator) : Simulator :=
  mkSimulator (registers_ sim) (nzcv_ sim) (memory_ sim) (f (local_monitor_ sim))
    (global_monitor_ sim) (pc_ sim) (pc_modified_ sim) (btype_ sim)
    (next_btype_ sim) (guard_pages_ sim) (trace_ sim).

Definition set_global_monitor (g : SimExclusiveGlobalMonitor) (sim : Simulator) : Simulator :=
  mkSimulator (registers_ sim) (nzcv_ sim) (memory_ sim) (local_monitor_ sim)
    g (pc_ sim) (pc_modified_ sim) (btype_ sim)
    (next_btype_ sim) (guard_pages_ sim) (trace_ sim).

Definition log_event (e : Event) (sim : Simulator) : Simulator :=
  mkSimulator (registers_ sim) (nzcv_ sim) (memory_ sim) (local_monitor_ sim)
    (global_monitor_ sim) (pc_ sim) (pc_modified_ sim) (btype_ sim)
    (next_btype_ sim) (guard_pages_ sim) (e :: trace_ sim).

(** [Memory::Read<T>(address)]: the value read, and the state with the access
    recorded. *)
Definition Read (T : CType) (address : Z) (sim : Simulator) : Z * Simulator :=
  (MemoryRead T address (memory_ sim), log_event (EvRead address (sizeof T)) sim).

(** [Memory::Write<T>(address, value)]. *)
Definition Write (T : CType) (address value : Z) (sim : Simulator) : Simulator :=
  log_event (EvWrite address (sizeof T) (value mod 2 ^ (8 * sizeof T)))
    (mkSimulator (registers_ sim) (nzcv_ sim)
       (MemoryWrite T address value (memory_ sim)) (local_monitor_ sim)
       (global_monitor_ sim) (pc_ sim) (pc_modified_ sim) (btype_ sim)
       (next_btype_ sim) (guard_pages_ sim) (trace_ sim)).

(** [__sync_synchronize()]. *)
Definition sync_synchronize (sim : Simulator) : Simulator := log_event EvFence sim.

Definition fence_if (b : bool) (sim : Simulator) : Simulator :=
  if b then sync_synchronize sim else sim.

(** Modelled from the spec: [WritePc], [WriteLr], [ReadBType],
    [WriteNextBType] and [PcIsInGuardedPage], the accessors of the program
    counter, the link register (register 30) and the guarded-branch state. *)
Definition WritePc (new_pc : Z) (sim : Simulator) : Simulator :=
  mkSimulator (registers_ sim) (nzcv_ sim) (memory_ sim) (local_monitor_ sim)
    (global_monitor_ sim) new_pc true (btype_ sim)
    (next_btype_ sim) (guard_pages_ sim) (trace_ sim).

Definition WriteLr (value : Z) (sim : Simulator) : Simulator :=
  set_registers (WriteXRegister kLinkRegCode value Reg31IsZeroRegister) sim.

Definition ReadBType (sim : Simulator) : BType := btype_ sim.

Definition WriteNextBType (next_btype : BType) (sim : Simulator) : Simulator :=
  mkSimulator (registers_ sim) (nzcv_ sim) (memory_ sim) (local_monitor_ sim)
    (global_monitor_ sim) (pc_ sim) (pc_modified_ sim) (btype_ sim)
    next_btype (guard_pages_ sim) (trace_ sim).

Definition PcIsInGuardedPage (sim : Simulator) : bool := guard_pages_ sim.

(** [local_monitor_.MaybeClear()]: clears the reservation unless the
    pseudo-random choice says to skip. *)
Definition LocalMaybeClear (m : SimExclusiveLocalMonitor) : SimExclusiveLocalMonitor :=
  let (skip, seed) := MaybeClearSkips (seed_ m) in
  {| reservation_ := if skip then reservation_ m else None; seed_ := seed |}.

(** [CheckIsValidUnalignedAtomicAccess]: raises an alignment exception when
    the access is not valid. *)
Definition CheckIsValidUnalignedAtomicAccess (rn address access_size : Z)
    (sim : Simulator) : Outcome Simulator :=
  if AtomicAccessIsValid rn address access_size then Done sim
  else Aborted AlignmentException.

(** ** Pointer authentication *)

(** Modelled from the spec: [GetTopPACBit], [AddPAC], [AuthPAC] and
    [StripPAC], which live in a file of their own.  [AddPAC] computes a keyed
    code over the pointer and the modifier and splices it into the unused
    high bits of the pointer, whose position depends on the pointer kind.
    [AuthPAC] recomputes the code the same way and compares it with the bits
    found in the pointer; on a match it returns the pointer without the
    code, on a mismatch it overwrites the two marker bits below the top of
    the code field with an error code.  [StripPAC] clears the code bits
    without checking them. *)
Definition GetTopPACBit (ptr : Z) (type : PointerType) : Z := TopPACBit type.

Definition StripPAC (ptr : Z) (type : PointerType) : Z :=
  Z.land ptr (uint64 (Z.lnot (PACMask type))).

Definition AddPAC (ptr context : Z) (key : PACKey) (type : PointerType) : Z :=
  let pac_mask := PACMask type in
  let ext_ptr := Z.land ptr (uint64 (Z.lnot pac_mask)) in
  let pac := ComputePAC ext_ptr context key in
  Z.lor (Z.land pac pac_mask) (Z.land ptr (uint64 (Z.lnot pac_mask))).

Definition AuthPAC (ptr context : Z) (key : PACKey) (type : PointerType) : Z :=
  let pac_mask := PACMask type in
  let original_ptr := Z.land ptr (uint64 (Z.lnot pac_mask)) in
  let pac := ComputePAC original_ptr context key in
  if Z.land pac pac_mask =? Z.land ptr pac_mask then original_ptr
  else
    let error_lsb := GetTopPACBit ptr type - 2 in
    let error_mask := uint64 (Z.shiftl 3 error_lsb) in
    Z.lor (Z.land original_ptr (uint64 (Z.lnot error_mask)))
          (uint64 (Z.shiftl (PACErrorCode key) error_lsb)).

(** ** Branches *)

(** [Simulator::GetBTypeFromInstruction]. *)
Definition GetBTypeFromInstruction (instr : Instruction) (sim : Simulator) : BType :=
  match UnconditionalBranchToRegisterMask instr with
  | BLR | BLRAA | BLRAB | BLRAAZ | BLRABZ => BranchAndLink
  | BR | BRAA | BRAB | BRAAZ | BRABZ =>
      if (GetRn instr =? 16) || (GetRn instr =? 17) || negb (PcIsInGuardedPage sim)
      then BranchFromUnguardedOrToIP
      else BranchFromGuardedNotToIP
  | _ => DefaultBType
  end.

(** The first switch of [VisitUnconditionalBranchToRegister]: whether the
    branch authenticates and links, the address it branches to and the
    modifier it authenticates with. *)
Definition BranchOperands (instr : Instruction) (sim : Simulator)
  : Outcome (bool * bool * Z * Z) :=
  let addr := uint64 (ReadXRegister (GetRn instr) Reg31IsZeroRegister (registers_ sim)) in
  (* (authenticate, link, addr, context) *)
  match UnconditionalBranchToRegisterMask instr with
  | BLR => Done (false, true, addr, 0)
  | BR | RET => Done (false, false, addr, 0)
  | BLRAAZ | BLRABZ => Done (true, true, addr, 0)
  | BRAAZ | BRABZ => Done (true, false, addr, 0)
  | BLRAA | BLRAB =>
      Done (true, true, addr,
            uint64 (ReadXRegister (GetRd instr) Reg31IsZeroRegister (registers_ sim)))
  | BRAA | BRAB =>
      Done (true, false, addr,
            uint64 (ReadXRegister (GetRd instr) Reg31IsZeroRegister (registers_ sim)))
  | RETAA | RETAB =>
      Done (true, false,
            uint64 (ReadXRegister kLinkRegCode Reg31IsZeroRegister (registers_ sim)),
            uint64 (ReadXRegister 31 Reg31IsStackPointer (registers_ sim)))
  | UnconditionalBranchToRegisterUnallocated => Aborted Unreachable
  end.

(** [Simulator::VisitUnconditionalBranchToRegister]. *)
Definition VisitUnconditionalBranchToRegister (instr : Instruction) (sim : Simulator)
  : Outcome Simulator :=
  d <- BranchOperands instr sim ;;
  let '(authenticate, link, addr, context) := d in
  let sim := if link : bool then WriteLr (GetNextInstruction instr) sim else sim in
  checked <-
    (if authenticate : bool then
       let key := if ExtractBit instr 10 =? 0 then kPACKeyIA else kPACKeyIB in
       let addr := AuthPAC addr context key kInstructionPointer in
       let error_lsb := GetTopPACBit addr kInstructionPointer - 2 in
       if negb (Z.land (Z.shiftr addr error_lsb) 3 =? 0)
       then Aborted (AbortWithMsg "Failed to authenticate pointer.")
       else Done addr
     else Done addr) ;;
  let sim := WritePc checked sim in
  Done (WriteNextBType (GetBTypeFromInstruction instr sim) sim).

(** ** Compare-and-swap *)

(** [Simulator::CompareAndSwapHelper<T>]. *)
Definition CompareAndSwapHelper (T : CType) (instr : Instruction) (sim : Simulator)
  : Outcome Simulator :=
  let rs := GetRs instr in
  let rt := GetRt instr in
  let rn := GetRn instr in
  let element_size := sizeof T in
  let address := ReadRegister uint64_t rn Reg31IsStackPointer (registers_ sim) in
  sim <- CheckIsValidUnalignedAtomicAccess rn address element_size sim ;;
  let is_acquire := ExtractBit instr 22 =? 1 in
  let is_release := ExtractBit instr 15 =? 1 in
  let comparevalue := ReadRegister T rs Reg31IsZeroRegister (registers_ sim) in
  let newvalue := ReadRegister T rt Reg31IsZeroRegister (registers_ sim) in
  let sim := set_local_monitor LocalClear sim in
  let (data, sim) := Read T address sim in
  let sim := fence_if is_acquire sim in
  let sim :=
    if data =? comparevalue
    then Write T address newvalue (fence_if is_release sim)
    else sim in
  Done (set_registers (WriteRegister T rs data Reg31IsZeroRegister) sim).

(** [Simulator::CompareAndSwapPairHelper<T>].  The assertions ask for [T] of
    four or eight bytes and for an even [rs]. *)
Definition CompareAndSwapPairHelper (T : CType) (instr : Instruction) (sim : Simulator)
  : Outcome Simulator :=
  let rs := GetRs instr in
  let rt := GetRt instr in
  let rn := GetRn instr in
  let element_size := sizeof T in
  let address := ReadRegister uint64_t rn Reg31IsStackPointer (registers_ sim) in
  sim <- CheckIsValidUnalignedAtomicAccess rn address (element_size * 2) sim ;;
  let address2 := uint64 (address + element_size) in
  let is_acquire := ExtractBit instr 22 =? 1 in
  let is_release := ExtractBit instr 15 =? 1 in
  let comparevalue_high := ReadRegister T (rs + 1) Reg31IsZeroRegister (registers_ sim) in
  let comparevalue_low := ReadRegister T rs Reg31IsZeroRegister (registers_ sim) in
  let newvalue_high := ReadRegister T (rt + 1) Reg31IsZeroRegister (registers_ sim) in
  let newvalue_low := ReadRegister T rt Reg31IsZeroRegister (registers_ sim) in
  let sim := set_local_monitor LocalClear sim in
  let (data_high, sim) := Read T address sim in
  let (data_low, sim) := Read T address2 sim in
  let sim := fence_if is_acquire sim in
  let same := (data_high =? comparevalue_high) && (data_low =? comparevalue_low) in
  let sim :=
    if same
    then Write T address2 newvalue_low
           (Write T address newvalue_high (fence_if is_release sim))
    else sim in
  let sim := set_registers (WriteRegister T (rs + 1) data_high Reg31IsZeroRegister) sim in
  Done (set_registers (WriteRegister T rs data_low Reg31IsZeroRegister) sim).

(** ** Load/store exclusive *)

(** The inner switch of the load path of [VisitLoadStoreExclusive]. *)
Definition LoadExclusiveSwitch (op : LoadStoreExclusive) (rt rt2 address element_size : Z)
    (sim : Simulator) : Outcome Simulator :=
  let load1 (T : CType) (wide : bool) (rt address : Z) (sim : Simulator) :=
    let (data, sim) := Read T address sim in
    set_registers
      (if wide then WriteXRegister rt data Reg31IsZeroRegister
       else WriteWRegister rt data Reg31IsZeroRegister) sim in
  match op with
  | LDXRB_w | LDAXRB_w | LDARB_w | LDLARB => Done (load1 uint8_t false rt address sim)
  | LDXRH_w | LDAXRH_w | LDARH_w | LDLARH => Done (load1 uint16_t false rt address sim)
  | LDXR_w | LDAXR_w | LDAR_w | LDLAR_w => Done (load1 uint32_t false rt address sim)
  | LDXR_x | LDAXR_x | LDAR_x | LDLAR_x => Done (load1 uint64_t true rt address sim)
  | LDXP_w | LDAXP_w =>
      Done (load1 uint32_t false rt2 (uint64 (address + element_size))
              (load1 uint32_t false rt address sim))
  | LDXP_x | LDAXP_x =>
      Done (load1 uint64_t true rt2 (uint64 (address + element_size))
              (load1 uint64_t true rt address sim))
  | _ => Aborted Unreachable
  end.

(** The inner switch of the store path of [VisitLoadStoreExclusive]. *)
Definition StoreExclusiveSwitch (op : LoadStoreExclusive) (rt rt2 address element_size : Z)
    (sim : Simulator) : Outcome Simulator :=
  let store1 (T : CType) (wide : bool) (rt address : Z) (sim : Simulator) :=
    Write T address
      (if wide then ReadXRegister rt Reg31IsZeroRegister (registers_ sim)
       else ReadWRegister rt Reg31IsZeroRegister (registers_ sim)) sim in
  match op with
  | STXRB_w | STLXRB_w | STLRB_w | STLLRB => Done (store1 uint8_t false rt address sim)
  | STXRH_w | STLXRH_w | STLRH_w | STLLRH => Done (store1 uint16_t false rt address sim)
  | STXR_w | STLXR_w | STLR_w | STLLR_w => Done (store1 uint32_t false rt address sim)
  | STXR_x | STLXR_x | STLR_x | STLLR_x => Done (store1 uint64_t true rt address sim)
  | STXP_w | STLXP_w =>
      Done (store1 uint32_t false rt2 (uint64 (address + element_size))
              (store1 uint32_t false rt address sim))
  | STXP_x | STLXP_x =>
      Done (store1 uint64_t true rt2 (uint64 (address + element_size))
              (store1 uint64_t true rt address sim))
  | _ => Aborted Unreachable
  end.

(** [Simulator::VisitLoadStoreExclusive]. *)
Definition VisitLoadStoreExclusive (instr : Instruction) (sim : Simulator)
  : Outcome Simulator :=
  let op := LoadStoreExclusiveMask instr in
  match op with
  | CAS_w | CASA_w | CASL_w | CASAL_w => CompareAndSwapHelper uint32_t instr sim
  | CAS_x | CASA_x | CASL_x | CASAL_x => CompareAndSwapHelper uint64_t instr sim
  | CASB | CASAB | CASLB | CASALB => CompareAndSwapHelper uint8_t instr sim
  | CASH | CASAH | CASLH | CASALH => CompareAndSwapHelper uint16_t instr sim
  | CASP_w | CASPA_w | CASPL_w | CASPAL_w => CompareAndSwapPairHelper uint32_t instr sim
  | CASP_x | CASPA_x | CASPL_x | CASPAL_x => CompareAndSwapPairHelper uint64_t instr sim
  | _ =>
      let rs := GetRs instr in
      let rt := GetRt instr in
      let rt2 := GetRt2 instr in
      let rn := GetRn instr in
      let is_exclusive := negb (GetLdStXNotExclusive instr) in
      let is_acquire_release := negb is_exclusive || GetLdStXAcquireRelease instr in
      let is_load := GetLdStXLoad instr in
      let is_pair := GetLdStXPair instr in
      let element_size := Z.shiftl 1 (GetLdStXSizeLog2 instr) in
      let access_size := if is_pair then element_size * 2 else element_size in
      let address := ReadRegister uint64_t rn Reg31IsStackPointer (registers_ sim) in
      sim <- CheckIsValidUnalignedAtomicAccess rn address access_size sim ;;
      if is_load then
        let sim :=
          if is_exclusive
          then set_local_monitor (LocalMarkExclusive address access_size) sim
          else set_local_monitor LocalClear sim in
        sim <- LoadExclusiveSwitch op rt rt2 address element_size sim ;;
        Done (fence_if is_acquire_release sim)
      else
        let sim := fence_if is_acquire_release sim in
        let '(do_store, sim) :=
          if is_exclusive then
            let '(do_store, sim) :=
              if LocalIsExclusive address access_size (local_monitor_ sim) then
                let (pass, g) := GlobalIsExclusive address access_size (global_monitor_ sim) in
                (pass, set_global_monitor g sim)
              else (false, sim) in
            let sim :=
              set_registers
                (WriteWRegister rs (if do_store then 0 else 1) Reg31IsZeroRegister) sim in
            (do_store, set_local_monitor LocalClear sim)
          else (true, set_local_monitor LocalMaybeClear sim) in
        if do_store then StoreExclusiveSwitch op rt rt2 address element_size sim
        else Done sim
  end.

(** ** Atomic memory operations *)

(** The switch of [AtomicMemorySimpleHelper<T>] on the operation bits.
    [result] starts at zero and the switch has no default; the arithmetic is
    that of type [T]. *)
Definition AtomicMemorySimpleSwitch (T : CType) (op : option AtomicMemorySimpleOp)
    (data value : Z) : Z :=
  match op with
  | Some LDADDOp => cast T (data + value)
  | Some LDCLROp => cast T (Z.land data (Z.lnot value))
  | Some LDEOROp => cast T (Z.lxor data value)
  | Some LDSETOp => cast T (Z.lor data value)
  | Some LDSMAXOp | Some LDUMAXOp => if data >? value then data else value
  | Some LDSMINOp | Some LDUMINOp => if data >? value then value else data
  | None => 0
  end.

(** [Simulator::AtomicMemorySimpleHelper<T>]. *)
Definition AtomicMemorySimpleHelper (T : CType) (instr : Instruction) (sim : Simulator)
  : Outcome Simulator :=
  let rs := GetRs instr in
  let rt := GetRt instr in
  let rn := GetRn instr in
  let is_acquire := (ExtractBit instr 23 =? 1) && negb (rt =? kZeroRegCode) in
  let is_release := ExtractBit instr 22 =? 1 in
  let element_size := sizeof T in
  let address := ReadRegister uint64_t rn Reg31IsStackPointer (registers_ sim) in
  sim <- CheckIsValidUnalignedAtomicAccess rn address element_size sim ;;
  let value := ReadRegister T rs Reg31IsZeroRegister (registers_ sim) in
  let (data, sim) := Read T address sim in
  let sim := fence_if is_acquire sim in
  let result :=
    AtomicMemorySimpleSwitch T (AtomicMemorySimpleOpMask instr) data value in
  let sim := fence_if is_release sim in
  let sim := Write T address result sim in
  Done (set_registers (WriteRegister T rt data Reg31IsZeroRegister) sim).

(** [Simulator::AtomicMemorySwapHelper<T>]. *)
Definition AtomicMemorySwapHelper (T : CType) (instr : Instruction) (sim : Simulator)
  : Outcome Simulator :=
  let rs := GetRs instr in
  let rt := GetRt instr in
  let rn := GetRn instr in
  let is_acquire := (ExtractBit instr 23 =? 1) && negb (rt =? kZeroRegCode) in
  let is_release := ExtractBit instr 22 =? 1 in
  let element_size := sizeof T in
  let address := ReadRegister uint64_t rn Reg31IsStackPointer (registers_ sim) in
  sim <- CheckIsValidUnalignedAtomicAccess rn address element_size sim ;;
  let (data, sim) := Read T address sim in
  let sim := fence_if is_acquire sim in
  let sim := fence_if is_release sim in
  let sim := Write T address (ReadRegister T rs Reg31IsZeroRegister (registers_ sim)) sim in
  Done (set_registers (WriteRegister T rt data Reg31IsZeroRegister) sim).

(** [Simulator::LoadAcquireRCpcHelper<T>]. *)
Definition LoadAcquireRCpcHelper (T : CType) (instr : Instruction) (sim : Simulator)
  : Outcome Simulator :=
  let rt := GetRt instr in
  let rn := GetRn instr in
  let element_size := sizeof T in
  let address := ReadRegister uint64_t rn Reg31IsStackPointer (registers_ sim) in
  sim <- CheckIsValidUnalignedAtomicAccess rn address element_size sim ;;
  let (data, sim) := Read T address sim in
  let sim := set_registers (WriteRegister T rt data Reg31IsZeroRegister) sim in
  Done (sync_synchronize sim).

Definition unsigned_type (sz : AtomicSize) : CType :=
  match sz with
  | SizeB => uint8_t | SizeH => uint16_t | SizeW => uint32_t | SizeX => uint64_t
  end.

Definition signed_type (sz : AtomicSize) : CType :=
  match sz with
  | SizeB => int8_t | SizeH => int16_t | SizeW => int32_t | SizeX => int64_t
  end.

(** [Simulator::VisitAtomicMemory].  [ATOMIC_MEMORY_SIMPLE_UINT_LIST] sends
    LDADD, LDCLR, LDEOR, LDSET, LDUMAX and LDUMIN to the unsigned type of the
    size; [ATOMIC_MEMORY_SIMPLE_INT_LIST] sends LDSMAX and LDSMIN to the signed
    one.  LDAPR exists without ordering suffix only.  The switch has no
    default. *)
Definition VisitAtomicMemory (instr : Instruction) (sim : Simulator) : Outcome Simulator :=
  match AtomicMemoryMask instr with
  | AtomicSimple (LDSMAXOp | LDSMINOp) _ sz =>
      AtomicMemorySimpleHelper (signed_type sz) instr sim
  | AtomicSimple _ _ sz => AtomicMemorySimpleHelper (unsigned_type sz) instr sim
  | SWP _ sz => AtomicMemorySwapHelper (unsigned_type sz) instr sim
  | LDAPR sz => LoadAcquireRCpcHelper (unsigned_type sz) instr sim
  | AtomicMemoryUnallocated => Done sim
  end.

(** ** Data processing *)





(** [Simulator::VisitDataProcessing2Source].  [result] is [int64_t]; C++
    integer division truncates towards zero. *)
Definition VisitDataProcessing2Source (instr : Instruction) (sim : Simulator)
  : Outcome Simulator :=
  let regs := registers_ sim in
  let reg_size := if GetSixtyFourBits instr then kXRegSize else kWRegSize in
  (* (shift_op, result) *)
  let computed :=
    match DataProcessing2SourceMask instr with
    | SDIV_w =>
        let rn := ReadWRegister (GetRn instr) Reg31IsZeroRegister regs in
        let rm := ReadWRegister (GetRm instr) Reg31IsZeroRegister regs in
        Done (NO_SHIFT,
              if (rn =? kWMinInt) && (rm =? -1) then kWMinInt
              else if rm =? 0 then 0
              else Z.quot rn rm)
    | SDIV_x =>
        let rn := ReadXRegister (GetRn instr) Reg31IsZeroRegister regs in
        let rm := ReadXRegister (GetRm instr) Reg31IsZeroRegister regs in
        Done (NO_SHIFT,
              if (rn =? kXMinInt) && (rm =? -1) then kXMinInt
              else if rm =? 0 then 0
              else Z.quot rn rm)
    | UDIV_w =>
        let rn := uint32 (ReadWRegister (GetRn instr) Reg31IsZeroRegister regs) in
        let rm := uint32 (ReadWRegister (GetRm instr) Reg31IsZeroRegister regs) in
        Done (NO_SHIFT, if rm =? 0 then 0 else rn / rm)
    | UDIV_x =>
        let rn := uint64 (ReadXRegister (GetRn instr) Reg31IsZeroRegister regs) in
        let rm := uint64 (ReadXRegister (GetRm instr) Reg31IsZeroRegister regs) in
        Done (NO_SHIFT, if rm =? 0 then 0 else int64 (rn / rm))
    | LSLV_w | LSLV_x => Done (LSL, 0)
    | LSRV_w | LSRV_x => Done (LSR, 0)
    | ASRV_w | ASRV_x => Done (ASR, 0)
    | RORV_w | RORV_x => Done (ROR, 0)
    | PACGA =>
        let dst := uint64 (ReadXRegister (GetRn instr) Reg31IsZeroRegister regs) in
        let src := uint64 (ReadXRegister (GetRm instr) Reg31IsStackPointer regs) in
        let code := ComputePAC dst src kPACKeyGA in
        Done (NO_SHIFT, int64 (Z.land code 0xffffffff00000000))
    | DataProcessing2SourceUnallocated => Aborted Unimplemented
    end in
  c <- computed ;;
  let '(shift_op, result) := c in
  result <-
    match shift_op with
    | NO_SHIFT => Done result
    | _ =>
        let mask := if GetSixtyFourBits instr then 0x3f else 0x1f in
        let shift := Z.land (ReadWRegister (GetRm instr) Reg31IsZeroRegister regs) mask in
        match ShiftOperand reg_size
                (ReadRegisterSized reg_size (GetRn instr) Reg31IsZeroRegister regs)
                shift_op shift with
        | Some r => Done r
        | None => Aborted Unimplemented
        end
    end ;;
  Done (set_registers
          (WriteRegisterSized reg_size (GetRd instr) result Reg31IsZeroRegister) sim).

(** ** System instructions *)

Definition SystemPAuthDst (m : PAuthSystemMode) : Z :=
  match m with A1716 | B1716 => 17 | AZ | BZ | ASP | BSP => 30 end.

Definition SystemPAuthModifier (m : PAuthSystemMode) (sim : Simulator) : Z :=
  match m with
  | A1716 | B1716 => uint64 (ReadXRegister 16 Reg31IsZeroRegister (registers_ sim))
  | AZ | BZ => 0
  | ASP | BSP => uint64 (ReadXRegister 31 Reg31IsStackPointer (registers_ sim))
  end.

Definition SystemPAuthKey (m : PAuthSystemMode) : PACKey :=
  match m with A1716 | AZ | ASP => kPACKeyIA | B1716 | BZ | BSP => kPACKeyIB end.

(** The check of the branch type that [VisitSystem] makes before a
    PACIASP or PACIBSP: every case of the switch is a plain [break]. *)
Definition CheckBTypeForPAuth (op : SystemPAuthOp) (sim : Simulator) : Outcome Simulator :=
  if PcIsInGuardedPage sim then
    match op with
    | PACI ASP | PACI BSP =>
        match ReadBType sim with
        | BranchFromGuardedNotToIP => Done sim
        | DefaultBType => Done sim
        | BranchFromUnguardedOrToIP => Done sim
        | BranchAndLink => Done sim
        end
    | _ => Done sim
    end
  else Done sim.

(** [Simulator::VisitSystem]. *)
Definition VisitSystem (instr : Instruction) (sim : Simulator) : Outcome Simulator :=
  match SystemMask instr with
  | IsXPACLRI =>
      Done (set_registers
              (WriteXRegister 30
                 (StripPAC (uint64 (ReadXRegister 30 Reg31IsZeroRegister (registers_ sim)))
                    kInstructionPointer)
                 Reg31IsZeroRegister) sim)
  | IsSystemPState op =>
      match op with
      | CFINV =>
          Done (set_nzcv (fun r => SetC (if GetC r =? 0 then 1 else 0) r) sim)
      | AXFLAG =>
          let sim := set_nzcv (SetN 0) sim in
          let sim := set_nzcv (fun r => SetZ (Z.lor (GetZ r) (GetV r)) r) sim in
          let sim :=
            set_nzcv (fun r => SetC (Z.land (GetC r) (uint32 (Z.lnot (GetV r)))) r) sim in
          Done (set_nzcv (SetV 0) sim)
      | XAFLAG =>
          let r := nzcv_ sim in
          let n := Z.land (Z.land (uint32 (Z.lnot (GetC r))) (uint32 (Z.lnot (GetZ r)))) 1 in
          let z := Z.land (GetZ r) (GetC r) in
          let c := Z.lor (GetC r) (GetZ r) in
          let v := Z.land (uint32 (Z.lnot (GetC r))) (GetZ r) in
          Done (set_nzcv (fun r => SetV v (SetC c (SetZ z (SetN n r)))) sim)
      | SystemPStateOther => Done sim
      end
  | IsSystemPAuth op =>
      sim <- CheckBTypeForPAuth op sim ;;
      match op with
      | PACI m =>
          let dst := SystemPAuthDst m in
          Done (set_registers
                  (WriteXRegister dst
                     (AddPAC (uint64 (ReadXRegister dst Reg31IsZeroRegister (registers_ sim)))
                        (SystemPAuthModifier m sim) (SystemPAuthKey m) kInstructionPointer)
                     Reg31IsZeroRegister) sim)
      | AUTI m =>
          let dst := SystemPAuthDst m in
          Done (set_registers
                  (WriteXRegister dst
                     (AuthPAC (uint64 (ReadXRegister dst Reg31IsZeroRegister (registers_ sim)))
                        (SystemPAuthModifier m sim) (SystemPAuthKey m) kInstructionPointer)
                     Reg31IsZeroRegister) sim)
      | SystemPAuthOther => Done sim
      end
  | IsSystemExclusiveMonitor => Done (set_local_monitor LocalClear sim)
  | IsSystemHint =>
      match GetImmHint instr with
      | NOP | ESB | CSDB | BTI_jc => Done sim
      | BTI =>
          if PcIsInGuardedPage sim
             && negb match ReadBType sim with DefaultBType => true | _ => false end
          then Aborted (AbortWithMsg "Executing BTI with wrong BType.")
          else Done sim
      | BTI_c =>
          if PcIsInGuardedPage sim
             && match ReadBType sim with BranchFromGuardedNotToIP => true | _ => false end
          then Aborted (AbortWithMsg "Executing BTI c with wrong BType.")
          else Done sim
      | BTI_j =>
          if PcIsInGuardedPage sim
             && match ReadBType sim with BranchAndLink => true | _ => false end
          then Aborted (AbortWithMsg "Executing BTI j with wrong BType.")
          else Done sim
      | OtherHint _ => Aborted Unimplemented
      end
  | IsMemBarrier => Done (sync_synchronize sim)
  | SystemUnallocated => Aborted Unimplemented
  end.

End Handlers.

(** ** Integer data processing, branches and single-register loads and stores

    The handlers of this part read further accessors of the decoded
    instruction.  They are kept in a record of their own that extends
    [Instruction]. *)

(** The condition codes ([Condition] of the constants header), in a module
    of their own because their names are those of the order relations. *)
Module Cond.
Inductive Condition : Type :=
  | eq | ne | hs | lo | mi | pl | vs | vc | hi | ls | ge | lt | gt | le | al | nv.
End Cond.

Inductive UnconditionalBranchOp : Type := B | BL | UnconditionalBranchUnallocated.

Inductive TestBranchOp : Type := TBZ | TBNZ | TestBranchUnallocated.

Inductive CompareBranchOp : Type :=
  | CBZ_w | CBZ_x | CBNZ_w | CBNZ_x | CompareBranchUnallocated.

Inductive AddSubOp : Type := ADD | ADDS | SUB | SUBS | AddSubOpUnallocated.

Inductive ConditionalCompareOp : Type := CCMN | CCMP.

Inductive EvaluateIntoFlagsOp : Type := SETF8 | SETF16.

Inductive MoveWideImmediateOp : Type :=
  | MOVN_w | MOVN_x | MOVZ_w | MOVZ_x | MOVK_w | MOVK_x
  | MoveWideImmediateUnallocated.

(** The opcodes of [DataProcessing3SourceMask]; UMULH and SMULH, which call
    a helper of the utilities, are outside this model. *)
Inductive DataProcessing3SourceOp : Type :=
  | MADD_w | MADD_x | MSUB_w | MSUB_x
  | SMADDL_x | SMSUBL_x | UMADDL_x | UMSUBL_x
  | DataProcessing3SourceUnallocated.

Inductive AddrMode : Type := Offset | PreIndex | PostIndex.

(** The integer opcodes of [LoadStoreMask]; the loads and stores of the
    floating-point and vector registers are outside this model. *)
Inductive LoadStoreOp : Type :=
  | LDRB_w | LDRH_w | LDR_w | LDR_x
  | LDRSB_w | LDRSH_w | LDRSB_x | LDRSH_x | LDRSW_x
  | STRB_w | STRH_w | STR_w | STR_x
  | PRFM
  | LoadStoreUnallocated.

Record DecodedInstruction : Type := mkDecodedInstruction {
  instruction_ :> Instruction;
  GetRa : Z;
  GetImmPCOffsetTarget : Z;
  GetConditionBranch : Cond.Condition;
  GetCondition : Cond.Condition;
  GetImmTestBranchBit5 : Z;
  GetImmTestBranchBit40 : Z;
  GetFlagsUpdate : bool;
  GetRnMode : Reg31Mode;
  GetRdMode : Reg31Mode;
  GetImmAddSub : Z;
  GetShiftAddSub : Z;
  GetImmCondCmp : Z;
  GetNzcv : Z;
  GetShiftMoveWide : Z;
  GetImmMoveWide : Z;
  GetImmLS : Z;
  GetImmLSUnsigned : Z;
  GetSizeLS : Z;
  UnconditionalBranchMask : UnconditionalBranchOp;
  TestBranchMask : TestBranchOp;
  CompareBranchMask : CompareBranchOp;
  AddSubOpMask : AddSubOp;
  ConditionalCompareMask : ConditionalCompareOp;
  EvaluateIntoFlagsMask : EvaluateIntoFlagsOp;
  MoveWideImmediateMask : MoveWideImmediateOp;
  DataProcessing3SourceMask : DataProcessing3SourceOp;
  LoadStoreMask : LoadStoreOp
}.

(** Modelled from the spec: [SetFlags], the accessor of the four flags as one
    field of the flags register (bits 31 to 28), which the class declaration
    in the header generates. *)
Definition SetFlags (bits : Z) := SetBits 31 28 bits.

(** [Simulator::Poly32Mod2]: the loop runs [i] from [n - 1] down to 32. *)
Fixpoint Poly32Mod2_loop (count : nat) (i : Z) (data poly : Z) : Z :=
  match count with
  | O => data
  | S count =>
      let data :=
        if negb (Z.land (Z.shiftr data i) 1 =? 0) then
          let polysh32 := uint64 (Z.shiftl poly (i - 32)) in
          let mask := uint64 (Z.shiftl 1 i - 1) in
          Z.lxor (Z.land data mask) polysh32
        else data in
      Poly32Mod2_loop count (i - 1) data poly
  end.

Definition Poly32Mod2 (n data poly : Z) : Z :=
  Z.land (Poly32Mod2_loop (Z.to_nat (n - 32)) (n - 1) data poly) 0xffffffff.

Section IntegerHandlers.
Context `{Collaborators}.

(** Modelled from the spec: [ConditionPassed], declared with the class: the
    fixed table from condition codes to predicates on the flags. *)
Definition ConditionPassed (cond : Cond.Condition) (sim : Simulator) : bool :=
  let n := negb (GetN (nzcv_ sim) =? 0) in
  let z := negb (GetZ (nzcv_ sim) =? 0) in
  let c := negb (GetC (nzcv_ sim) =? 0) in
  let v := negb (GetV (nzcv_ sim) =? 0) in
  match cond with
  | Cond.eq => z
  | Cond.ne => negb z
  | Cond.hs => c
  | Cond.lo => negb c
  | Cond.mi => n
  | Cond.pl => negb n
  | Cond.vs => v
  | Cond.vc => negb v
  | Cond.hi => c && negb z
  | Cond.ls => negb (c && negb z)
  | Cond.ge => Bool.eqb n v
  | Cond.lt => negb (Bool.eqb n v)
  | Cond.gt => negb z && Bool.eqb n v
  | Cond.le => negb (negb z && Bool.eqb n v)
  | Cond.al | Cond.nv => true
  end.

(** [Simulator::VisitUnconditionalBranch]: the BL case falls through to the
    B case. *)
Definition VisitUnconditionalBranch (instr : DecodedInstruction) (sim : Simulator)
  : Outcome Simulator :=
  match UnconditionalBranchMask instr with
  | BL =>
      let sim := WriteLr (GetNextInstruction instr) sim in
      Done (WritePc (GetImmPCOffsetTarget instr) sim)
  | B => Done (WritePc (GetImmPCOffsetTarget instr) sim)
  | UnconditionalBranchUnallocated => Aborted Unreachable
  end.

(** [Simulator::VisitConditionalBranch]. *)
Definition VisitConditionalBranch (instr : DecodedInstruction) (sim : Simulator)
  : Outcome Simulator :=
  if ConditionPassed (GetConditionBranch instr) sim
  then Done (WritePc (GetImmPCOffsetTarget instr) sim)
  else Done sim.

(** [Simulator::VisitTestBranch]. *)
Definition VisitTestBranch (instr : DecodedInstruction) (sim : Simulator)
  : Outcome Simulator :=
  let bit_pos :=
    Z.lor (Z.shiftl (GetImmTestBranchBit5 instr) 5) (GetImmTestBranchBit40 instr) in
  let bit_zero :=
    Z.land (Z.shiftr (ReadXRegister (GetRt instr) Reg31IsZeroRegister (registers_ sim))
                     bit_pos) 1 =? 0 in
  take_branch <-
    match TestBranchMask instr with
    | TBZ => Done bit_zero
    | TBNZ => Done (negb bit_zero)
    | TestBranchUnallocated => Aborted Unimplemented
    end ;;
  if take_branch : bool
  then Done (WritePc (GetImmPCOffsetTarget instr) sim)
  else Done sim.

(** [Simulator::VisitCompareBranch]. *)
Definition VisitCompareBranch (instr : DecodedInstruction) (sim : Simulator)
  : Outcome Simulator :=
  let rt := GetRt instr in
  take_branch <-
    match CompareBranchMask instr with
    | CBZ_w => Done (ReadWRegister rt Reg31IsZeroRegister (registers_ sim) =? 0)
    | CBZ_x => Done (ReadXRegister rt Reg31IsZeroRegister (registers_ sim) =? 0)
    | CBNZ_w => Done (negb (ReadWRegister rt Reg31IsZeroRegister (registers_ sim) =? 0))
    | CBNZ_x => Done (negb (ReadXRegister rt Reg31IsZeroRegister (registers_ sim) =? 0))
    | CompareBranchUnallocated => Aborted Unimplemented
    end ;;
  if take_branch : bool
  then Done (WritePc (GetImmPCOffsetTarget instr) sim)
  else Done sim.

(** [Simulator::AddSubHelper].  [op2] is [int64_t]; [AddWithCarry] takes and
    returns [uint64_t], and its carry defaults to zero. *)
Definition AddSubHelper (instr : DecodedInstruction) (op2 : Z) (sim : Simulator)
  : Outcome Simulator :=
  let reg_size := if GetSixtyFourBits instr then kXRegSize else kWRegSize in
  let set_flags := GetFlagsUpdate instr in
  let rn :=
    ReadRegisterSized reg_size (GetRn instr) (GetRnMode instr) (registers_ sim) in
  r <-
    match AddSubOpMask instr with
    | ADD | ADDS =>
        Done (AddWithCarry reg_size set_flags (uint64 rn) (uint64 op2) 0 (nzcv_ sim))
    | SUB | SUBS =>
        Done (AddWithCarry reg_size set_flags (uint64 rn) (uint64 (Z.lnot op2)) 1
                (nzcv_ sim))
    | AddSubOpUnallocated => Aborted Unreachable
    end ;;
  let '(new_val, nzcv) := r in
  let sim := set_nzcv (fun _ => nzcv) sim in
  Done (set_registers
          (WriteRegisterSized reg_size (GetRd instr) (int64 new_val) (GetRdMode instr))
          sim).

(** [Simulator::VisitAddSubImmediate]. *)
Definition VisitAddSubImmediate (instr : DecodedInstruction) (sim : Simulator)
  : Outcome Simulator :=
  let op2 :=
    Z.shiftl (GetImmAddSub instr) (if GetShiftAddSub instr =? 1 then 12 else 0) in
  AddSubHelper instr op2 sim.

(** [Simulator::VisitAddSubWithCarry]. *)
Definition VisitAddSubWithCarry (instr : DecodedInstruction) (sim : Simulator)
  : Outcome Simulator :=
  let reg_size := if GetSixtyFourBits instr then kXRegSize else kWRegSize in
  let op2 :=
    ReadRegisterSized reg_size (GetRm instr) Reg31IsZeroRegister (registers_ sim) in
  let op2 :=
    match AddSubOpMask instr with
    | SUB | SUBS => Z.lnot op2
    | _ => op2
    end in
  let '(new_val, nzcv) :=
    AddWithCarry reg_size (GetFlagsUpdate instr)
      (uint64 (ReadRegisterSized reg_size (GetRn instr) Reg31IsZeroRegister
                 (registers_ sim)))
      (uint64 op2) (GetC (nzcv_ sim)) (nzcv_ sim) in
  let sim := set_nzcv (fun _ => nzcv) sim in
  Done (set_registers
          (WriteRegisterSized reg_size (GetRd instr) (int64 new_val) Reg31IsZeroRegister)
          sim).

(** [Simulator::VisitEvaluateIntoFlags]; [value] is [uint32_t]. *)
Definition VisitEvaluateIntoFlags (instr : DecodedInstruction) (sim : Simulator)
  : Outcome Simulator :=
  let value := ReadRegister uint32_t (GetRn instr) Reg31IsZeroRegister (registers_ sim) in
  let msb := match EvaluateIntoFlagsMask instr with SETF16 => 15 | _ => 7 end in
  let sign_bit := Z.land (Z.shiftr value msb) 1 in
  let overflow_bit := Z.land (Z.shiftr value (msb + 1)) 1 in
  let sim := set_nzcv (SetN sign_bit) sim in
  let sim :=
    set_nzcv (SetZ (if uint32 (Z.shiftl value (31 - msb)) =? 0 then 1 else 0)) sim in
  Done (set_nzcv (SetV (Z.lxor sign_bit overflow_bit)) sim).

(** [Simulator::ConditionalCompareHelper]. *)
Definition ConditionalCompareHelper (instr : DecodedInstruction) (op2 : Z)
    (sim : Simulator) : Outcome Simulator :=
  let reg_size := if GetSixtyFourBits instr then kXRegSize else kWRegSize in
  let op1 :=
    ReadRegisterSized reg_size (GetRn instr) Reg31IsZeroRegister (registers_ sim) in
  if ConditionPassed (GetCondition instr) sim then
    match ConditionalCompareMask instr with
    | CCMP =>
        Done (set_nzcv
                (fun r => snd (AddWithCarry reg_size true (uint64 op1)
                                 (uint64 (Z.lnot op2)) 1 r)) sim)
    | CCMN =>
        Done (set_nzcv
                (fun r => snd (AddWithCarry reg_size true (uint64 op1) (uint64 op2) 0 r))
                sim)
    end
  else Done (set_nzcv (SetFlags (GetNzcv instr)) sim).

(** [Simulator::VisitConditionalCompareRegister]. *)
Definition VisitConditionalCompareRegister (instr : DecodedInstruction) (sim : Simulator)
  : Outcome Simulator :=
  let reg_size := if GetSixtyFourBits instr then kXRegSize else kWRegSize in
  ConditionalCompareHelper instr
    (ReadRegisterSized reg_size (GetRm instr) Reg31IsZeroRegister (registers_ sim)) sim.

(** [Simulator::VisitConditionalCompareImmediate]. *)
Definition VisitConditionalCompareImmediate (instr : DecodedInstruction) (sim : Simulator)
  : Outcome Simulator :=
  ConditionalCompareHelper instr (GetImmCondCmp instr) sim.

(** [Simulator::VisitMoveWideImmediate].  The values are [int64_t]; the
    assertion asks for a shift field below two in the 32-bit forms. *)
Definition VisitMoveWideImmediate (instr : DecodedInstruction) (sim : Simulator)
  : Outcome Simulator :=
  let is_64_bits := GetSixtyFourBits instr in
  let shift := GetShiftMoveWide instr * 16 in
  let shifted_imm16 := int64 (Z.shiftl (GetImmMoveWide instr) shift) in
  new_xn_val <-
    match MoveWideImmediateMask instr with
    | MOVN_w | MOVN_x =>
        let new_xn_val := Z.lnot shifted_imm16 in
        Done (if is_64_bits then new_xn_val else Z.land new_xn_val kWRegMask)
    | MOVK_w | MOVK_x =>
        let reg_code := GetRd instr in
        let prev_xn_val :=
          if is_64_bits
          then ReadXRegister reg_code Reg31IsZeroRegister (registers_ sim)
          else ReadWRegister reg_code Reg31IsZeroRegister (registers_ sim) in
        Done (Z.lor (Z.land prev_xn_val (Z.lnot (int64 (Z.shiftl 0xffff shift))))
                shifted_imm16)
    | MOVZ_w | MOVZ_x => Done shifted_imm16
    | MoveWideImmediateUnallocated => Aborted Unreachable
    end ;;
  Done (set_registers (WriteXRegister (GetRd instr) new_xn_val Reg31IsZeroRegister) sim).

(** [Simulator::VisitDataProcessing3Source].  The operands and [result] are
    [uint64_t], except the sign-extended 32-bit operands, whose product is
    computed in [int64_t]. *)
Definition VisitDataProcessing3Source (instr : DecodedInstruction) (sim : Simulator)
  : Outcome Simulator :=
  let regs := registers_ sim in
  let reg_size := if GetSixtyFourBits instr then kXRegSize else kWRegSize in
  let rn_u32 := ReadRegister uint32_t (GetRn instr) Reg31IsZeroRegister regs in
  let rm_u32 := ReadRegister uint32_t (GetRm instr) Reg31IsZeroRegister regs in
  let rn_s32 := ReadRegister int32_t (GetRn instr) Reg31IsZeroRegister regs in
  let rm_s32 := ReadRegister int32_t (GetRm instr) Reg31IsZeroRegister regs in
  let rn_u64 := uint64 (ReadXRegister (GetRn instr) Reg31IsZeroRegister regs) in
  let rm_u64 := uint64 (ReadXRegister (GetRm instr) Reg31IsZeroRegister regs) in
  let ra := uint64 (ReadXRegister (GetRa instr) Reg31IsZeroRegister regs) in
  result <-
    match DataProcessing3SourceMask instr with
    | MADD_w | MADD_x => Done (uint64 (ra + uint64 (rn_u64 * rm_u64)))
    | MSUB_w | MSUB_x => Done (uint64 (ra - uint64 (rn_u64 * rm_u64)))
    | SMADDL_x => Done (uint64 (ra + uint64 (int64 (rn_s32 * rm_s32))))
    | SMSUBL_x => Done (uint64 (ra - uint64 (int64 (rn_s32 * rm_s32))))
    | UMADDL_x => Done (uint64 (ra + uint64 (rn_u32 * rm_u32)))
    | UMSUBL_x => Done (uint64 (ra - uint64 (rn_u32 * rm_u32)))
    | DataProcessing3SourceUnallocated => Aborted Unimplemented
    end ;;
  Done (set_registers
          (WriteRegisterSized reg_size (GetRd instr) (int64 result) Reg31IsZeroRegister)
          sim).

(** [Simulator::AddressModeHelper]: the address of the access, and the state
    after the write-back.  The assertion asks for a non-zero offset in the
    indexed modes. *)
Definition AddressModeHelper (addr_reg offset : Z) (addrmode : AddrMode)
    (sim : Simulator) : Outcome (Z * Simulator) :=
  let address := uint64 (ReadXRegister addr_reg Reg31IsStackPointer (registers_ sim)) in
  if (addr_reg =? 31) && negb (address mod 16 =? 0) then Aborted AlignmentException
  else
    let sim :=
      match addrmode with
      | PreIndex | PostIndex =>
          set_registers
            (WriteXRegister addr_reg (uint64 (address + offset)) Reg31IsStackPointer) sim
      | Offset => sim
      end in
    let address :=
      match addrmode with
      | Offset | PreIndex => uint64 (address + offset)
      | PostIndex => address
      end in
    Done (address, sim).

(** [Simulator::LoadStoreHelper], integer opcodes. *)
Definition LoadStoreHelper (instr : DecodedInstruction) (offset : Z)
    (addrmode : AddrMode) (sim : Simulator) : Outcome Simulator :=
  let srcdst := GetRt instr in
  r <- AddressModeHelper (GetRn instr) offset addrmode sim ;;
  let '(address, sim) := r in
  let load (T : CType) (wide : bool) :=
    let (data, sim) := Read T address sim in
    set_registers
      (if wide then WriteXRegister srcdst data Reg31IsZeroRegister
       else WriteWRegister srcdst data Reg31IsZeroRegister) sim in
  let store (T : CType) (wide : bool) :=
    Write T address
      (if wide then ReadXRegister srcdst Reg31IsZeroRegister (registers_ sim)
       else ReadWRegister srcdst Reg31IsZeroRegister (registers_ sim)) sim in
  sim <-
    match LoadStoreMask instr with
    | LDRB_w => Done (load uint8_t false)
    | LDRH_w => Done (load uint16_t false)
    | LDR_w => Done (load uint32_t false)
    | LDR_x => Done (load uint64_t true)
    | LDRSB_w => Done (load int8_t false)
    | LDRSH_w => Done (load int16_t false)
    | LDRSB_x => Done (load int8_t true)
    | LDRSH_x => Done (load int16_t true)
    | LDRSW_x => Done (load int32_t true)
    | STRB_w => Done (store uint8_t false)
    | STRH_w => Done (store uint16_t false)
    | STR_w => Done (store uint32_t false)
    | STR_x => Done (store uint64_t true)
    | PRFM => Done sim
    | LoadStoreUnallocated => Aborted Unimplemented
    end ;;
  Done (set_local_monitor LocalMaybeClear sim).

(** [Simulator::VisitLoadStoreUnsignedOffset]. *)
Definition VisitLoadStoreUnsignedOffset (instr : DecodedInstruction) (sim : Simulator)
  : Outcome Simulator :=
  LoadStoreHelper instr (Z.shiftl (GetImmLSUnsigned instr) (GetSizeLS instr)) Offset sim.

(** [Simulator::VisitLoadStoreUnscaledOffset]. *)
Definition VisitLoadStoreUnscaledOffset (instr : DecodedInstruction) (sim : Simulator)
  : Outcome Simulator :=
  LoadStoreHelper instr (GetImmLS instr) Offset sim.

(** [Simulator::VisitLoadStorePreIndex]. *)
Definition VisitLoadStorePreIndex (instr : DecodedInstruction) (sim : Simulator)
  : Outcome Simulator :=
  LoadStoreHelper instr (GetImmLS instr) PreIndex sim.

(** [Simulator::VisitLoadStorePostIndex]. *)
Definition VisitLoadStorePostIndex (instr : DecodedInstruction) (sim : Simulator)
  : Outcome Simulator :=
  LoadStoreHelper instr (GetImmLS instr) PostIndex sim.

End IntegerHandlers.

(** ** Vocabulary of the statements

    The element type that the switches of [VisitLoadStoreExclusive] pick for
    each opcode name (and whether the opcode stores a pair), the names of the
    exclusive loads, and the events of a conditional barrier. *)
Definition CompareAndSwapElementType (op : LoadStoreExclusive) : option CType :=
  match op with
  | CASB | CASAB | CASLB | CASALB => Some uint8_t
  | CASH | CASAH | CASLH | CASALH => Some uint16_t
  | CAS_w | CASA_w | CASL_w | CASAL_w => Some uint32_t
  | CAS_x | CASA_x | CASL_x | CASAL_x => Some uint64_t
  | _ => None
  end.

Definition CompareAndSwapPairElementType (op : LoadStoreExclusive) : option CType :=
  match op with
  | CASP_w | CASPA_w | CASPL_w | CASPAL_w => Some uint32_t
  | CASP_x | CASPA_x | CASPL_x | CASPAL_x => Some uint64_t
  | _ => None
  end.

Definition StoreExclusiveElementType (op : LoadStoreExclusive) : option (CType * bool) :=
  match op with
  | STXRB_w | STLXRB_w => Some (uint8_t, false)
  | STXRH_w | STLXRH_w => Some (uint16_t, false)
  | STXR_w | STLXR_w => Some (uint32_t, false)
  | STXR_x | STLXR_x => Some (uint64_t, false)
  | STXP_w | STLXP_w => Some (uint32_t, true)
  | STXP_x | STLXP_x => Some (uint64_t, true)
  | _ => None
  end.

Definition IsLoadExclusive (op : LoadStoreExclusive) : bool :=
  match op with
  | LDXRB_w | LDAXRB_w | LDXRH_w | LDAXRH_w
  | LDXR_w | LDAXR_w | LDXR_x | LDAXR_x
  | LDXP_w | LDAXP_w | LDXP_x | LDAXP_x => true
  | _ => false
  end.

Definition fence_events (b : bool) : list Event := if b then [EvFence] else [].


(** What each condition code tells about [left] and [right] once they have
    been compared: equality, the unsigned and the signed orders, the sign of
    the wrapped difference (mi, pl) and whether the signed difference
    overflows the register size (vs, vc). *)
Definition ComparisonHolds (cond : Cond.Condition) (reg_size left right : Z) : bool :=
  let l := left mod 2 ^ reg_size in
  let r := right mod 2 ^ reg_size in
  let sl := to_signed reg_size left in
  let sr := to_signed reg_size right in
  let fits := (- 2 ^ (reg_size - 1) <=? sl - sr) && (sl - sr <? 2 ^ (reg_size - 1)) in
  match cond with
  | Cond.eq => l =? r
  | Cond.ne => negb (l =? r)
  | Cond.hs => r <=? l
  | Cond.lo => l <? r
  | Cond.mi => Z.testbit ((left - right) mod 2 ^ reg_size) (reg_size - 1)
  | Cond.pl => negb (Z.testbit ((left - right) mod 2 ^ reg_size) (reg_size - 1))
  | Cond.vs => negb fits
  | Cond.vc => fits
  | Cond.hi => r <? l
  | Cond.ls => l <=? r
  | Cond.ge => sr <=? sl
  | Cond.lt => sl <? sr
  | Cond.gt => sr <? sl
  | Cond.le => sl <=? sr
  | Cond.al | Cond.nv => true
  end.

(** [instr] is the move-wide instruction [op] on the 64-bit register [rd]
    whose immediate is halfword [k] of the constant [c]. *)
Definition MovesHalfword (op : MoveWideImmediateOp) (k c rd : Z)
    (instr : DecodedInstruction) : Prop :=
  MoveWideImmediateMask instr = op /\
  GetSixtyFourBits instr = true /\
  GetRd instr = rd /\
  GetShiftMoveWide instr = k /\
  GetImmMoveWide instr = (c / 2 ^ (16 * k)) mod 2 ^ 16.

(** The element type that [LoadStoreHelper] reads or writes for each integer
    opcode, whether the register is accessed at 64 bits, and which opcodes
    are loads. *)
Definition LoadStoreElementType (op : LoadStoreOp) : option (CType * bool) :=
  match op with
  | LDRB_w | STRB_w => Some (uint8_t, false)
  | LDRH_w | STRH_w => Some (uint16_t, false)
  | LDR_w | STR_w => Some (uint32_t, false)
  | LDR_x | STR_x => Some (uint64_t, true)
  | LDRSB_w => Some (int8_t, false)
  | LDRSH_w => Some (int16_t, false)
  | LDRSB_x => Some (int8_t, true)
  | LDRSH_x => Some (int16_t, true)
  | LDRSW_x => Some (int32_t, true)
  | PRFM | LoadStoreUnallocated => None
  end.

Definition LoadStoreIsLoad (op : LoadStoreOp) : bool :=
  match op with
  | LDRB_w | LDRH_w | LDR_w | LDR_x
  | LDRSB_w | LDRSH_w | LDRSB_x | LDRSH_x | LDRSW_x => true
  | _ => false
  end.

(** The element type that the load path of [VisitLoadStoreExclusive] reads
    for each opcode name, exclusive or load-acquire, and whether the opcode
    loads a pair; the element type of the store-release opcodes. *)
Definition LoadExclusiveElementType (op : LoadStoreExclusive) : option (CType * bool) :=
  match op with
  | LDXRB_w | LDAXRB_w | LDARB_w | LDLARB => Some (uint8_t, false)
  | LDXRH_w | LDAXRH_w | LDARH_w | LDLARH => Some (uint16_t, false)
  | LDXR_w | LDAXR_w | LDAR_w | LDLAR_w => Some (uint32_t, false)
  | LDXR_x | LDAXR_x | LDAR_x | LDLAR_x => Some (uint64_t, false)
  | LDXP_w | LDAXP_w => Some (uint32_t, true)
  | LDXP_x | LDAXP_x => Some (uint64_t, true)
  | _ => None
  end.

Definition StoreReleaseElementType (op : LoadStoreExclusive) : option CType :=
  match op with
  | STLRB_w | STLLRB => Some uint8_t
  | STLRH_w | STLLRH => Some uint16_t
  | STLR_w | STLLR_w => Some uint32_t
  | STLR_x | STLLR_x => Some uint64_t
  | _ => None
  end.

(** Product of two polynomials over the field with two elements, a
    polynomial being the integer whose bit [k] is the coefficient of degree
    [k]: the sum (exclusive or) of [p] times [x^k] over the bits [k] set
    among the low [bits] bits of [q]. *)
Fixpoint PolyMul2 (bits : nat) (q p : Z) : Z :=
  match bits with
  | O => 0
  | S k =>
      Z.lxor (PolyMul2 k q p)
        (if Z.testbit q (Z.of_nat k) then p * 2 ^ Z.of_nat k else 0)
  end.

(** ** A concrete set of collaborators

    Used to run the handlers on examples.  The global monitor answers from a
    pseudo-random sequence, an atomic access is valid when it is naturally
    aligned (and 16-byte aligned through the stack pointer), the code field is
    bits 54 to 48 of a pointer and the error code tells the A keys from the B
    keys. *)
Definition ExampleCollaborators : Collaborators := {|
  SimExclusiveGlobalMonitor := Z;
  GlobalIsExclusive := fun _ _ seed =>
    (negb (seed mod 8 =? 0), (seed * 48271) mod 2147483647);
  MaybeClearSkips := fun seed =>
    (seed mod 8 =? 0, (seed * 48271) mod 2147483647);
  AtomicAccessIsValid := fun rn address access_size =>
    (address mod access_size =? 0) && (negb (rn =? 31) || (address mod 16 =? 0));
  ComputePAC := fun ptr context key =>
    uint64 ((ptr + 31 * context + 0x9e3779b97f4a7c15) * 0xff51afd7ed558ccd);
  PACMask := fun _ => 0x007f000000000000;
  TopPACBit := fun _ => 55;
  PACErrorCode := fun key =>
    match key with kPACKeyIA | kPACKeyDA => 1 | _ => 2 end
|}.

(** An instruction with the given register fields and opcodes; it is a
    64-bit, exclusive, non-acquire access of eight bytes with every extracted
    bit zero. *)
Definition ExampleInstruction (rd rn rm rt2 : Z) (load pair : bool)
    (branch : UnconditionalBranchToRegisterOp) (exclusive : LoadStoreExclusive)
    (atomic : AtomicMemoryOp) (dp1 : DataProcessing1SourceOp)
    (dp2 : DataProcessing2SourceOp) (system : SystemClass) (hint : SystemHint)
  : Instruction := {|
  InstructionAddress := 0x1000;
  GetRd := rd; GetRn := rn; GetRm := rm; GetRs := rm; GetRt := rd; GetRt2 := rt2;
  GetSixtyFourBits := true;
  ExtractBit := fun _ => 0;
  GetLdStXNotExclusive := false;
  GetLdStXAcquireRelease := false;
  GetLdStXLoad := load;
  GetLdStXPair := pair;
  GetLdStXSizeLog2 := 3;
  GetImmHint := hint;
  UnconditionalBranchToRegisterMask := branch;
  LoadStoreExclusiveMask := exclusive;
  AtomicMemoryMask := atomic;
  DataProcessing1SourceMask := dp1;
  DataProcessing2SourceMask := dp2;
  SystemMask := system
|}.

(** STXR x0, w2, [x1]; also LDADD x2, x0, [x1], UDIV x0, x1, x2, PACIA x0, x1,
    BR x1 and BTI c, according to the handler it is given to. *)
Definition ExampleStore : Instruction :=
  ExampleInstruction 0 1 2 3 false false BR STXR_x
    (AtomicSimple LDADDOp OrdNone SizeX) (PAC IA) UDIV_x IsSystemHint BTI_c.

(** LDXR x0, [x1]; also AUTIA x0, x1 and BRAAZ x1. *)
Definition ExampleLoad : Instruction :=
  ExampleInstruction 0 1 2 3 true false BRAAZ LDXR_x
    (LDAPR SizeX) (AUT IA) UDIV_x IsSystemHint BTI.

(** CAS x3, x0, [x1]; also UDIV x0, x1, x3 and PACIASP. *)
Definition ExampleCAS : Instruction :=
  ExampleInstruction 0 1 3 3 false false BLR CAS_x
    (SWP OrdNone SizeX) (PAC IA) UDIV_x (IsSystemPAuth (PACI ASP)) NOP.

(** CASP x2, x3, x4, x5, [x1]; also SDIV x4, x1, x2. *)
Definition ExampleCASP : Instruction :=
  ExampleInstruction 4 1 2 5 false true RET CASP_x
    (SWP OrdNone SizeX) (PAC IA) SDIV_x IsSystemHint BTI_j.

(** UDIV x0, x1, x8. *)
Definition ExampleDivideByZero : Instruction :=
  ExampleInstruction 0 1 8 3 false false BR STXR_x
    (SWP OrdNone SizeX) (PAC IA) UDIV_x IsSystemHint NOP.

(** SDIV x0, x6, x7. *)
Definition ExampleDivide : Instruction :=
  ExampleInstruction 0 6 7 3 false false BR STXR_x
    (SWP OrdNone SizeX) (PAC IA) SDIV_x IsSystemHint NOP.

(** A state with x0 = 0x1111, x1 = 0x200, x2 and x3 holding the sixteen
    bytes found at 0x200 (x3 the first eight), x4 = 0x4444, x5 = 0x5555,
    x6 the most negative integer, x7 = -1 and the other registers zero;
    memory byte [a] holds [a mod 256]; the local monitor holds eight bytes at
    0x200; the page is guarded and the branch type is [BranchAndLink]. *)
Definition ExampleSimulator : @Simulator ExampleCollaborators :=
  @mkSimulator ExampleCollaborators
    (fun code =>
       match code with
       | 0 => 0x1111
       | 1 => 0x200
       | 2 => 0x0f0e0d0c0b0a0908
       | 3 => 0x0706050403020100
       | 4 => 0x4444
       | 5 => 0x5555
       | 6 => 0x8000000000000000
       | 7 => 0xffffffffffffffff
       | _ => 0
       end)
    {| value_ := 0; write_ignore_mask_ := 0x0fffffff |}
    (fun a => a mod 256)
    {| reservation_ := Some (0x200, 8); seed_ := 0x87654321 |}
    0x87654321
    0x1000 false BranchAndLink DefaultBType true [].

(** ** Further example instructions *)

(** [base] with the register-size bit cleared, and [base] as an access that
    is not exclusive. *)
Definition ExampleWForm (base : Instruction) : Instruction :=
  mkInstruction (InstructionAddress base) (GetRd base) (GetRn base) (GetRm base)
    (GetRs base) (GetRt base) (GetRt2 base) false (ExtractBit base)
    (GetLdStXNotExclusive base) (GetLdStXAcquireRelease base) (GetLdStXLoad base)
    (GetLdStXPair base) (GetLdStXSizeLog2 base) (GetImmHint base)
    (UnconditionalBranchToRegisterMask base) (LoadStoreExclusiveMask base)
    (AtomicMemoryMask base) (DataProcessing1SourceMask base)
    (DataProcessing2SourceMask base) (SystemMask base).

Definition ExampleNotExclusive (base : Instruction) : Instruction :=
  mkInstruction (InstructionAddress base) (GetRd base) (GetRn base) (GetRm base)
    (GetRs base) (GetRt base) (GetRt2 base) (GetSixtyFourBits base) (ExtractBit base)
    true (GetLdStXAcquireRelease base) (GetLdStXLoad base)
    (GetLdStXPair base) (GetLdStXSizeLog2 base) (GetImmHint base)
    (UnconditionalBranchToRegisterMask base) (LoadStoreExclusiveMask base)
    (AtomicMemoryMask base) (DataProcessing1SourceMask base)
    (DataProcessing2SourceMask base) (SystemMask base).

(** A decoded instruction over [base] with the immediate [imm] and the shift
    or bit-position field [shift]; it branches to 0x2000 on [lt], updates the
    flags, takes register 31 as the stack pointer in Rn and as the zero
    register in Rd, and has Ra = x4. *)
Definition ExampleDecoded (base : Instruction) (imm shift : Z)
    (branch : UnconditionalBranchOp) (test : TestBranchOp) (compare : CompareBranchOp)
    (addsub : AddSubOp) (move : MoveWideImmediateOp) (dp3 : DataProcessing3SourceOp)
    (ls : LoadStoreOp) : DecodedInstruction := {|
  instruction_ := base;
  GetRa := 4;
  GetImmPCOffsetTarget := 0x2000;
  GetConditionBranch := Cond.lt;
  GetCondition := Cond.eq;
  GetImmTestBranchBit5 := 0;
  GetImmTestBranchBit40 := shift;
  GetFlagsUpdate := true;
  GetRnMode := Reg31IsStackPointer;
  GetRdMode := Reg31IsZeroRegister;
  GetImmAddSub := imm;
  GetShiftAddSub := 0;
  GetImmCondCmp := imm;
  GetNzcv := 4;
  GetShiftMoveWide := shift;
  GetImmMoveWide := imm;
  GetImmLS := imm;
  GetImmLSUnsigned := imm;
  GetSizeLS := 3;
  UnconditionalBranchMask := branch;
  TestBranchMask := test;
  CompareBranchMask := compare;
  AddSubOpMask := addsub;
  ConditionalCompareMask := CCMP;
  EvaluateIntoFlagsMask := SETF8;
  MoveWideImmediateMask := move;
  DataProcessing3SourceMask := dp3;
  LoadStoreMask := ls
|}.

(** SUBS x0, x1, #imm; also BL, TBNZ x0, #shift, CBZ x0, MADD x0, x1, x2, x4,
    MOVK x0, #imm, LSL #(16 * shift) and LDR x0, [x1, #imm]. *)
Definition ExampleSubtract (imm shift : Z) : DecodedInstruction :=
  ExampleDecoded ExampleStore imm shift BL TBNZ CBZ_x SUBS MOVK_x MADD_x LDR_x.

(** ADC x0, x1, x2; also B, TBZ, CBNZ x0, MOVZ x0, #imm, LSL #(16 * shift)
    and STR x0, [x1, #imm]. *)
Definition ExampleAdd (imm shift : Z) : DecodedInstruction :=
  ExampleDecoded ExampleStore imm shift B TBZ CBNZ_x ADD MOVZ_x MSUB_x STR_x.

(** LDR x5, [x1, #imm]; also CBZ x5. *)
Definition ExampleLoadRegister (imm : Z) : DecodedInstruction :=
  ExampleDecoded
    (ExampleInstruction 5 1 2 3 true false BR LDXR_x (LDAPR SizeX) (AUT IA) UDIV_x
       IsSystemHint NOP)
    imm 0 B TBZ CBZ_x ADD MOVZ_x MADD_x LDR_x.

(** MOVK w7, #imm, LSL #(16 * shift). *)
Definition ExampleMoveKeepW (imm shift : Z) : DecodedInstruction :=
  ExampleDecoded
    (ExampleWForm
       (ExampleInstruction 7 1 2 3 false false BR STXR_x (SWP OrdNone SizeX) (PAC IA)
          UDIV_x IsSystemHint NOP))
    imm shift B TBZ CBZ_w ADD MOVK_w MADD_w LDR_w.

(** RET x30. *)
Definition ExampleReturn : Instruction :=
  ExampleInstruction 0 30 2 3 false false RET STXR_x (SWP OrdNone SizeX) (PAC IA)
    UDIV_x IsSystemHint NOP.

(** CLREX; also LSLV x0, x1, x4. *)
Definition ExampleClearExclusive : Instruction :=
  ExampleInstruction 0 1 4 3 false false BR STXR_x (SWP OrdNone SizeX) (PAC IA)
    LSLV_x IsSystemExclusiveMonitor NOP.

(** CFINV. *)
Definition ExampleInvertCarry : Instruction :=
  ExampleInstruction 0 1 4 3 false false BR STXR_x (SWP OrdNone SizeX) (PAC IA)
    LSLV_x (IsSystemPState CFINV) NOP.

(** AXFLAG. *)
Definition ExampleConvertFlags : Instruction :=
  ExampleInstruction 0 1 4 3 false false BR STXR_x (SWP OrdNone SizeX) (PAC IA)
    LSLV_x (IsSystemPState AXFLAG) NOP.

(** STLR x0, [x1]. *)
Definition ExampleStoreRelease : Instruction :=
  ExampleNotExclusive
    (ExampleInstruction 0 1 2 3 false false BR STLR_x (SWP OrdNone SizeX) (PAC IA)
       UDIV_x IsSystemHint NOP).

(** PACIASP or PACIBSP, according to [m]. *)
Definition ExamplePACI (m : PAuthSystemMode) : Instruction :=
  ExampleInstruction 0 1 3 3 false false BLR CAS_x
    (SWP OrdNone SizeX) (PAC IA) UDIV_x (IsSystemPAuth (PACI m)) NOP.

(** The example state in its guarded page with the branch type [btype]. *)
Definition ExampleGuarded (btype : BType) : @Simulator ExampleCollaborators :=
  @mkSimulator ExampleCollaborators
    (registers_ ExampleSimulator) (nzcv_ ExampleSimulator) (memory_ ExampleSimulator)
    (local_monitor_ ExampleSimulator) (global_monitor_ ExampleSimulator)
    (pc_ ExampleSimulator) (pc_modified_ ExampleSimulator) btype
    (next_btype_ ExampleSimulator) true (trace_ ExampleSimulator).


(** ** Tactics *)

(** Discharges the first hypothesis of [H] by evaluation. *)
Ltac discharge H :=
  lazymatch type of H with
  | ?A -> _ =>
      let Ha := fresh "Ha" in
      assert (Ha : A)
        by first [ reflexivity | vm_compute; reflexivity | cbn; lia | cbv; discriminate ];
      specialize (H Ha); clear Ha
  end.

(** Discharges the first hypothesis of [H] by the given tactic. *)
Ltac discharge_by H tac :=
  lazymatch type of H with
  | ?A -> _ =>
      let Ha := fresh "Ha" in
      assert (Ha : A) by tac;
      specialize (H Ha); clear Ha
  end.

(** * Properties *)

(** ** Bit-level facts shared by the proofs *)

Lemma land_kWRegMask (x : Z) : Z.land x kWRegMask = x mod 2 ^ 32.
Proof. change kWRegMask with (Z.ones 32). apply Z.land_ones. lia. Qed.

Lemma land_kXRegMask (x : Z) : Z.land x kXRegMask = x mod 2 ^ 64.
Proof. change kXRegMask with (Z.ones 64). apply Z.land_ones. lia. Qed.

Lemma land_1_testbit (x n : Z) :
  0 <= n -> Z.land (Z.shiftr x n) 1 = Z.b2z (Z.testbit x n).
Proof.
  intros Hn. change 1 with (Z.ones 1) at 1.
  rewrite Z.land_ones by lia.
  rewrite Z.shiftr_div_pow2 by lia.
  now rewrite Z.testbit_spec' by lia.
Qed.

Lemma land_pow2 (a n : Z) :
  0 <= n -> Z.land a (2 ^ n) = if Z.testbit a n then 2 ^ n else 0.
Proof.
  intros Hn. apply Z.bits_inj'. intros i Hi.
  rewrite Z.land_spec, Z.pow2_bits_eqb by lia.
  destruct (Z.eqb_spec n i) as [->|Hne].
  - destruct (Z.testbit a i); simpl.
    + now rewrite Z.pow2_bits_true.
    + now rewrite Z.bits_0.
  - rewrite andb_false_r.
    destruct (Z.testbit a n).
    + now rewrite Z.pow2_bits_false.
    + now rewrite Z.bits_0.
Qed.

Lemma ExtractBits_bit (k : Z) (r : SimSystemRegister) :
  0 <= k -> ExtractBits k k r = Z.b2z (Z.testbit (value_ r) k).
Proof.
  intros Hk. unfold ExtractBits.
  replace (k - k + 1) with 1 by lia.
  change (Z.shiftl 1 1 - 1) with 1.
  now apply land_1_testbit.
Qed.

Lemma SetBits_testbit (k b i : Z) (r : SimSystemRegister) :
  0 <= k < 32 -> b = 0 \/ b = 1 -> 0 <= i < 32 ->
  Z.testbit (value_ (SetBits k k b r)) i =
  if i =? k then (b =? 1) else Z.testbit (value_ r) i.
Proof.
  intros Hk Hb Hi. unfold SetBits; cbn [value_].
  replace (k - k + 1) with 1 by lia.
  change (Z.shiftl 1 1 - 1) with 1.
  rewrite (Z.shiftl_mul_pow2 1 k), Z.mul_1_l by lia.
  assert (Hm : uint32 (2 ^ k) = 2 ^ k).
  { unfold uint32. apply Z.mod_small. split; [lia|].
    apply Z.pow_lt_mono_r; lia. }
  rewrite Hm.
  rewrite Z.lor_spec, !Z.land_spec.
  unfold uint32.
  rewrite !Z.testbit_mod_pow2, Z.lnot_spec, Z.shiftl_spec by lia.
  rewrite Z.pow2_bits_eqb by lia.
  replace (i <? 32) with true by (symmetry; apply Z.ltb_lt; lia).
  rewrite (Z.eqb_sym k i).
  destruct (Z.eqb_spec i k) as [->|Hne]; simpl.
  - rewrite Z.sub_diag, andb_false_r, andb_true_r. simpl.
    destruct Hb as [-> | ->]; reflexivity.
  - now rewrite !andb_true_r, andb_false_r, orb_false_r.
Qed.

Lemma ExtractBits_SetBits_same (k b : Z) (r : SimSystemRegister) :
  0 <= k < 32 -> b = 0 \/ b = 1 -> ExtractBits k k (SetBits k k b r) = b.
Proof.
  intros Hk Hb. rewrite ExtractBits_bit, SetBits_testbit by lia.
  rewrite Z.eqb_refl. destruct Hb as [-> | ->]; reflexivity.
Qed.

Lemma ExtractBits_SetBits_other (k j b : Z) (r : SimSystemRegister) :
  0 <= k < 32 -> 0 <= j < 32 -> j <> k -> b = 0 \/ b = 1 ->
  ExtractBits j j (SetBits k k b r) = ExtractBits j j r.
Proof.
  intros Hk Hj Hne Hb. rewrite !ExtractBits_bit, SetBits_testbit by lia.
  now replace (j =? k) with false by (symmetry; apply Z.eqb_neq; lia).
Qed.

(** ** AddWithCarry *)

Lemma add3_mod (a b c n : Z) :
  n <> 0 -> (a mod n + b mod n + c) mod n = (a + b + c) mod n.
Proof.
  intros Hn.
  rewrite <- (Z.add_mod_idemp_l (a mod n + b mod n) c) by assumption.
  rewrite <- Z.add_mod by assumption.
  now rewrite Z.add_mod_idemp_l.
Qed.

Lemma AddWithCarry_result (reg_size : Z) (set_flags : bool)
    (left right carry_in : Z) (nzcv : SimSystemRegister) :
  reg_size = 32 \/ reg_size = 64 ->
  fst (AddWithCarry reg_size set_flags left right carry_in nzcv) =
  (left + right + carry_in) mod 2 ^ reg_size.
Proof.
  intros Hs. unfold AddWithCarry, uint64.
  assert (H64 : forall x, (x mod 2 ^ 64) mod 2 ^ 32 = x mod 2 ^ 32).
  { intros x. apply Z.mod_mod_divide. exists (2 ^ 32). reflexivity. }
  destruct Hs as [-> | ->]; change (32 =? kWRegSize) with true;
    change (64 =? kWRegSize) with false; cbv iota;
    destruct set_flags; cbn [fst];
    rewrite ?land_kWRegMask, ?land_kXRegMask, ?H64, ?Z.mod_mod by lia;
    apply add3_mod; lia.
Qed.

(** C1.  For both register sizes, all operands and either carry-in,
    [AddWithCarry] returns [(left + right + carry_in) mod 2^size].  With
    [set_flags] it sets N to the sign bit of the result, Z to whether the
    result is zero, C iff the unsigned sum of the (register-sized) operands
    and the carry exceeds the largest unsigned value of the size, and V iff
    the operands have equal sign bits and the sign bit of the result differs
    from them.  Without [set_flags] the flags are left alone. *)
Theorem AddWithCarry_spec (reg_size : Z) (set_flags : bool)
    (left right carry_in : Z) (nzcv : SimSystemRegister) :
  reg_size = 32 \/ reg_size = 64 ->
  carry_in = 0 \/ carry_in = 1 ->
  let l := left mod 2 ^ reg_size in
  let r := right mod 2 ^ reg_size in
  let sign x := Z.testbit x (reg_size - 1) in
  let result := fst (AddWithCarry reg_size set_flags left right carry_in nzcv) in
  let nzcv' := snd (AddWithCarry reg_size set_flags left right carry_in nzcv) in
  result = (left + right + carry_in) mod 2 ^ reg_size /\
  (set_flags = true ->
     GetN nzcv' = Z.b2z (sign result) /\
     GetZ nzcv' = Z.b2z (result =? 0) /\
     GetC nzcv' = Z.b2z (2 ^ reg_size - 1 <? l + r + carry_in) /\
     GetV nzcv' =
       Z.b2z (Bool.eqb (sign l) (sign r) && negb (Bool.eqb (sign result) (sign l)))) /\
  (set_flags = false -> nzcv' = nzcv).
Proof.
  intros Hs Hc l r sign result nzcv'.
  assert (Hres : result = (left + right + carry_in) mod 2 ^ reg_size)
    by (apply AddWithCarry_result; assumption).
  split; [assumption|].
  destruct set_flags;
    [split; [intros _ | discriminate] | split; [discriminate | reflexivity]].
  clear Hres. subst result nzcv'. unfold AddWithCarry. cbn [fst snd].
  set (reg_mask := if reg_size =? kWRegSize then kWRegMask else kXRegMask) in *.
  set (sign_mask := if reg_size =? kWRegSize then kWSignMask else kXSignMask) in *.
  set (max_uint := if reg_size =? kWRegSize then kWMaxUInt else kXMaxUInt) in *.
  assert (Hl : Z.land left reg_mask = l).
  { subst reg_mask l. destruct Hs as [-> | ->];
      [apply land_kWRegMask | apply land_kXRegMask]. }
  assert (Hr : Z.land right reg_mask = r).
  { subst reg_mask r. destruct Hs as [-> | ->];
      [apply land_kWRegMask | apply land_kXRegMask]. }
  assert (Hmax : max_uint = 2 ^ reg_size - 1).
  { subst max_uint. destruct Hs as [-> | ->]; reflexivity. }
  assert (Hsm : sign_mask = 2 ^ (reg_size - 1)).
  { subst sign_mask. destruct Hs as [-> | ->]; reflexivity. }
  assert (Hpow : 2 ^ reg_size <= 2 ^ 64 /\ 2 <= 2 ^ reg_size).
  { destruct Hs as [-> | ->]; lia. }
  assert (Hlb : 0 <= l < 2 ^ reg_size) by (apply Z.mod_pos_bound; lia).
  assert (Hrb : 0 <= r < 2 ^ reg_size) by (apply Z.mod_pos_bound; lia).
  rewrite Hl, Hr.
  set (result := Z.land (uint64 (l + r + carry_in)) reg_mask).
  set (Nb := CalcNFlag result reg_size).
  set (Zb := CalcZFlag result).
  set (Cb := if (l >? uint64 (max_uint - carry_in))
                  || (uint64 (uint64 (max_uint - carry_in) - l) <? r)
             then 1 else 0).
  set (Vb := if (Z.land l sign_mask =? Z.land r sign_mask)
                  && negb (Z.land l sign_mask =? Z.land result sign_mask)
             then 1 else 0).
  assert (HNb : Nb = Z.b2z (sign result)).
  { subst Nb sign. unfold CalcNFlag. apply land_1_testbit. lia. }
  assert (HZb : Zb = Z.b2z (result =? 0)).
  { subst Zb. unfold CalcZFlag. now destruct (result =? 0). }
  assert (HCb : Cb = Z.b2z (2 ^ reg_size - 1 <? l + r + carry_in)).
  { subst Cb. rewrite Hmax. unfold uint64.
    rewrite (Z.mod_small (2 ^ reg_size - 1 - carry_in)) by lia.
    destruct (Z.gtb_spec l (2 ^ reg_size - 1 - carry_in)) as [Hgt|Hle]; simpl.
    - symmetry. replace (2 ^ reg_size - 1 <? l + r + carry_in) with true;
        [reflexivity | symmetry; apply Z.ltb_lt; lia].
    - rewrite (Z.mod_small (2 ^ reg_size - 1 - carry_in - l)) by lia.
      destruct (Z.ltb_spec (2 ^ reg_size - 1 - carry_in - l) r);
        destruct (Z.ltb_spec (2 ^ reg_size - 1) (l + r + carry_in));
        simpl; lia. }
  assert (HVb : Vb =
    Z.b2z (Bool.eqb (sign l) (sign r) && negb (Bool.eqb (sign result) (sign l)))).
  { subst Vb sign. cbv beta. rewrite Hsm, !land_pow2 by lia.
    assert (Hp : 0 < 2 ^ (reg_size - 1)) by (apply Z.pow_pos_nonneg; lia).
    generalize dependent (2 ^ (reg_size - 1)). intros p _ Hp.
    generalize (Z.testbit l (reg_size - 1)) (Z.testbit r (reg_size - 1))
      (Z.testbit result (reg_size - 1)).
    intros [|] [|] [|]; cbn [Bool.eqb negb andb Z.b2z];
      repeat match goal with
        | |- context [?a =? ?b] => destruct (Z.eqb_spec a b); try lia
        end; reflexivity. }
  assert (Nb01 : Nb = 0 \/ Nb = 1) by (rewrite HNb; destruct (sign result); auto).
  assert (Zb01 : Zb = 0 \/ Zb = 1) by (rewrite HZb; destruct (result =? 0); auto).
  assert (Cb01 : Cb = 0 \/ Cb = 1).
  { rewrite HCb. destruct (2 ^ reg_size - 1 <? l + r + carry_in); auto. }
  assert (Vb01 : Vb = 0 \/ Vb = 1).
  { rewrite HVb.
    destruct (Bool.eqb (sign l) (sign r) && negb (Bool.eqb (sign result) (sign l))); auto. }
  rewrite <- HNb, <- HZb, <- HCb, <- HVb.
  unfold GetN, GetZ, GetC, GetV, SetN, SetZ, SetC, SetV,
    N_offset, Z_offset, C_offset, V_offset.
  repeat split.
  - rewrite (ExtractBits_SetBits_other 28 31), (ExtractBits_SetBits_other 29 31),
      (ExtractBits_SetBits_other 30 31) by (assumption || lia).
    apply ExtractBits_SetBits_same; [lia | assumption].
  - rewrite (ExtractBits_SetBits_other 28 30), (ExtractBits_SetBits_other 29 30)
      by (assumption || lia).
    apply ExtractBits_SetBits_same; [lia | assumption].
  - rewrite (ExtractBits_SetBits_other 28 29) by (assumption || lia).
    apply ExtractBits_SetBits_same; [lia | assumption].
  - apply ExtractBits_SetBits_same; [lia | assumption].
Qed.

(** ** ShiftOperand and ExtendValue with a zero amount *)

Lemma sign_bit_test (u n : Z) :
  0 < n -> 0 <= u < 2 ^ n -> Z.testbit u (n - 1) = (2 ^ (n - 1) <=? u).
Proof.
  intros Hn Hu.
  assert (Hp : 2 ^ n = 2 * 2 ^ (n - 1)).
  { rewrite <- Z.pow_succ_r by lia. f_equal. lia. }
  assert (0 < 2 ^ (n - 1)) by (apply Z.pow_pos_nonneg; lia).
  rewrite Z.testbit_eqb by lia.
  destruct (Z.leb_spec (2 ^ (n - 1)) u) as [Hge|Hlt].
  - replace (u / 2 ^ (n - 1)) with 1; [reflexivity|].
    apply Z.div_unique with (r := u - 2 ^ (n - 1)); lia.
  - rewrite Z.div_small by lia. reflexivity.
Qed.

Lemma lor_high_ones (b n : Z) :
  0 <= n <= 64 -> 0 <= b < 2 ^ n ->
  Z.lor b (uint64 (Z.shiftl kXMaxUInt n)) = b + 2 ^ 64 - 2 ^ n.
Proof.
  intros Hn Hb.
  assert (Hpn : 0 < 2 ^ n) by (apply Z.pow_pos_nonneg; lia).
  assert (Hle : 2 ^ n <= 2 ^ 64) by (apply Z.pow_le_mono_r; lia).
  assert (Hc : uint64 (Z.shiftl kXMaxUInt n) = 2 ^ 64 - 2 ^ n).
  { unfold uint64, kXMaxUInt. rewrite Z.shiftl_mul_pow2 by lia.
    change 0xffffffffffffffff with (2 ^ 64 - 1).
    replace ((2 ^ 64 - 1) * 2 ^ n) with (2 ^ 64 - 2 ^ n + (2 ^ n - 1) * 2 ^ 64) by ring.
    rewrite Z.mod_add by lia. apply Z.mod_small. lia. }
  rewrite Hc.
  assert (Hland : Z.land b (2 ^ 64 - 2 ^ n) = 0).
  { replace (2 ^ 64 - 2 ^ n) with (Z.shiftl (2 ^ (64 - n) - 1) n).
    2:{ rewrite Z.shiftl_mul_pow2 by lia.
        rewrite Z.mul_sub_distr_r, <- Z.pow_add_r by lia.
        replace (64 - n + n) with 64 by lia. lia. }
    apply Z.bits_inj'. intros i Hi.
    rewrite Z.land_spec, Z.bits_0.
    destruct (Z.lt_ge_cases i n) as [Hlt|Hge].
    - rewrite Z.shiftl_spec_low by assumption. apply andb_false_r.
    - replace (Z.testbit b i) with false; [reflexivity|].
      symmetry. rewrite <- (Z.mod_small b (2 ^ n)) by lia.
      apply Z.mod_pow2_bits_high. lia. }
  pose proof (Z.add_lor_land b (2 ^ 64 - 2 ^ n)) as Hadd.
  rewrite Hland in Hadd. lia.
Qed.

Lemma sign_extend_low_bits (v n : Z) :
  0 < n <= 64 ->
  (if negb (Z.land (v mod 2 ^ n) (2 ^ (n - 1)) =? 0)
   then int64 (Z.lor (uint64 (v mod 2 ^ n)) (uint64 (Z.shiftl kXMaxUInt n)))
   else v mod 2 ^ n) = to_signed n v.
Proof.
  intros Hn.
  assert (Hu : 0 <= v mod 2 ^ n < 2 ^ n) by (apply Z.mod_pos_bound, Z.pow_pos_nonneg; lia).
  set (u := v mod 2 ^ n) in *.
  assert (Hle : 2 ^ n <= 2 ^ 64) by (apply Z.pow_le_mono_r; lia).
  assert (Hp : 2 ^ n = 2 * 2 ^ (n - 1)).
  { rewrite <- Z.pow_succ_r by lia. f_equal. lia. }
  assert (Hh : 0 < 2 ^ (n - 1)) by (apply Z.pow_pos_nonneg; lia).
  unfold to_signed. fold u.
  rewrite land_pow2, sign_bit_test by lia.
  destruct (Z.leb_spec (2 ^ (n - 1)) u) as [Hge|Hlt].
  - replace (2 ^ (n - 1) =? 0) with false by (symmetry; apply Z.eqb_neq; lia).
    replace (u <? 2 ^ (n - 1)) with false by (symmetry; apply Z.ltb_ge; lia).
    cbn [negb].
    replace (uint64 u) with u by (unfold uint64; rewrite Z.mod_small; lia).
    rewrite lor_high_ones by lia.
    unfold int64, to_signed.
    rewrite (Z.mod_small (u + 2 ^ 64 - 2 ^ n)) by lia.
    replace (u + 2 ^ 64 - 2 ^ n <? 2 ^ (64 - 1)) with false; [lia|].
    symmetry. apply Z.ltb_ge. change (2 ^ 64) with (2 * 2 ^ (64 - 1)) in *.
    assert (2 ^ (n - 1) <= 2 ^ (64 - 1)) by (apply Z.pow_le_mono_r; lia). lia.
  - replace (u <? 2 ^ (n - 1)) with true by (symmetry; apply Z.ltb_lt; lia).
    reflexivity.
Qed.

(** C6, as the code has it.  [ShiftOperand] with amount 0 returns its input
    unchanged for every register size, value and shift kind.  [ExtendValue]
    with left shift 0 returns the extended value unshifted: the low 8, 16 or
    32 bits of the input, zero-extended (UXTB, UXTH, UXTW) or sign-extended
    (SXTB, SXTH, SXTW), and the input itself for UXTX and SXTX.  So it is the
    identity for the X forms, and for the other kinds exactly on the values
    that the extension leaves alone. *)
Theorem ShiftOperand_ExtendValue_zero_amount :
  (forall reg_size value shift_type,
     ShiftOperand reg_size value shift_type 0 = Some value) /\
  (forall reg_size value extend_type,
     ExtendValue reg_size value extend_type 0 = Some (extended value extend_type)) /\
  (forall reg_size value,
     ExtendValue reg_size value UXTX 0 = Some value /\
     ExtendValue reg_size value SXTX 0 = Some value).
Proof.
  assert (Hshift : forall reg_size value shift_type,
             ShiftOperand reg_size value shift_type 0 = Some value)
    by reflexivity.
  assert (Hext : forall reg_size value extend_type,
             ExtendValue reg_size value extend_type 0 = Some (extended value extend_type)).
  { intros reg_size value extend_type. unfold ExtendValue.
    rewrite Hshift. f_equal.
    destruct extend_type; cbn [extended]; try reflexivity.
    - change kByteMask with (Z.ones 8). now rewrite Z.land_ones by lia.
    - change kHalfWordMask with (Z.ones 16). now rewrite Z.land_ones by lia.
    - change kWordMask with (Z.ones 32). now rewrite Z.land_ones by lia.
    - change kByteMask with (Z.ones 8). rewrite Z.land_ones by lia.
      apply (sign_extend_low_bits value 8). lia.
    - change kHalfWordMask with (Z.ones 16). rewrite Z.land_ones by lia.
      apply (sign_extend_low_bits value 16). lia.
    - change kWordMask with (Z.ones 32). rewrite Z.land_ones by lia.
      apply (sign_extend_low_bits value 32). lia. }
  split; [exact Hshift|]. split; [exact Hext|].
  intros reg_size value. now rewrite !Hext.
Qed.

(** C6 as stated fails: with left shift 0, UXTB turns 0x1ff into 0xff. *)
Lemma ExtendValue_zero_shift_not_identity :
  ~ (forall reg_size value extend_type,
       ExtendValue reg_size value extend_type 0 = Some value).
Proof.
  intros Hid. specialize (Hid 64 0x1ff UXTB). vm_compute in Hid. discriminate.
Qed.

(** ** Casts and the register file *)

Lemma to_signed_mod (n x : Z) :
  0 < n -> to_signed n x mod 2 ^ n = x mod 2 ^ n.
Proof.
  intros Hn. unfold to_signed.
  assert (0 < 2 ^ n) by (apply Z.pow_pos_nonneg; lia).
  destruct (x mod 2 ^ n <? 2 ^ (n - 1)).
  - apply Z.mod_mod. lia.
  - replace (x mod 2 ^ n - 2 ^ n) with (x mod 2 ^ n + (-1) * 2 ^ n) by ring.
    rewrite Z.mod_add by lia. apply Z.mod_mod. lia.
Qed.

Lemma to_signed_congr (n x y : Z) :
  x mod 2 ^ n = y mod 2 ^ n -> to_signed n x = to_signed n y.
Proof. intros Heq. unfold to_signed. now rewrite Heq. Qed.

Lemma sizeof_pos (T : CType) : 0 < sizeof T.
Proof. destruct T; reflexivity. Qed.

Lemma cast_congr (T : CType) (x y : Z) :
  x mod 2 ^ (8 * sizeof T) = y mod 2 ^ (8 * sizeof T) -> cast T x = cast T y.
Proof.
  intros Heq. unfold cast. destruct (is_signed T).
  - now apply to_signed_congr.
  - assumption.
Qed.

Lemma cast_mod (T : CType) (x : Z) :
  cast T x mod 2 ^ (8 * sizeof T) = x mod 2 ^ (8 * sizeof T).
Proof.
  pose proof (sizeof_pos T). unfold cast. destruct (is_signed T).
  - apply to_signed_mod. lia.
  - apply Z.mod_mod. apply Z.pow_nonzero; lia.
Qed.

Lemma cast_idem (T : CType) (x : Z) : cast T (cast T x) = cast T x.
Proof. apply cast_congr, cast_mod. Qed.

Lemma mod_pow2_mod_pow2 (x n m : Z) :
  0 <= n <= m -> (x mod 2 ^ m) mod 2 ^ n = x mod 2 ^ n.
Proof.
  intros Hnm. apply Z.mod_mod_divide.
  exists (2 ^ (m - n)). rewrite <- Z.pow_add_r by lia. f_equal. lia.
Qed.

(** The slot that [WriteRegister<T>] stores holds the written value: reading
    it back at type [T] returns the value as a [T]. *)
Lemma ReadRegister_WriteRegister (T : CType) (code value : Z) (r31mode : Reg31Mode)
    (registers : RegisterFile) :
  (code =? 31) && is_zero_mode r31mode = false ->
  ReadRegister T code r31mode (WriteRegister T code value r31mode registers) =
  cast T value.
Proof.
  intros Hc. unfold ReadRegister, WriteRegister. rewrite Hc, Z.eqb_refl.
  apply cast_congr.
  destruct (Z.ltb_spec (sizeof T) 4).
  - unfold uint32, int32. rewrite to_signed_mod by lia.
    apply mod_pow2_mod_pow2. pose proof (sizeof_pos T). lia.
  - apply Z.mod_mod. apply Z.pow_nonzero; pose proof (sizeof_pos T); lia.
Qed.

(** A write leaves the other registers alone. *)
Lemma ReadRegister_WriteRegister_other (T U : CType) (code code' value : Z)
    (m m' : Reg31Mode) (registers : RegisterFile) :
  code' <> code ->
  ReadRegister U code' m' (WriteRegister T code value m registers) =
  ReadRegister U code' m' registers.
Proof.
  intros Hne. unfold ReadRegister, WriteRegister.
  destruct ((code =? 31) && is_zero_mode m); [reflexivity|].
  now replace (code' =? code) with false by (symmetry; apply Z.eqb_neq; assumption).
Qed.

(** Writes to register 31 as the zero register are dropped, and it reads as
    zero. *)
Lemma WriteRegister_zero_register (T : CType) (value : Z) (registers : RegisterFile) :
  WriteRegister T 31 value Reg31IsZeroRegister registers = registers.
Proof. reflexivity. Qed.

Lemma ReadRegister_WriteRegisterSized (reg_size code value : Z)
    (registers : RegisterFile) :
  code <> 31 ->
  (if reg_size =? kWRegSize then ReadWRegister else ReadXRegister)
    code Reg31IsZeroRegister
    (WriteRegisterSized reg_size code value Reg31IsZeroRegister registers) =
  if reg_size =? kWRegSize then int32 value else int64 value.
Proof.
  intros Hc. unfold WriteRegisterSized.
  assert (Hc' : (code =? 31) && is_zero_mode Reg31IsZeroRegister = false).
  { apply andb_false_iff. left. now apply Z.eqb_neq. }
  destruct (reg_size =? kWRegSize).
  - unfold ReadWRegister, WriteWRegister. rewrite ReadRegister_WriteRegister by assumption.
    unfold cast; cbn [is_signed sizeof]. change (8 * 4) with 32.
    unfold int32. apply to_signed_congr. rewrite to_signed_mod by lia.
    rewrite land_kWRegMask. apply Z.mod_mod. lia.
  - unfold ReadXRegister, WriteXRegister. now rewrite ReadRegister_WriteRegister.
Qed.

(** ** Memory *)

Lemma WriteBytes_other (n : nat) (address value : Z) (m : MemoryBytes) (a : Z) :
  a < address \/ address + Z.of_nat n <= a ->
  WriteBytes n address value m a = m a.
Proof.
  revert address value m. induction n as [|k IH]; intros address value m Ha.
  - reflexivity.
  - cbn [WriteBytes]. rewrite IH by lia.
    replace (a =? address) with false by (symmetry; apply Z.eqb_neq; lia).
    reflexivity.
Qed.

Lemma ReadBytes_WriteBytes (n : nat) (address value : Z) (m : MemoryBytes) :
  ReadBytes n address (WriteBytes n address value m) = value mod 256 ^ Z.of_nat n.
Proof.
  revert address value m. induction n as [|k IH]; intros address value m.
  - cbn [ReadBytes]. now rewrite Z.mod_1_r.
  - cbn [ReadBytes WriteBytes]. rewrite IH.
    rewrite WriteBytes_other by lia. rewrite Z.eqb_refl.
    rewrite Nat2Z.inj_succ, Z.pow_succ_r by lia.
    assert (0 < 256 ^ Z.of_nat k) by (apply Z.pow_pos_nonneg; lia).
    rewrite Z.rem_mul_r by lia.
    rewrite Z.mod_mod by lia. reflexivity.
Qed.

Lemma ReadBytes_frame (n : nat) (address : Z) (m m' : MemoryBytes) :
  (forall a, address <= a < address + Z.of_nat n -> m' a = m a) ->
  ReadBytes n address m' = ReadBytes n address m.
Proof.
  revert address. induction n as [|k IH]; intros address Hsame.
  - reflexivity.
  - cbn [ReadBytes]. rewrite Hsame by lia. rewrite IH; [reflexivity|].
    intros a Ha. apply Hsame. lia.
Qed.

Lemma bytes_of_sizeof (T : CType) :
  256 ^ Z.of_nat (Z.to_nat (sizeof T)) = 2 ^ (8 * sizeof T).
Proof. destruct T; reflexivity. Qed.

(** A value written at an address is the value read back there. *)
Lemma MemoryRead_MemoryWrite (T : CType) (address value : Z) (m : MemoryBytes) :
  MemoryRead T address (MemoryWrite T address value m) = cast T value.
Proof.
  unfold MemoryRead, MemoryWrite. rewrite ReadBytes_WriteBytes, bytes_of_sizeof.
  apply cast_congr. rewrite !Z.mod_mod; [reflexivity | |];
    apply Z.pow_nonzero; pose proof (sizeof_pos T); lia.
Qed.

(** A write changes the [sizeof T] bytes from [address] on and no other. *)
Lemma MemoryWrite_other (T : CType) (address value : Z) (m : MemoryBytes) (a : Z) :
  a < address \/ address + sizeof T <= a ->
  MemoryWrite T address value m a = m a.
Proof.
  intros Ha. unfold MemoryWrite. apply WriteBytes_other.
  rewrite Z2Nat.id by (pose proof (sizeof_pos T); lia). exact Ha.
Qed.

Lemma MemoryRead_MemoryWrite_disjoint (T U : CType) (a b value : Z) (m : MemoryBytes) :
  a + sizeof T <= b \/ b + sizeof U <= a ->
  MemoryRead T a (MemoryWrite U b value m) = MemoryRead T a m.
Proof.
  intros Hd. unfold MemoryRead. f_equal. apply ReadBytes_frame.
  intros x Hx. rewrite Z2Nat.id in Hx by (pose proof (sizeof_pos T); lia).
  apply MemoryWrite_other. lia.
Qed.

Lemma MemoryRead_cast (T : CType) (address : Z) (m : MemoryBytes) :
  cast T (MemoryRead T address m) = MemoryRead T address m.
Proof. apply cast_idem. Qed.

Lemma ReadRegister_cast (T : CType) (code : Z) (r31mode : Reg31Mode)
    (registers : RegisterFile) :
  cast T (ReadRegister T code r31mode registers) = ReadRegister T code r31mode registers.
Proof.
  unfold ReadRegister. destruct ((code =? 31) && is_zero_mode r31mode).
  - destruct T; reflexivity.
  - apply cast_idem.
Qed.

(** ** Atomic read-modify-write *)





Lemma MemoryWrite_congr (T U : CType) (address v w : Z) (m : MemoryBytes) :
  sizeof T = sizeof U ->
  v mod 2 ^ (8 * sizeof U) = w mod 2 ^ (8 * sizeof U) ->
  MemoryWrite T address v m = MemoryWrite U address w m.
Proof. intros Hs Hv. unfold MemoryWrite. now rewrite Hs, Hv. Qed.











Section Properties.
Context `{Collaborators}.

(** ** Integer division *)

(** C4.  SDIV and UDIV, 32-bit and 64-bit, with a zero divisor complete
    (no abort) and leave 0 in the destination register, whatever the
    dividend; SDIV of the most negative integer by -1 completes and leaves
    the most negative integer there, for both register sizes. *)
Theorem division_by_zero_and_overflow (instr : Instruction) (sim : Simulator) :
  let op := DataProcessing2SourceMask instr in
  let regs := registers_ sim in
  let rd := GetRd instr in
  let rn_w := ReadWRegister (GetRn instr) Reg31IsZeroRegister regs in
  let rm_w := ReadWRegister (GetRm instr) Reg31IsZeroRegister regs in
  let rn_x := ReadXRegister (GetRn instr) Reg31IsZeroRegister regs in
  let rm_x := ReadXRegister (GetRm instr) Reg31IsZeroRegister regs in
  let leaves (reg_size v : Z) :=
    exists sim',
      VisitDataProcessing2Source instr sim = Done sim' /\
      sim' = set_registers (WriteRegisterSized reg_size rd v Reg31IsZeroRegister) sim /\
      (rd <> 31 ->
       (if reg_size =? kWRegSize then ReadWRegister else ReadXRegister)
         rd Reg31IsZeroRegister (registers_ sim') = v) in
  (GetSixtyFourBits instr = false ->
     (In op [SDIV_w; UDIV_w] -> rm_w = 0 -> leaves kWRegSize 0) /\
     (op = SDIV_w -> rn_w = kWMinInt -> rm_w = -1 -> leaves kWRegSize kWMinInt)) /\
  (GetSixtyFourBits instr = true ->
     (In op [SDIV_x; UDIV_x] -> rm_x = 0 -> leaves kXRegSize 0) /\
     (op = SDIV_x -> rn_x = kXMinInt -> rm_x = -1 -> leaves kXRegSize kXMinInt)).
Proof.
  intros op regs rd rn_w rm_w rn_x rm_x leaves.
  assert (Hleaves : forall reg_size v,
            (reg_size = kWRegSize \/ reg_size = kXRegSize) ->
            (if reg_size =? kWRegSize then int32 v else int64 v) = v ->
            VisitDataProcessing2Source instr sim =
              Done (set_registers
                      (WriteRegisterSized reg_size rd v Reg31IsZeroRegister) sim) ->
            leaves reg_size v).
  { intros reg_size v _ Hv Hrun. eexists. split; [exact Hrun|]. split; [reflexivity|].
    intros Hrd. cbn [set_registers registers_].
    now rewrite ReadRegister_WriteRegisterSized. }
  split; intros Hsf; (split; [intros Hop Hrm | intros Hop Hrn Hrm]);
    apply Hleaves; auto; try reflexivity;
    unfold VisitDataProcessing2Source; rewrite Hsf; fold op regs.
  - destruct Hop as [<- | [<- | []]]; cbn [bind]; fold rn_w rm_w; rewrite Hrm.
    + destruct (rn_w =? kWMinInt); reflexivity.
    + reflexivity.
  - rewrite Hop; cbn [bind]; fold rn_w rm_w; rewrite Hrm, Hrn. reflexivity.
  - destruct Hop as [<- | [<- | []]]; cbn [bind]; fold rn_x rm_x; rewrite Hrm.
    + destruct (rn_x =? kXMinInt); reflexivity.
    + reflexivity.
  - rewrite Hop; cbn [bind]; fold rn_x rm_x; rewrite Hrm, Hrn. reflexivity.
Qed.

(** ** Guarded-branch state *)

Lemma GetBTypeFromInstruction_guard (instr : Instruction) (sim sim' : Simulator) :
  guard_pages_ sim' = guard_pages_ sim ->
  GetBTypeFromInstruction instr sim' = GetBTypeFromInstruction instr sim.
Proof. intros Hg. unfold GetBTypeFromInstruction, PcIsInGuardedPage. now rewrite Hg. Qed.

(** C8.  The branch type that an instruction hands to its target:
    [BranchAndLink] for BLR and its authenticated variants; for BR and its
    variants [BranchFromUnguardedOrToIP] when the branch register is 16 or
    17 or the PC is outside a guarded page, and [BranchFromGuardedNotToIP]
    otherwise; [DefaultBType] for every other instruction.  A register
    branch that completes stores this value as the next branch type. *)
Theorem next_btype_of_indirect_branch (instr : Instruction) (sim : Simulator) :
  let op := UnconditionalBranchToRegisterMask instr in
  let rn := GetRn instr in
  let next := GetBTypeFromInstruction instr sim in
  (In op [BLR; BLRAA; BLRAB; BLRAAZ; BLRABZ] -> next = BranchAndLink) /\
  (In op [BR; BRAA; BRAB; BRAAZ; BRABZ] ->
     (rn = 16 \/ rn = 17 \/ PcIsInGuardedPage sim = false ->
      next = BranchFromUnguardedOrToIP) /\
     (rn <> 16 -> rn <> 17 -> PcIsInGuardedPage sim = true ->
      next = BranchFromGuardedNotToIP)) /\
  (~ In op [BLR; BLRAA; BLRAB; BLRAAZ; BLRABZ; BR; BRAA; BRAB; BRAAZ; BRABZ] ->
     next = DefaultBType) /\
  (forall sim',
     VisitUnconditionalBranchToRegister instr sim = Done sim' ->
     next_btype_ sim' = next).
Proof.
  intros op rn next. subst next. unfold GetBTypeFromInstruction. fold op rn.
  split; [|split; [|split]].
  - intros Hop. cbn [In] in Hop.
    repeat (destruct Hop as [<- | Hop]; [reflexivity|]). contradiction.
  - intros Hop. split.
    + intros Hcase.
      assert (Hb : (rn =? 16) || (rn =? 17) || negb (PcIsInGuardedPage sim) = true).
      { destruct Hcase as [-> | [-> | ->]]; [reflexivity | reflexivity |].
        now rewrite orb_true_r. }
      cbn [In] in Hop.
      repeat (destruct Hop as [<- | Hop]; [now rewrite Hb|]). contradiction.
    + intros H16 H17 Hg.
      assert (Hb : (rn =? 16) || (rn =? 17) || negb (PcIsInGuardedPage sim) = false).
      { rewrite Hg. apply Z.eqb_neq in H16, H17. now rewrite H16, H17. }
      cbn [In] in Hop.
      repeat (destruct Hop as [<- | Hop]; [now rewrite Hb|]). contradiction.
  - intros Hop. cbn [In] in Hop.
    destruct op; try reflexivity; exfalso; apply Hop; intuition congruence.
  - intros sim' Hrun.
    change (next_btype_ sim' = GetBTypeFromInstruction instr sim).
    unfold VisitUnconditionalBranchToRegister, BranchOperands in Hrun.
    destruct (UnconditionalBranchToRegisterMask instr); cbn [bind] in Hrun;
      try discriminate;
      repeat match type of Hrun with
        | context [if ?c then Aborted _ else _] => destruct c; cbn [bind] in Hrun
        end;
      try discriminate;
      injection Hrun as <-; cbn [next_btype_ WriteNextBType];
      apply GetBTypeFromInstruction_guard; reflexivity.
Qed.

(** C5.  In a guarded page, BTI (no target) aborts exactly when the current
    branch type is not [DefaultBType], BTI c exactly when it is
    [BranchFromGuardedNotToIP], BTI j exactly when it is [BranchAndLink], and
    BTI jc never; outside a guarded page none of them aborts.  PACIASP and
    PACIBSP look at the current branch type in a guarded page too, and the
    set they accept is all four branch types, so this check never aborts
    them.  An accepted BTI leaves the state as it is. *)
Theorem branch_target_checks (instr : Instruction) (sim : Simulator) :
  let guarded := PcIsInGuardedPage sim in
  let btype := ReadBType sim in
  let run := VisitSystem instr sim in
  (SystemMask instr = IsSystemHint ->
     (GetImmHint instr = BTI ->
        (is_aborted run = true <-> guarded = true /\ btype <> DefaultBType) /\
        (is_aborted run = false -> run = Done sim)) /\
     (GetImmHint instr = BTI_c ->
        (is_aborted run = true <-> guarded = true /\ btype = BranchFromGuardedNotToIP) /\
        (is_aborted run = false -> run = Done sim)) /\
     (GetImmHint instr = BTI_j ->
        (is_aborted run = true <-> guarded = true /\ btype = BranchAndLink) /\
        (is_aborted run = false -> run = Done sim)) /\
     (GetImmHint instr = BTI_jc -> run = Done sim)) /\
  (forall m, SystemMask instr = IsSystemPAuth (PACI m) -> m = ASP \/ m = BSP ->
     CheckBTypeForPAuth (PACI m) sim = Done sim /\ is_aborted run = false).
Proof.
  intros guarded btype run. subst guarded btype run.
  unfold VisitSystem, PcIsInGuardedPage, ReadBType.
  split.
  - intros ->.
    split; [|split; [|split]]; intros ->;
      destruct (guard_pages_ sim), (btype_ sim); cbn [andb negb is_aborted];
      try reflexivity;
      (split; [split; [intros Ha; try discriminate Ha; split; congruence
                      | intros [Hg Hb]; congruence]
              | intros Ha; try discriminate Ha; reflexivity]).
  - intros m -> Hm.
    assert (Hcheck : CheckBTypeForPAuth (PACI m) sim = Done sim).
    { unfold CheckBTypeForPAuth, PcIsInGuardedPage, ReadBType.
      destruct (guard_pages_ sim); [|reflexivity].
      destruct Hm as [-> | ->]; destruct (btype_ sim); reflexivity. }
    split; [exact Hcheck|]. rewrite Hcheck. reflexivity.
Qed.

(** ** Compare-and-swap *)

Lemma fence_if_trace (b : bool) (sim : Simulator) :
  trace_ (fence_if b sim) = fence_events b ++ trace_ sim.
Proof. destruct b; reflexivity. Qed.

Lemma CompareAndSwapHelper_spec (T : CType) (instr : Instruction) (sim : Simulator) :
  let rs := GetRs instr in
  let rt := GetRt instr in
  let address := ReadRegister uint64_t (GetRn instr) Reg31IsStackPointer (registers_ sim) in
  let comparevalue := ReadRegister T rs Reg31IsZeroRegister (registers_ sim) in
  let newvalue := ReadRegister T rt Reg31IsZeroRegister (registers_ sim) in
  let data := MemoryRead T address (memory_ sim) in
  AtomicAccessIsValid (GetRn instr) address (sizeof T) = true ->
  exists sim',
    CompareAndSwapHelper T instr sim = Done sim' /\
    memory_ sim' =
      (if data =? comparevalue
       then MemoryWrite T address newvalue (memory_ sim) else memory_ sim) /\
    trace_ sim' =
      (if data =? comparevalue
       then EvWrite address (sizeof T) (newvalue mod 2 ^ (8 * sizeof T))
              :: fence_events (ExtractBit instr 15 =? 1)
       else [])
      ++ fence_events (ExtractBit instr 22 =? 1)
      ++ EvRead address (sizeof T) :: trace_ sim /\
    registers_ sim' = WriteRegister T rs data Reg31IsZeroRegister (registers_ sim) /\
    reservation_ (local_monitor_ sim') = None.
Proof.
  intros rs rt address comparevalue newvalue data Hvalid.
  unfold CompareAndSwapHelper, CheckIsValidUnalignedAtomicAccess.
  fold address. rewrite Hvalid. cbn [bind].
  unfold Read. cbn [registers_ memory_ set_local_monitor log_event].
  fold rs rt comparevalue newvalue data.
  eexists. split; [reflexivity|].
  destruct (data =? comparevalue);
    destruct (ExtractBit instr 15 =? 1), (ExtractBit instr 22 =? 1);
    repeat split; reflexivity.
Qed.

(** C3.  A compare-and-swap of any element size reads the element at the
    address in [rn]; it writes the value of [rt] there iff the value read
    equals the value of [rs] (the trace gets a write event in that case and
    none otherwise, and memory is otherwise untouched); in either case [rs]
    receives the value read and the local monitor loses its reservation. *)
Theorem CompareAndSwap_spec (T : CType) (instr : Instruction) (sim : Simulator) :
  let rs := GetRs instr in
  let rt := GetRt instr in
  let address := ReadRegister uint64_t (GetRn instr) Reg31IsStackPointer (registers_ sim) in
  let comparevalue := ReadRegister T rs Reg31IsZeroRegister (registers_ sim) in
  let newvalue := ReadRegister T rt Reg31IsZeroRegister (registers_ sim) in
  let data := MemoryRead T address (memory_ sim) in
  CompareAndSwapElementType (LoadStoreExclusiveMask instr) = Some T ->
  AtomicAccessIsValid (GetRn instr) address (sizeof T) = true ->
  exists sim',
    VisitLoadStoreExclusive instr sim = Done sim' /\
    (* memory: written iff the comparison succeeds *)
    (data = comparevalue ->
       memory_ sim' = MemoryWrite T address newvalue (memory_ sim) /\
       MemoryRead T address (memory_ sim') = newvalue) /\
    (data <> comparevalue -> memory_ sim' = memory_ sim) /\
    ((exists events,
        trace_ sim' =
          EvWrite address (sizeof T) (newvalue mod 2 ^ (8 * sizeof T)) :: events)
     <-> data = comparevalue) /\
    (* rs receives the value read *)
    registers_ sim' = WriteRegister T rs data Reg31IsZeroRegister (registers_ sim) /\
    (rs <> 31 -> ReadRegister T rs Reg31IsZeroRegister (registers_ sim') = data) /\
    (* the local monitor is cleared *)
    reservation_ (local_monitor_ sim') = None.
Proof.
  intros rs rt address comparevalue newvalue data Hop Hvalid.
  destruct (CompareAndSwapHelper_spec T instr sim Hvalid)
    as (sim' & Hrun & Hmem & Htrace & Hregs & Hmon).
  fold rs rt address comparevalue newvalue data in Hmem, Htrace, Hregs.
  exists sim'.
  split.
  { unfold VisitLoadStoreExclusive.
    destruct (LoadStoreExclusiveMask instr); try discriminate Hop;
      injection Hop as <-; exact Hrun. }
  split; [|split; [|split; [|split; [|split]]]].
  - intros Heq. rewrite Hmem.
    replace (data =? comparevalue) with true by (symmetry; now apply Z.eqb_eq).
    split; [reflexivity|]. rewrite MemoryRead_MemoryWrite.
    apply ReadRegister_cast.
  - intros Hne. rewrite Hmem.
    now replace (data =? comparevalue) with false by (symmetry; now apply Z.eqb_neq).
  - rewrite Htrace. destruct (Z.eqb_spec data comparevalue) as [Heq|Hne].
    + split; [intros _; exact Heq|]. intros _. eexists. reflexivity.
    + split; [|contradiction]. intros [events Hev]. exfalso.
      destruct (ExtractBit instr 22 =? 1); discriminate Hev.
  - exact Hregs.
  - intros Hrs. rewrite Hregs, ReadRegister_WriteRegister.
    + apply MemoryRead_cast.
    + apply andb_false_iff. left. now apply Z.eqb_neq.
  - exact Hmon.
Qed.

Lemma CompareAndSwapPairHelper_spec (T : CType) (instr : Instruction) (sim : Simulator) :
  let rs := GetRs instr in
  let rt := GetRt instr in
  let regs := registers_ sim in
  let address := ReadRegister uint64_t (GetRn instr) Reg31IsStackPointer regs in
  let address2 := uint64 (address + sizeof T) in
  let same :=
    (MemoryRead T address (memory_ sim) =? ReadRegister T (rs + 1) Reg31IsZeroRegister regs)
    && (MemoryRead T address2 (memory_ sim) =? ReadRegister T rs Reg31IsZeroRegister regs) in
  AtomicAccessIsValid (GetRn instr) address (sizeof T * 2) = true ->
  exists sim',
    CompareAndSwapPairHelper T instr sim = Done sim' /\
    memory_ sim' =
      (if same
       then MemoryWrite T address2 (ReadRegister T rt Reg31IsZeroRegister regs)
              (MemoryWrite T address (ReadRegister T (rt + 1) Reg31IsZeroRegister regs)
                 (memory_ sim))
       else memory_ sim) /\
    registers_ sim' =
      WriteRegister T rs (MemoryRead T address2 (memory_ sim)) Reg31IsZeroRegister
        (WriteRegister T (rs + 1) (MemoryRead T address (memory_ sim))
           Reg31IsZeroRegister regs) /\
    reservation_ (local_monitor_ sim') = None.
Proof.
  intros rs rt regs address address2 same Hvalid.
  unfold CompareAndSwapPairHelper, CheckIsValidUnalignedAtomicAccess.
  fold regs address. rewrite Hvalid. cbn [bind]. fold address2.
  unfold Read. cbn [registers_ memory_ set_local_monitor log_event].
  fold regs rs rt. fold same.
  eexists. split; [reflexivity|].
  destruct same, (ExtractBit instr 15 =? 1), (ExtractBit instr 22 =? 1);
    repeat split; reflexivity.
Qed.

(** C10.  A compare-and-swap pair with element size [s] pairs the
    higher-numbered register with the lower address.  The element read at
    the base address is compared with register [rs + 1] and returned in
    [rs + 1]; the element read at [address + s] is compared with [rs] and
    returned in [rs]; when both match, [rt + 1] is written at the base
    address and [rt] at [address + s], and otherwise memory is left alone.
    The local monitor loses its reservation either way. *)
Theorem CompareAndSwapPair_spec (T : CType) (instr : Instruction) (sim : Simulator) :
  let rs := GetRs instr in
  let rt := GetRt instr in
  let regs := registers_ sim in
  let address := ReadRegister uint64_t (GetRn instr) Reg31IsStackPointer regs in
  let address2 := uint64 (address + sizeof T) in
  let compare_at_base := ReadRegister T (rs + 1) Reg31IsZeroRegister regs in
  let compare_at_next := ReadRegister T rs Reg31IsZeroRegister regs in
  let new_at_base := ReadRegister T (rt + 1) Reg31IsZeroRegister regs in
  let new_at_next := ReadRegister T rt Reg31IsZeroRegister regs in
  let data_at_base := MemoryRead T address (memory_ sim) in
  let data_at_next := MemoryRead T address2 (memory_ sim) in
  CompareAndSwapPairElementType (LoadStoreExclusiveMask instr) = Some T ->
  AtomicAccessIsValid (GetRn instr) address (sizeof T * 2) = true ->
  exists sim',
    VisitLoadStoreExclusive instr sim = Done sim' /\
    (data_at_base = compare_at_base /\ data_at_next = compare_at_next ->
       memory_ sim' =
         MemoryWrite T address2 new_at_next
           (MemoryWrite T address new_at_base (memory_ sim)) /\
       (address + sizeof T < 2 ^ 64 ->
        MemoryRead T address (memory_ sim') = new_at_base /\
        MemoryRead T address2 (memory_ sim') = new_at_next)) /\
    (~ (data_at_base = compare_at_base /\ data_at_next = compare_at_next) ->
       memory_ sim' = memory_ sim) /\
    registers_ sim' =
      WriteRegister T rs data_at_next Reg31IsZeroRegister
        (WriteRegister T (rs + 1) data_at_base Reg31IsZeroRegister regs) /\
    (rs + 1 <> 31 ->
     ReadRegister T (rs + 1) Reg31IsZeroRegister (registers_ sim') = data_at_base) /\
    (rs <> 31 ->
     ReadRegister T rs Reg31IsZeroRegister (registers_ sim') = data_at_next) /\
    reservation_ (local_monitor_ sim') = None.
Proof.
  intros rs rt regs address address2 compare_at_base compare_at_next
    new_at_base new_at_next data_at_base data_at_next Hop Hvalid.
  destruct (CompareAndSwapPairHelper_spec T instr sim Hvalid)
    as (sim' & Hrun & Hmem & Hregs & Hmon).
  fold rs rt regs address address2 in Hmem, Hregs.
  fold compare_at_base compare_at_next new_at_base new_at_next
    data_at_base data_at_next in Hmem, Hregs.
  exists sim'.
  split.
  { unfold VisitLoadStoreExclusive.
    destruct (LoadStoreExclusiveMask instr); try discriminate Hop;
      injection Hop as <-; exact Hrun. }
  assert (Hnz : forall code, code <> 31 ->
            (code =? 31) && is_zero_mode Reg31IsZeroRegister = false).
  { intros code Hc. apply andb_false_iff. left. now apply Z.eqb_neq. }
  split; [|split; [|split; [|split; [|split]]]].
  - intros [Hb Hn]. rewrite Hmem.
    replace (data_at_base =? compare_at_base) with true
      by (symmetry; now apply Z.eqb_eq).
    replace (data_at_next =? compare_at_next) with true
      by (symmetry; now apply Z.eqb_eq).
    cbn [andb]. split; [reflexivity|]. intros Hwrap.
    assert (Ha2 : address2 = address + sizeof T).
    { subst address2. unfold uint64. apply Z.mod_small.
      assert (0 <= address).
      { subst address. unfold ReadRegister.
        destruct ((GetRn instr =? 31) && is_zero_mode Reg31IsStackPointer); [lia|].
        unfold cast; cbn [is_signed sizeof].
        apply Z.mod_pos_bound. reflexivity. }
      pose proof (sizeof_pos T). lia. }
    split.
    + rewrite MemoryRead_MemoryWrite_disjoint by lia.
      rewrite MemoryRead_MemoryWrite. apply ReadRegister_cast.
    + rewrite MemoryRead_MemoryWrite. apply ReadRegister_cast.
  - intros Hno. rewrite Hmem.
    destruct (Z.eqb_spec data_at_base compare_at_base) as [Hb|Hb];
      destruct (Z.eqb_spec data_at_next compare_at_next) as [Hn|Hn];
      cbn [andb]; try reflexivity.
    exfalso. apply Hno. now split.
  - exact Hregs.
  - intros Hrs. rewrite Hregs.
    rewrite ReadRegister_WriteRegister_other by lia.
    rewrite ReadRegister_WriteRegister by (apply Hnz; assumption).
    apply MemoryRead_cast.
  - intros Hrs. rewrite Hregs.
    rewrite ReadRegister_WriteRegister by (apply Hnz; assumption).
    apply MemoryRead_cast.
  - exact Hmon.
Qed.




(** ** Exclusive accesses *)

Lemma MemoryWrite_ReadRegister (T S : CType) (address code : Z) (r31mode : Reg31Mode)
    (regs : RegisterFile) (m : MemoryBytes) :
  sizeof T <= sizeof S ->
  MemoryWrite T address (ReadRegister S code r31mode regs) m =
  MemoryWrite T address (ReadRegister T code r31mode regs) m.
Proof.
  intros Hs. unfold ReadRegister.
  destruct ((code =? 31) && is_zero_mode r31mode); [reflexivity|].
  apply MemoryWrite_congr; [reflexivity|].
  rewrite cast_mod.
  rewrite <- (mod_pow2_mod_pow2 (cast S (regs code)) (8 * sizeof T) (8 * sizeof S))
    by (pose proof (sizeof_pos T); lia).
  rewrite cast_mod. apply mod_pow2_mod_pow2. pose proof (sizeof_pos T). lia.
Qed.

Lemma ReadRegister_mod (T S : CType) (code : Z) (r31mode : Reg31Mode)
    (regs : RegisterFile) :
  is_signed T = false -> sizeof T <= sizeof S ->
  ReadRegister S code r31mode regs mod 2 ^ (8 * sizeof T) =
  ReadRegister T code r31mode regs.
Proof.
  intros Hu Hs. unfold ReadRegister.
  destruct ((code =? 31) && is_zero_mode r31mode).
  - apply Z.mod_0_l. apply Z.pow_nonzero; pose proof (sizeof_pos T); lia.
  - unfold cast at 2. rewrite Hu.
    rewrite <- (mod_pow2_mod_pow2 (cast S (regs code)) (8 * sizeof T) (8 * sizeof S))
      by (pose proof (sizeof_pos T); lia).
    rewrite cast_mod. apply mod_pow2_mod_pow2. pose proof (sizeof_pos T). lia.
Qed.

Lemma StoreExclusive_run (T : CType) (pair : bool) (instr : Instruction) (sim : Simulator) :
  let rs := GetRs instr in
  let rt := GetRt instr in
  let rt2 := GetRt2 instr in
  let regs := registers_ sim in
  let element_size := Z.shiftl 1 (GetLdStXSizeLog2 instr) in
  let access_size := if GetLdStXPair instr then element_size * 2 else element_size in
  let address := ReadRegister uint64_t (GetRn instr) Reg31IsStackPointer regs in
  let address2 := uint64 (address + element_size) in
  let local_ok := LocalIsExclusive address access_size (local_monitor_ sim) in
  let global := GlobalIsExclusive address access_size (global_monitor_ sim) in
  let do_store := local_ok && fst global in
  let regs' := WriteWRegister rs (if do_store then 0 else 1) Reg31IsZeroRegister regs in
  let value code := ReadRegister T code Reg31IsZeroRegister regs' in
  StoreExclusiveElementType (LoadStoreExclusiveMask instr) = Some (T, pair) ->
  GetLdStXLoad instr = false ->
  GetLdStXNotExclusive instr = false ->
  AtomicAccessIsValid (GetRn instr) address access_size = true ->
  exists sim',
    VisitLoadStoreExclusive instr sim = Done sim' /\
    registers_ sim' = regs' /\
    memory_ sim' =
      (if do_store then
         let m := MemoryWrite T address (value rt) (memory_ sim) in
         if pair then MemoryWrite T address2 (value rt2) m else m
       else memory_ sim) /\
    trace_ sim' =
      (if do_store then
         (if pair then [EvWrite address2 (sizeof T) (value rt2)] else [])
         ++ [EvWrite address (sizeof T) (value rt)]
       else [])
      ++ fence_events (GetLdStXAcquireRelease instr) ++ trace_ sim /\
    reservation_ (local_monitor_ sim') = None /\
    global_monitor_ sim' = (if local_ok then snd global else global_monitor_ sim).
Proof.
  intros rs rt rt2 regs element_size access_size address address2 local_ok global
    do_store regs' value Hop Hload Hexcl Hvalid.
  destruct (LoadStoreExclusiveMask instr) eqn:Hmask; try discriminate Hop.
  all: injection Hop as <- <-.
  all: unfold VisitLoadStoreExclusive, CheckIsValidUnalignedAtomicAccess;
    rewrite Hmask, Hload, Hexcl; cbn [negb orb];
    fold regs element_size access_size address; rewrite Hvalid;
    cbn [bind]; fold rs rt rt2.
  all: (destruct (GetLdStXAcquireRelease instr);
     cbn [fence_if sync_synchronize log_event local_monitor_ global_monitor_];
     fold local_ok global;
     subst do_store; destruct local_ok; cbn [andb] in regs' |- *;
     try (destruct global as [pass g] eqn:Hg; cbn [fst snd] in regs' |- *; destruct pass);
     cbn [StoreExclusiveSwitch];
     eexists; (split; [reflexivity|])).
  all: (unfold Write; cbn [registers_ memory_ trace_ local_monitor_ global_monitor_
                        set_registers set_local_monitor set_global_monitor
                        log_event LocalClear reservation_];
     subst value; cbv beta;
     cbn [fence_events app];
     (split; [|split; [|split; [|split]]])).
  all: (unfold ReadWRegister, ReadXRegister;
     rewrite ?(MemoryWrite_ReadRegister _ int32_t),
       ?(MemoryWrite_ReadRegister _ int64_t),
       ?(ReadRegister_mod _ int32_t),
       ?(ReadRegister_mod _ int64_t) by (reflexivity || discriminate)).
  all: reflexivity.
Qed.

Lemma LoadExclusive_run (instr : Instruction) (sim : Simulator) :
  let regs := registers_ sim in
  let element_size := Z.shiftl 1 (GetLdStXSizeLog2 instr) in
  let access_size := if GetLdStXPair instr then element_size * 2 else element_size in
  let address := ReadRegister uint64_t (GetRn instr) Reg31IsStackPointer regs in
  IsLoadExclusive (LoadStoreExclusiveMask instr) = true ->
  GetLdStXLoad instr = true ->
  GetLdStXNotExclusive instr = false ->
  AtomicAccessIsValid (GetRn instr) address access_size = true ->
  exists sim',
    VisitLoadStoreExclusive instr sim = Done sim' /\
    reservation_ (local_monitor_ sim') = Some (address, access_size) /\
    memory_ sim' = memory_ sim.
Proof.
  intros regs element_size access_size address Hop Hload Hexcl Hvalid.
  destruct (LoadStoreExclusiveMask instr) eqn:Hmask; try discriminate Hop.
  all: unfold VisitLoadStoreExclusive, CheckIsValidUnalignedAtomicAccess;
    rewrite Hmask, Hload, Hexcl; cbn [negb orb];
    fold regs element_size access_size address; rewrite Hvalid;
    cbn [bind LoadExclusiveSwitch];
    destruct (GetLdStXAcquireRelease instr);
    eexists; (split; [reflexivity|]); split; reflexivity.
Qed.

(** C2.  An exclusive store is performed iff the local monitor and the
    global monitor both hold the reservation (address, access size) exclusive:
    then the register value goes to memory and the status register [rs] gets
    0; otherwise memory is left alone, no write happens and [rs] gets 1.
    Either way the local monitor ends up without a reservation, so a second
    exclusive store that follows without a new exclusive load fails.  An
    exclusive load marks the local monitor with (address, access size), which
    the local monitor then holds exclusive. *)
Theorem exclusive_store_and_load (instr : Instruction) (sim : Simulator) :
  let rs := GetRs instr in
  let rt := GetRt instr in
  let rt2 := GetRt2 instr in
  let regs := registers_ sim in
  let element_size := Z.shiftl 1 (GetLdStXSizeLog2 instr) in
  let access_size := if GetLdStXPair instr then element_size * 2 else element_size in
  let address := ReadRegister uint64_t (GetRn instr) Reg31IsStackPointer regs in
  let address2 := uint64 (address + element_size) in
  let do_store :=
    LocalIsExclusive address access_size (local_monitor_ sim)
    && fst (GlobalIsExclusive address access_size (global_monitor_ sim)) in
  GetLdStXNotExclusive instr = false ->
  AtomicAccessIsValid (GetRn instr) address access_size = true ->
  (forall T pair,
     StoreExclusiveElementType (LoadStoreExclusiveMask instr) = Some (T, pair) ->
     GetLdStXLoad instr = false ->
     exists sim',
       VisitLoadStoreExclusive instr sim = Done sim' /\
       (* the status register *)
       registers_ sim' =
         WriteWRegister rs (if do_store then 0 else 1) Reg31IsZeroRegister regs /\
       (rs <> 31 ->
        ReadWRegister rs Reg31IsZeroRegister (registers_ sim') =
        (if do_store then 0 else 1)) /\
       (* the store, performed iff [do_store] *)
       (let value code := ReadRegister T code Reg31IsZeroRegister (registers_ sim') in
        memory_ sim' =
          (if do_store then
             let m := MemoryWrite T address (value rt) (memory_ sim) in
             if pair then MemoryWrite T address2 (value rt2) m else m
           else memory_ sim) /\
        trace_ sim' =
          (if do_store then
             (if pair then [EvWrite address2 (sizeof T) (value rt2)] else [])
             ++ [EvWrite address (sizeof T) (value rt)]
           else [])
          ++ fence_events (GetLdStXAcquireRelease instr) ++ trace_ sim) /\
       (* the local monitor is cleared, so the next exclusive store fails *)
       reservation_ (local_monitor_ sim') = None /\
       (forall instr2 T2 pair2,
          let element_size2 := Z.shiftl 1 (GetLdStXSizeLog2 instr2) in
          let access_size2 :=
            if GetLdStXPair instr2 then element_size2 * 2 else element_size2 in
          let address' :=
            ReadRegister uint64_t (GetRn instr2) Reg31IsStackPointer (registers_ sim') in
          StoreExclusiveElementType (LoadStoreExclusiveMask instr2) = Some (T2, pair2) ->
          GetLdStXLoad instr2 = false ->
          GetLdStXNotExclusive instr2 = false ->
          AtomicAccessIsValid (GetRn instr2) address' access_size2 = true ->
          exists sim'',
            VisitLoadStoreExclusive instr2 sim' = Done sim'' /\
            registers_ sim'' =
              WriteWRegister (GetRs instr2) 1 Reg31IsZeroRegister (registers_ sim') /\
            memory_ sim'' = memory_ sim' /\
            trace_ sim'' = fence_events (GetLdStXAcquireRelease instr2) ++ trace_ sim')) /\
  (IsLoadExclusive (LoadStoreExclusiveMask instr) = true ->
   GetLdStXLoad instr = true ->
   exists sim',
     VisitLoadStoreExclusive instr sim = Done sim' /\
     reservation_ (local_monitor_ sim') = Some (address, access_size) /\
     LocalIsExclusive address access_size (local_monitor_ sim') = true).
Proof.
  intros rs rt rt2 regs element_size access_size address address2 do_store Hexcl Hvalid.
  split.
  - intros T pair Hop Hload.
    destruct (StoreExclusive_run T pair instr sim Hop Hload Hexcl Hvalid)
      as (sim' & Hrun & Hregs & Hmem & Htrace & Hmon & _).
    fold rs rt rt2 regs element_size access_size address address2 in Hregs, Hmem, Htrace.
    fold do_store in Hregs, Hmem, Htrace.
    exists sim'. split; [exact Hrun|]. split; [exact Hregs|].
    split.
    { intros Hrs. rewrite Hregs. unfold ReadWRegister, WriteWRegister.
      rewrite ReadRegister_WriteRegister
        by (apply andb_false_iff; left; now apply Z.eqb_neq).
      destruct do_store; reflexivity. }
    split.
    { cbv zeta. rewrite Hregs. split; [exact Hmem | exact Htrace]. }
    split; [exact Hmon|].
    intros instr2 T2 pair2 element_size2 access_size2 address' Hop2 Hload2 Hexcl2 Hvalid2.
    destruct (StoreExclusive_run T2 pair2 instr2 sim' Hop2 Hload2 Hexcl2 Hvalid2)
      as (sim'' & Hrun2 & Hregs2 & Hmem2 & Htrace2 & _).
    assert (Hfail : LocalIsExclusive address' access_size2 (local_monitor_ sim') = false).
    { unfold LocalIsExclusive. now rewrite Hmon. }
    fold element_size2 access_size2 address' in Hregs2, Hmem2, Htrace2.
    rewrite Hfail in Hregs2, Hmem2, Htrace2. cbn [andb app] in Hregs2, Hmem2, Htrace2.
    exists sim''. split; [exact Hrun2|]. split; [exact Hregs2|].
    split; [exact Hmem2 | exact Htrace2].
  - intros Hop Hload.
    destruct (LoadExclusive_run instr sim Hop Hload Hexcl Hvalid)
      as (sim' & Hrun & Hmon & _).
    fold regs element_size access_size address in Hmon.
    exists sim'. split; [exact Hrun|]. split; [exact Hmon|].
    unfold LocalIsExclusive. rewrite Hmon. now rewrite !Z.eqb_refl.
Qed.

(** ** Pointer authentication *)









Lemma uint64_int64 (x : Z) : uint64 (int64 x) = uint64 x.
Proof. unfold int64, uint64. apply to_signed_mod. lia. Qed.


End Properties.

(** ** Counterexamples *)

(** C5 as stated fails for PACIASP and PACIBSP: in a guarded page there is
    no branch type with which they abort, not even
    [BranchFromGuardedNotToIP], with which BTI c aborts. *)
Lemma PACI_accepts_every_BType :
  ~ (exists m btype,
       (m = ASP \/ m = BSP) /\
       is_aborted (VisitSystem (ExamplePACI m) (ExampleGuarded btype)) = true).
Proof.
  intros (m & btype & [-> | ->] & Ha); destruct btype; vm_compute in Ha; discriminate Ha.
Qed.


(** ** Subtraction and comparison through AddWithCarry *)

Lemma lnot_mod_pow2 (x n : Z) :
  0 <= n -> Z.lnot x mod 2 ^ n = 2 ^ n - 1 - x mod 2 ^ n.
Proof.
  intros Hn.
  assert (Hp : 0 < 2 ^ n) by (apply Z.pow_pos_nonneg; lia).
  pose proof (Z.mod_pos_bound x (2 ^ n) Hp) as Hb.
  pose proof (Z.div_mod x (2 ^ n) ltac:(lia)) as Hd.
  unfold Z.lnot.
  symmetry. apply Z.mod_unique with (q := - (x / 2 ^ n) - 1); [left; lia|].
  replace (Z.pred (- x)) with (- x - 1) by lia. nia.
Qed.

Lemma uint64_mod_pow2 (x n : Z) :
  0 <= n <= 64 -> uint64 x mod 2 ^ n = x mod 2 ^ n.
Proof.
  intros Hn. unfold uint64. apply Z.mod_mod_divide.
  exists (2 ^ (64 - n)). rewrite <- Z.pow_add_r by lia. f_equal. lia.
Qed.

(** The flags that [AddWithCarry] writes, read back field by field. *)
Lemma AddWithCarry_flags (reg_size left right carry_in : Z) (nzcv : SimSystemRegister) :
  reg_size = 32 \/ reg_size = 64 ->
  carry_in = 0 \/ carry_in = 1 ->
  let l := left mod 2 ^ reg_size in
  let r := right mod 2 ^ reg_size in
  let sign x := Z.testbit x (reg_size - 1) in
  let result := (left + right + carry_in) mod 2 ^ reg_size in
  let nzcv' := snd (AddWithCarry reg_size true left right carry_in nzcv) in
  GetN nzcv' = Z.b2z (sign result) /\
  GetZ nzcv' = Z.b2z (result =? 0) /\
  GetC nzcv' = Z.b2z (2 ^ reg_size - 1 <? l + r + carry_in) /\
  GetV nzcv' =
    Z.b2z (Bool.eqb (sign l) (sign r) && negb (Bool.eqb (sign result) (sign l))).
Proof.
  intros Hs Hc l r sign result nzcv'.
  assert (Hres : fst (AddWithCarry reg_size true left right carry_in nzcv) = result)
    by (apply AddWithCarry_result; assumption).
  revert Hres. subst nzcv'. unfold AddWithCarry. cbn [fst snd].
  set (reg_mask := if reg_size =? kWRegSize then kWRegMask else kXRegMask) in *.
  set (sign_mask := if reg_size =? kWRegSize then kWSignMask else kXSignMask) in *.
  set (max_uint := if reg_size =? kWRegSize then kWMaxUInt else kXMaxUInt) in *.
  assert (Hl : Z.land left reg_mask = l).
  { subst reg_mask l. destruct Hs as [-> | ->];
      [apply land_kWRegMask | apply land_kXRegMask]. }
  assert (Hr : Z.land right reg_mask = r).
  { subst reg_mask r. destruct Hs as [-> | ->];
      [apply land_kWRegMask | apply land_kXRegMask]. }
  assert (Hmax : max_uint = 2 ^ reg_size - 1).
  { subst max_uint. destruct Hs as [-> | ->]; reflexivity. }
  assert (Hsm : sign_mask = 2 ^ (reg_size - 1)).
  { subst sign_mask. destruct Hs as [-> | ->]; reflexivity. }
  assert (Hpow : 2 ^ reg_size <= 2 ^ 64 /\ 2 <= 2 ^ reg_size).
  { destruct Hs as [-> | ->]; lia. }
  assert (Hlb : 0 <= l < 2 ^ reg_size) by (apply Z.mod_pos_bound; lia).
  assert (Hrb : 0 <= r < 2 ^ reg_size) by (apply Z.mod_pos_bound; lia).
  rewrite Hl, Hr. intros ->.
  set (Nb := CalcNFlag result reg_size).
  set (Zb := CalcZFlag result).
  set (Cb := if (l >? uint64 (max_uint - carry_in))
                  || (uint64 (uint64 (max_uint - carry_in) - l) <? r)
             then 1 else 0).
  set (Vb := if (Z.land l sign_mask =? Z.land r sign_mask)
                  && negb (Z.land l sign_mask =? Z.land result sign_mask)
             then 1 else 0).
  assert (HNb : Nb = Z.b2z (sign result)).
  { subst Nb sign. unfold CalcNFlag. apply land_1_testbit. lia. }
  assert (HZb : Zb = Z.b2z (result =? 0)).
  { subst Zb. unfold CalcZFlag. now destruct (result =? 0). }
  assert (HCb : Cb = Z.b2z (2 ^ reg_size - 1 <? l + r + carry_in)).
  { subst Cb. rewrite Hmax. unfold uint64.
    rewrite (Z.mod_small (2 ^ reg_size - 1 - carry_in)) by lia.
    destruct (Z.gtb_spec l (2 ^ reg_size - 1 - carry_in)) as [Hgt|Hle]; simpl.
    - symmetry. replace (2 ^ reg_size - 1 <? l + r + carry_in) with true;
        [reflexivity | symmetry; apply Z.ltb_lt; lia].
    - rewrite (Z.mod_small (2 ^ reg_size - 1 - carry_in - l)) by lia.
      destruct (Z.ltb_spec (2 ^ reg_size - 1 - carry_in - l) r);
        destruct (Z.ltb_spec (2 ^ reg_size - 1) (l + r + carry_in));
        simpl; lia. }
  assert (HVb : Vb =
    Z.b2z (Bool.eqb (sign l) (sign r) && negb (Bool.eqb (sign result) (sign l)))).
  { subst Vb sign. cbv beta. rewrite Hsm, !land_pow2 by lia.
    assert (Hp : 0 < 2 ^ (reg_size - 1)) by (apply Z.pow_pos_nonneg; lia).
    generalize dependent (2 ^ (reg_size - 1)). intros p _ Hp.
    generalize (Z.testbit l (reg_size - 1)) (Z.testbit r (reg_size - 1))
      (Z.testbit result (reg_size - 1)).
    intros [|] [|] [|]; cbn [Bool.eqb negb andb Z.b2z];
      repeat match goal with
        | |- context [?a =? ?b] => destruct (Z.eqb_spec a b); try lia
        end; reflexivity. }
  assert (Nb01 : Nb = 0 \/ Nb = 1) by (rewrite HNb; destruct (sign result); auto).
  assert (Zb01 : Zb = 0 \/ Zb = 1) by (rewrite HZb; destruct (result =? 0); auto).
  assert (Cb01 : Cb = 0 \/ Cb = 1).
  { rewrite HCb. destruct (2 ^ reg_size - 1 <? l + r + carry_in); auto. }
  assert (Vb01 : Vb = 0 \/ Vb = 1).
  { rewrite HVb.
    destruct (Bool.eqb (sign l) (sign r) && negb (Bool.eqb (sign result) (sign l))); auto. }
  rewrite <- HNb, <- HZb, <- HCb, <- HVb.
  unfold GetN, GetZ, GetC, GetV, SetN, SetZ, SetC, SetV,
    N_offset, Z_offset, C_offset, V_offset.
  split; [|split; [|split]].
  - rewrite (ExtractBits_SetBits_other 28 31), (ExtractBits_SetBits_other 29 31),
      (ExtractBits_SetBits_other 30 31) by (assumption || lia).
    apply ExtractBits_SetBits_same; [lia | assumption].
  - rewrite (ExtractBits_SetBits_other 28 30), (ExtractBits_SetBits_other 29 30)
      by (assumption || lia).
    apply ExtractBits_SetBits_same; [lia | assumption].
  - rewrite (ExtractBits_SetBits_other 28 29) by (assumption || lia).
    apply ExtractBits_SetBits_same; [lia | assumption].
  - apply ExtractBits_SetBits_same; [lia | assumption].
Qed.

(** The flags of a subtraction, as relations between the operands: with
    [left + ~right + 1], Z tells equality, C the absence of a borrow, and N
    and V differ exactly when [left] is below [right] as signed values. *)
Lemma subtract_flags (reg_size left right : Z) (nzcv : SimSystemRegister) :
  reg_size = 32 \/ reg_size = 64 ->
  let l := left mod 2 ^ reg_size in
  let r := right mod 2 ^ reg_size in
  let nzcv' := snd (AddWithCarry reg_size true left (Z.lnot right) 1 nzcv) in
  GetZ nzcv' = Z.b2z (l =? r) /\
  GetC nzcv' = Z.b2z (r <=? l) /\
  (GetN nzcv' = 0 \/ GetN nzcv' = 1) /\
  (GetV nzcv' = 0 \/ GetV nzcv' = 1) /\
  negb (GetN nzcv' =? GetV nzcv') =
    (to_signed reg_size left <? to_signed reg_size right) /\
  GetV nzcv' =
    Z.b2z (negb ((- 2 ^ (reg_size - 1) <=? to_signed reg_size left - to_signed reg_size right)
                 && (to_signed reg_size left - to_signed reg_size right <? 2 ^ (reg_size - 1)))).
Proof.
  intros Hs l r nzcv'.
  destruct (AddWithCarry_flags reg_size left (Z.lnot right) 1 nzcv Hs (or_intror eq_refl))
    as (HN & HZ & HC & HV).
  fold nzcv' in HN, HZ, HC, HV. cbv zeta in HN, HZ, HC, HV.
  assert (Hn : 0 < reg_size <= 64) by (destruct Hs; subst; lia).
  assert (Hp : 2 ^ reg_size = 2 * 2 ^ (reg_size - 1)).
  { rewrite <- Z.pow_succ_r by lia. f_equal. lia. }
  assert (Hh : 0 < 2 ^ (reg_size - 1)) by (apply Z.pow_pos_nonneg; lia).
  assert (Hlb : 0 <= l < 2 ^ reg_size) by (apply Z.mod_pos_bound; lia).
  assert (Hrb : 0 <= r < 2 ^ reg_size) by (apply Z.mod_pos_bound; lia).
  rewrite lnot_mod_pow2 in HC, HV by lia. fold l r in HC, HV.
  assert (Hres : (left + Z.lnot right + 1) mod 2 ^ reg_size =
                 if r <=? l then l - r else l - r + 2 ^ reg_size).
  { replace (left + Z.lnot right + 1) with (left - right) by (unfold Z.lnot; lia).
    rewrite Zminus_mod. fold l r.
    destruct (Z.leb_spec r l).
    - apply Z.mod_small. lia.
    - symmetry. apply Z.mod_unique with (q := -1); [left; lia | lia]. }
  rewrite Hres in HN, HZ, HV.
  set (res := if r <=? l then l - r else l - r + 2 ^ reg_size) in *.
  assert (Hresb : 0 <= res < 2 ^ reg_size) by (subst res; destruct (r <=? l) eqn:E; lia).
  rewrite !sign_bit_test in HV by lia.
  rewrite sign_bit_test in HN by lia.
  unfold to_signed. fold l r.
  rewrite HN, HZ, HC, HV. clear HN HZ HC HV Hres nzcv'.
  subst res. clearbody l r.
  generalize dependent (2 ^ (reg_size - 1)). intros h Hp Hh.
  rewrite Hp in *. clear Hp.
  split; [|split; [|split; [|split; [|split]]]].
  - destruct (Z.leb_spec r l); destruct (Z.eqb_spec l r);
      repeat match goal with |- context [?a =? ?b] => destruct (Z.eqb_spec a b) end;
      simpl; lia.
  - f_equal. destruct (Z.ltb_spec (2 * h - 1) (l + (2 * h - 1 - r) + 1));
      destruct (Z.leb_spec r l); first [reflexivity | lia].
  - match goal with |- context [Z.b2z ?b] => destruct b end; auto.
  - match goal with |- context [Z.b2z ?b] => destruct b end; auto.
  - destruct (Z.leb_spec r l);
      destruct (Z.ltb_spec l h); destruct (Z.ltb_spec r h);
      repeat match goal with
        | |- context [?a <=? ?b] => destruct (Z.leb_spec a b); try lia
        end;
      repeat match goal with
        | |- context [?a <? ?b] => destruct (Z.ltb_spec a b); try lia
        end; reflexivity.
  - f_equal.
    destruct (Z.leb_spec r l);
      destruct (Z.ltb_spec l h); destruct (Z.ltb_spec r h);
      repeat match goal with
        | |- context [?a <=? ?b] => destruct (Z.leb_spec a b); try lia
        end;
      repeat match goal with
        | |- context [?a <? ?b] => destruct (Z.ltb_spec a b); try lia
        end; reflexivity.
Qed.

Lemma b2z_eq_1 (b : bool) : Z.b2z b = 1 <-> b = true.
Proof. destruct b; simpl; split; intros; (reflexivity || discriminate || lia). Qed.

(** X1.  Subtraction is done as [left + ~right + 1].  For both register
    sizes the result is [(left - right) mod 2^size], and the flags compare
    the operands: Z is set exactly when they are equal at the register size,
    C exactly when there is no borrow (right <= left, unsigned), N and V
    differ exactly when left < right as signed values, and V is set exactly
    when the signed difference does not fit the register size. *)
Theorem AddWithCarry_compare (reg_size left right : Z) (nzcv : SimSystemRegister) :
  reg_size = 32 \/ reg_size = 64 ->
  let l := left mod 2 ^ reg_size in
  let r := right mod 2 ^ reg_size in
  let sl := to_signed reg_size left in
  let sr := to_signed reg_size right in
  let result := fst (AddWithCarry reg_size true left (Z.lnot right) 1 nzcv) in
  let nzcv' := snd (AddWithCarry reg_size true left (Z.lnot right) 1 nzcv) in
  result = (left - right) mod 2 ^ reg_size /\
  (GetZ nzcv' = 1 <-> l = r) /\
  (GetC nzcv' = 1 <-> r <= l) /\
  (GetN nzcv' <> GetV nzcv' <-> sl < sr) /\
  (GetV nzcv' = 1 <-> ~ (- 2 ^ (reg_size - 1) <= sl - sr < 2 ^ (reg_size - 1))).
Proof.
  intros Hs l r sl sr result nzcv'.
  destruct (subtract_flags reg_size left right nzcv Hs) as (HZ & HC & HN01 & HV01 & Hlt & HV).
  fold nzcv' l r sl sr in HZ, HC, HN01, HV01, Hlt, HV.
  split; [|split; [|split; [|split]]].
  - subst result. rewrite AddWithCarry_result by assumption.
    f_equal. unfold Z.lnot. lia.
  - rewrite HZ, b2z_eq_1. apply Z.eqb_eq.
  - rewrite HC, b2z_eq_1. apply Z.leb_le.
  - rewrite <- Z.ltb_lt, <- Hlt.
    destruct (Z.eqb_spec (GetN nzcv') (GetV nzcv')); simpl; split; intros; try congruence.
  - rewrite HV, b2z_eq_1, negb_true_iff, andb_false_iff, Z.leb_gt, Z.ltb_ge. lia.
Qed.

(** ** Add and subtract handlers *)

(** [AddWithCarry] looks at its operands at the register size only. *)
Lemma AddWithCarry_congr (reg_size : Z) (set_flags : bool)
    (left left' right right' carry_in : Z) (nzcv : SimSystemRegister) :
  reg_size = 32 \/ reg_size = 64 ->
  left mod 2 ^ reg_size = left' mod 2 ^ reg_size ->
  right mod 2 ^ reg_size = right' mod 2 ^ reg_size ->
  AddWithCarry reg_size set_flags left right carry_in nzcv =
  AddWithCarry reg_size set_flags left' right' carry_in nzcv.
Proof.
  intros Hs Hl Hr. unfold AddWithCarry.
  destruct Hs as [-> | ->].
  - change (32 =? kWRegSize) with true. cbv iota.
    rewrite !land_kWRegMask, Hl, Hr. reflexivity.
  - change (64 =? kWRegSize) with false. cbv iota.
    rewrite !land_kXRegMask, Hl, Hr. reflexivity.
Qed.

Lemma AddWithCarry_no_flags (reg_size left right carry_in : Z) (nzcv : SimSystemRegister) :
  snd (AddWithCarry reg_size false left right carry_in nzcv) = nzcv.
Proof. reflexivity. Qed.

(** The slot that the sized write stores. *)
Lemma WriteRegisterSized_slot (reg_size code value : Z) (r31mode : Reg31Mode)
    (registers : RegisterFile) :
  reg_size = 32 \/ reg_size = 64 ->
  (code =? 31) && is_zero_mode r31mode = false ->
  WriteRegisterSized reg_size code value r31mode registers code = value mod 2 ^ reg_size.
Proof.
  intros Hs Hc. unfold WriteRegisterSized, WriteWRegister, WriteXRegister, WriteRegister.
  destruct Hs as [-> | ->].
  - change (32 =? kWRegSize) with true. cbv iota. rewrite Hc, Z.eqb_refl.
    cbn [sizeof]. change (4 <? 4) with false. cbv iota. change (8 * 4) with 32.
    unfold int32. rewrite to_signed_mod by lia.
    rewrite land_kWRegMask. apply Z.mod_mod. lia.
  - change (64 =? kWRegSize) with false. cbv iota. rewrite Hc, Z.eqb_refl.
    reflexivity.
Qed.

Lemma WriteRegisterSized_other (reg_size code code' value : Z) (r31mode : Reg31Mode)
    (registers : RegisterFile) :
  code' <> code ->
  WriteRegisterSized reg_size code value r31mode registers code' = registers code'.
Proof.
  intros Hne. unfold WriteRegisterSized, WriteWRegister, WriteXRegister, WriteRegister.
  apply Z.eqb_neq in Hne.
  destruct (reg_size =? kWRegSize); destruct ((code =? 31) && is_zero_mode r31mode);
    cbv beta; rewrite ?Hne; reflexivity.
Qed.

Lemma WriteRegisterSized_discarded (reg_size code value : Z) (r31mode : Reg31Mode)
    (registers : RegisterFile) :
  (code =? 31) && is_zero_mode r31mode = true ->
  WriteRegisterSized reg_size code value r31mode registers = registers.
Proof.
  intros Hc. unfold WriteRegisterSized, WriteWRegister, WriteXRegister, WriteRegister.
  rewrite Hc. destruct (reg_size =? kWRegSize); reflexivity.
Qed.

Lemma WriteXRegister_slot (code value : Z) (r31mode : Reg31Mode)
    (registers : RegisterFile) :
  (code =? 31) && is_zero_mode r31mode = false ->
  WriteXRegister code value r31mode registers code = value mod 2 ^ 64.
Proof.
  intros Hc. unfold WriteXRegister, WriteRegister. rewrite Hc. cbv beta.
  now rewrite Z.eqb_refl.
Qed.

Lemma WriteXRegister_other (code code' value : Z) (r31mode : Reg31Mode)
    (registers : RegisterFile) :
  code' <> code ->
  WriteXRegister code value r31mode registers code' = registers code'.
Proof.
  intros Hne. apply Z.eqb_neq in Hne. unfold WriteXRegister, WriteRegister.
  destruct ((code =? 31) && is_zero_mode r31mode); cbv beta; now rewrite ?Hne.
Qed.

Lemma ReadXRegister_WriteXRegister (code value : Z) (r31mode : Reg31Mode)
    (registers : RegisterFile) :
  (code =? 31) && is_zero_mode r31mode = false ->
  ReadXRegister code r31mode (WriteXRegister code value r31mode registers) = int64 value.
Proof.
  intros Hc. unfold ReadXRegister, WriteXRegister.
  now rewrite ReadRegister_WriteRegister.
Qed.

Lemma int64_mod_pow2 (x n : Z) :
  0 <= n <= 64 -> int64 x mod 2 ^ n = x mod 2 ^ n.
Proof.
  intros Hn. rewrite <- (mod_pow2_mod_pow2 (int64 x) n 64) by lia.
  unfold int64. rewrite to_signed_mod by lia. apply mod_pow2_mod_pow2. lia.
Qed.

Section IntegerProperties.
Context `{Collaborators}.

(** What [AddSubHelper] computes, with the call of [AddWithCarry] kept. *)
Lemma AddSubHelper_run (instr : DecodedInstruction) (op2 : Z) (sim : Simulator) :
  AddSubOpMask instr <> AddSubOpUnallocated ->
  let reg_size := if GetSixtyFourBits instr then 64 else 32 in
  let rn := ReadRegisterSized reg_size (GetRn instr) (GetRnMode instr) (registers_ sim) in
  let is_sub := match AddSubOpMask instr with SUB | SUBS => true | _ => false end in
  let r :=
    AddWithCarry reg_size (GetFlagsUpdate instr) rn
      (if is_sub then Z.lnot op2 else op2) (if is_sub then 1 else 0) (nzcv_ sim) in
  AddSubHelper instr op2 sim =
  Done (set_registers
          (WriteRegisterSized reg_size (GetRd instr) (int64 (fst r)) (GetRdMode instr))
          (set_nzcv (fun _ => snd r) sim)).
Proof.
  intros Hop reg_size rn is_sub r.
  assert (Hs : reg_size = 32 \/ reg_size = 64)
    by (subst reg_size; destruct (GetSixtyFourBits instr); auto).
  assert (Hn : 0 <= reg_size <= 64) by (destruct Hs as [-> | ->]; lia).
  unfold AddSubHelper.
  change (if GetSixtyFourBits instr then kXRegSize else kWRegSize) with reg_size.
  fold rn. subst r is_sub.
  destruct (AddSubOpMask instr); try congruence; cbn [bind];
    match goal with
    | |- context [AddWithCarry ?s ?f (uint64 ?a) (uint64 ?b) ?c ?nz] =>
        rewrite (AddWithCarry_congr s f (uint64 a) a (uint64 b) b c nz Hs)
          by (apply uint64_mod_pow2; assumption)
    end;
    match goal with
    | |- context [AddWithCarry ?s ?f ?a ?b ?c ?nz] =>
        destruct (AddWithCarry s f a b c nz) as [new_val nzcv']
    end; reflexivity.
Qed.

(** X2.  ADD and ADDS write [Rn + op2], SUB and SUBS write [Rn - op2], both
    wrapped at the register size, into the slot of Rd (a 32-bit result is
    zero-extended); no other register changes; when Rd is 31 and is taken as
    the zero register (CMP, CMN) no register changes at all.  Without the S
    bit the flags are left alone.  Memory is not touched and the PC is not
    modified. *)
Theorem AddSubHelper_spec (instr : DecodedInstruction) (op2 : Z) (sim : Simulator) :
  AddSubOpMask instr <> AddSubOpUnallocated ->
  let reg_size := if GetSixtyFourBits instr then 64 else 32 in
  let rn := ReadRegisterSized reg_size (GetRn instr) (GetRnMode instr) (registers_ sim) in
  let value :=
    match AddSubOpMask instr with
    | SUB | SUBS => rn - op2
    | _ => rn + op2
    end in
  let discarded := (GetRd instr =? 31) && is_zero_mode (GetRdMode instr) in
  exists sim',
    AddSubHelper instr op2 sim = Done sim' /\
    (discarded = false ->
       registers_ sim' (GetRd instr) = value mod 2 ^ reg_size) /\
    (forall code, code <> GetRd instr -> registers_ sim' code = registers_ sim code) /\
    (discarded = true -> registers_ sim' = registers_ sim) /\
    (GetFlagsUpdate instr = false -> nzcv_ sim' = nzcv_ sim) /\
    memory_ sim' = memory_ sim /\
    trace_ sim' = trace_ sim /\
    pc_ sim' = pc_ sim /\
    pc_modified_ sim' = pc_modified_ sim.
Proof.
  intros Hop reg_size rn value discarded.
  assert (Hs : reg_size = 32 \/ reg_size = 64)
    by (subst reg_size; destruct (GetSixtyFourBits instr); auto).
  assert (Hn : 0 <= reg_size <= 64) by (destruct Hs as [-> | ->]; lia).
  pose proof (AddSubHelper_run instr op2 sim Hop) as Hrun. cbv zeta in Hrun.
  fold reg_size in Hrun. fold rn in Hrun.
  eexists. split; [exact Hrun|]. clear Hrun.
  cbn [registers_ nzcv_ memory_ trace_ pc_ pc_modified_ set_registers set_nzcv].
  split; [|split; [|split; [|split; [|split; [|split; [|split]]]]]]; try reflexivity.
  - intros Hd. rewrite WriteRegisterSized_slot by assumption.
    rewrite int64_mod_pow2 by assumption.
    rewrite AddWithCarry_result by assumption.
    rewrite Z.mod_mod by (apply Z.pow_nonzero; lia).
    subst value. destruct (AddSubOpMask instr); try congruence;
      cbv beta iota; f_equal; unfold Z.lnot; lia.
  - intros code Hne. now apply WriteRegisterSized_other.
  - intros Hd. now apply WriteRegisterSized_discarded.
  - intros Hf. rewrite Hf. reflexivity.
Qed.

End IntegerProperties.

Lemma b2z_nonzero (b : bool) : negb (Z.b2z b =? 0) = b.
Proof. now destruct b. Qed.

Lemma b2z_01 (b : bool) : Z.b2z b = 0 \/ Z.b2z b = 1.
Proof. destruct b; auto. Qed.

(** The condition codes, evaluated on the flags of a subtraction. *)
Lemma ConditionPassed_after_subtract `{Collaborators}
    (cond : Cond.Condition) (reg_size left right : Z) (sim sim' : Simulator) :
  reg_size = 32 \/ reg_size = 64 ->
  nzcv_ sim' = snd (AddWithCarry reg_size true left (Z.lnot right) 1 (nzcv_ sim)) ->
  ConditionPassed cond sim' = ComparisonHolds cond reg_size left right.
Proof.
  intros Hs Hnz.
  destruct (subtract_flags reg_size left right (nzcv_ sim) Hs)
    as (HZ & HC & HN01 & HV01 & Hlt & HV).
  destruct (AddWithCarry_flags reg_size left (Z.lnot right) 1 (nzcv_ sim) Hs
              (or_intror Logic.eq_refl)) as (HN & _).
  cbv zeta in HN.
  replace (left + Z.lnot right + 1) with (left - right) in HN by (unfold Z.lnot; lia).
  rewrite <- Hnz in HZ, HC, HN01, HV01, Hlt, HV, HN.
  unfold ConditionPassed, ComparisonHolds.
  set (l := left mod 2 ^ reg_size) in *.
  set (r := right mod 2 ^ reg_size) in *.
  set (sl := to_signed reg_size left) in *.
  set (sr := to_signed reg_size right) in *.
  set (fits := (- 2 ^ (reg_size - 1) <=? sl - sr) && (sl - sr <? 2 ^ (reg_size - 1))) in *.
  set (sgn := Z.testbit ((left - right) mod 2 ^ reg_size) (reg_size - 1)) in *.
  assert (Hnv : Bool.eqb (negb (GetN (nzcv_ sim') =? 0)) (negb (GetV (nzcv_ sim') =? 0))
                = negb (sl <? sr)).
  { rewrite <- Hlt, negb_involutive.
    destruct HN01 as [-> | ->]; destruct HV01 as [-> | ->]; reflexivity. }
  assert (Heq : (l =? r) = (sl =? sr)).
  { assert (Hn : 0 < reg_size) by (destruct Hs; subst; lia).
    assert (Hp : 2 ^ reg_size = 2 * 2 ^ (reg_size - 1)).
    { rewrite <- Z.pow_succ_r by lia. f_equal. lia. }
    assert (Hlb : 0 <= l < 2 ^ reg_size) by (apply Z.mod_pos_bound; lia).
    assert (Hrb : 0 <= r < 2 ^ reg_size) by (apply Z.mod_pos_bound; lia).
    subst sl sr. unfold to_signed. fold l r.
    destruct (Z.ltb_spec l (2 ^ (reg_size - 1)));
      destruct (Z.ltb_spec r (2 ^ (reg_size - 1)));
      destruct (Z.eqb_spec l r); cbv iota;
      try match goal with |- _ = (?a =? ?b) => destruct (Z.eqb_spec a b) end;
      first [reflexivity | lia]. }
  rewrite Hnv. rewrite HZ, HC, HV, HN, !b2z_nonzero, Heq.
  clearbody l r sl sr fits sgn.
  destruct cond; try reflexivity; try (now rewrite negb_involutive);
    repeat match goal with
      | |- context [?a <=? ?b] => destruct (Z.leb_spec a b)
      | |- context [?a <? ?b] => destruct (Z.ltb_spec a b)
      | |- context [?a =? ?b] => destruct (Z.eqb_spec a b)
      end; simpl; first [reflexivity | lia].
Qed.

Lemma GetC_01 (r : SimSystemRegister) : GetC r = 0 \/ GetC r = 1.
Proof. unfold GetC, C_offset. rewrite ExtractBits_bit by lia. apply b2z_01. Qed.

(** The four flags after [SetFlags]: the four bits of the field written. *)
Lemma ExtractBits_SetFlags (k bits : Z) (r : SimSystemRegister) :
  28 <= k <= 31 -> 0 <= bits < 16 ->
  ExtractBits k k (SetFlags bits r) = Z.b2z (Z.testbit bits (k - 28)).
Proof.
  intros Hk Hb. rewrite ExtractBits_bit by lia. f_equal.
  unfold SetFlags, SetBits; cbn [value_].
  change (31 - 28 + 1) with 4. change (Z.shiftl 1 4 - 1) with 15.
  change (uint32 (Z.shiftl 15 28)) with (Z.shiftl 15 28).
  rewrite Z.lor_spec, !Z.land_spec. unfold uint32.
  rewrite !Z.testbit_mod_pow2, Z.lnot_spec, !Z.shiftl_spec by lia.
  replace (k <? 32) with true by (symmetry; apply Z.ltb_lt; lia).
  change 15 with (Z.ones 4). rewrite Z.ones_spec_low by lia.
  cbn [negb andb orb]. rewrite !andb_false_r, !andb_true_r. reflexivity.
Qed.

Section CompareProperties.
Context `{Collaborators}.

(** X3.  A flag-setting subtraction of an immediate (SUBS, CMP) followed by
    a conditional branch: the branch is taken exactly when its condition holds of the two
    operands compared, as unsigned values for hs, lo, hi and ls and as signed
    values for ge, lt, gt and le.  A branch that is not taken leaves the state
    as the comparison left it. *)
Theorem compare_then_conditional_branch (cmp br : DecodedInstruction)
    (sim : Simulator) :
  AddSubOpMask cmp = SUBS \/ AddSubOpMask cmp = SUB ->
  GetFlagsUpdate cmp = true ->
  let reg_size := if GetSixtyFourBits cmp then 64 else 32 in
  let rn := ReadRegisterSized reg_size (GetRn cmp) (GetRnMode cmp) (registers_ sim) in
  let op2 :=
    Z.shiftl (GetImmAddSub cmp) (if GetShiftAddSub cmp =? 1 then 12 else 0) in
  let taken := ComparisonHolds (GetConditionBranch br) reg_size rn op2 in
  exists sim1 sim2,
    VisitAddSubImmediate cmp sim = Done sim1 /\
    VisitConditionalBranch br sim1 = Done sim2 /\
    sim2 = (if taken then WritePc (GetImmPCOffsetTarget br) sim1 else sim1) /\
    pc_ sim2 = (if taken then GetImmPCOffsetTarget br else pc_ sim) /\
    pc_modified_ sim2 = (taken || pc_modified_ sim).
Proof.
  intros Hop Hflags reg_size rn op2 taken.
  change (VisitAddSubImmediate cmp sim) with (AddSubHelper cmp op2 sim).
  assert (Hs : reg_size = 32 \/ reg_size = 64)
    by (subst reg_size; destruct (GetSixtyFourBits cmp); auto).
  assert (Hop' : AddSubOpMask cmp <> AddSubOpUnallocated)
    by (destruct Hop as [-> | ->]; discriminate).
  pose proof (AddSubHelper_run cmp op2 sim Hop') as Hrun. cbv zeta in Hrun.
  fold reg_size in Hrun. fold rn in Hrun. rewrite Hflags in Hrun.
  replace (match AddSubOpMask cmp with SUB | SUBS => true | _ => false end)
    with true in Hrun by (destruct Hop as [-> | ->]; reflexivity).
  match type of Hrun with _ = Done ?s => set (sim1 := s) in * end.
  assert (Hcond : ConditionPassed (GetConditionBranch br) sim1 = taken).
  { apply (ConditionPassed_after_subtract _ reg_size rn op2 sim sim1 Hs). reflexivity. }
  exists sim1, (if taken then WritePc (GetImmPCOffsetTarget br) sim1 else sim1).
  split; [exact Hrun|].
  split; [unfold VisitConditionalBranch; rewrite Hcond; now destruct taken|].
  split; [reflexivity|].
  destruct taken; split; reflexivity.
Qed.

(** X4.  Conditional compare, with a register or an immediate as second
    operand, writes no register and no memory.  When its condition fails the
    four flags are the bits of the flags immediate.  When it holds, CCMP
    leaves the flags of comparing Rn with the operand, so that any condition
    evaluated afterwards tells the relation between the two, and CCMN leaves
    those of adding them: Z for a zero sum and C for a carry out. *)
Theorem ConditionalCompareHelper_spec (instr : DecodedInstruction) (immediate : bool)
    (sim : Simulator) :
  0 <= GetNzcv instr < 16 ->
  let reg_size := if GetSixtyFourBits instr then 64 else 32 in
  let op1 :=
    ReadRegisterSized reg_size (GetRn instr) Reg31IsZeroRegister (registers_ sim) in
  let op2 :=
    if immediate then GetImmCondCmp instr
    else ReadRegisterSized reg_size (GetRm instr) Reg31IsZeroRegister (registers_ sim) in
  exists sim',
    (if immediate then VisitConditionalCompareImmediate instr sim
     else VisitConditionalCompareRegister instr sim) = Done sim' /\
    registers_ sim' = registers_ sim /\
    memory_ sim' = memory_ sim /\
    trace_ sim' = trace_ sim /\
    (ConditionPassed (GetCondition instr) sim = false ->
       GetN (nzcv_ sim') = Z.b2z (Z.testbit (GetNzcv instr) 3) /\
       GetZ (nzcv_ sim') = Z.b2z (Z.testbit (GetNzcv instr) 2) /\
       GetC (nzcv_ sim') = Z.b2z (Z.testbit (GetNzcv instr) 1) /\
       GetV (nzcv_ sim') = Z.b2z (Z.testbit (GetNzcv instr) 0)) /\
    (ConditionPassed (GetCondition instr) sim = true ->
       ConditionalCompareMask instr = CCMP ->
       forall cond,
         ConditionPassed cond sim' = ComparisonHolds cond reg_size op1 op2) /\
    (ConditionPassed (GetCondition instr) sim = true ->
       ConditionalCompareMask instr = CCMN ->
       GetZ (nzcv_ sim') = Z.b2z ((op1 + op2) mod 2 ^ reg_size =? 0) /\
       GetC (nzcv_ sim') =
         Z.b2z (2 ^ reg_size <=? op1 mod 2 ^ reg_size + op2 mod 2 ^ reg_size)).
Proof.
  intros Himm reg_size op1 op2.
  replace (if immediate then VisitConditionalCompareImmediate instr sim
           else VisitConditionalCompareRegister instr sim)
    with (ConditionalCompareHelper instr op2 sim)
    by (subst op2; destruct immediate; reflexivity).
  clearbody op2.
  assert (Hs : reg_size = 32 \/ reg_size = 64)
    by (subst reg_size; destruct (GetSixtyFourBits instr); auto).
  assert (Hn : 0 <= reg_size <= 64) by (destruct Hs as [-> | ->]; lia).
  unfold ConditionalCompareHelper.
  change (if GetSixtyFourBits instr then kXRegSize else kWRegSize) with reg_size.
  fold op1.
  destruct (ConditionPassed (GetCondition instr) sim) eqn:Hpass.
  - destruct (ConditionalCompareMask instr) eqn:Hop.
    + eexists. split; [reflexivity|].
      cbn [registers_ memory_ trace_ nzcv_ set_nzcv].
      split; [reflexivity|]. split; [reflexivity|]. split; [reflexivity|].
      split; [discriminate|]. split; [discriminate|].
      intros _ _.
      rewrite (AddWithCarry_congr reg_size true (uint64 op1) op1 (uint64 op2) op2 0
                 (nzcv_ sim) Hs) by (apply uint64_mod_pow2; assumption).
      destruct (AddWithCarry_flags reg_size op1 op2 0 (nzcv_ sim) Hs
                  (or_introl Logic.eq_refl)) as (_ & HZ & HC & _).
      cbv zeta in HZ, HC. rewrite HZ, HC.
      rewrite !Z.add_0_r. split; [reflexivity|].
      f_equal.
      destruct (Z.ltb_spec (2 ^ reg_size - 1) (op1 mod 2 ^ reg_size + op2 mod 2 ^ reg_size));
        destruct (Z.leb_spec (2 ^ reg_size) (op1 mod 2 ^ reg_size + op2 mod 2 ^ reg_size));
        first [reflexivity | lia].
    + eexists. split; [reflexivity|].
      cbn [registers_ memory_ trace_ nzcv_ set_nzcv].
      split; [reflexivity|]. split; [reflexivity|]. split; [reflexivity|].
      split; [discriminate|]. split; [|discriminate].
      intros _ _ cond.
      apply (ConditionPassed_after_subtract cond reg_size op1 op2 sim _ Hs).
      cbn [nzcv_ set_nzcv].
      now rewrite (AddWithCarry_congr reg_size true (uint64 op1) op1
                     (uint64 (Z.lnot op2)) (Z.lnot op2) 1 (nzcv_ sim) Hs)
        by (apply uint64_mod_pow2; assumption).
  - eexists. split; [reflexivity|].
    cbn [registers_ memory_ trace_ nzcv_ set_nzcv].
    split; [reflexivity|]. split; [reflexivity|]. split; [reflexivity|].
    split; [|split; discriminate].
    intros _. unfold GetN, GetZ, GetC, GetV, N_offset, Z_offset, C_offset, V_offset.
    rewrite !ExtractBits_SetFlags by lia.
    split; [reflexivity|]. split; [reflexivity|]. split; reflexivity.
Qed.

(** X5.  Add and subtract with carry: ADC and ADCS write [Rn + Rm + C], SBC
    and SBCS write [Rn - Rm - 1 + C], wrapped at the register size, where C
    is the carry flag before the instruction; the other registers are left
    alone, and so are the flags without the S bit. *)
Theorem VisitAddSubWithCarry_spec (instr : DecodedInstruction) (sim : Simulator) :
  GetRd instr <> 31 ->
  let reg_size := if GetSixtyFourBits instr then 64 else 32 in
  let rn :=
    ReadRegisterSized reg_size (GetRn instr) Reg31IsZeroRegister (registers_ sim) in
  let rm :=
    ReadRegisterSized reg_size (GetRm instr) Reg31IsZeroRegister (registers_ sim) in
  let c := GetC (nzcv_ sim) in
  let value :=
    match AddSubOpMask instr with
    | SUB | SUBS => rn - rm - 1 + c
    | _ => rn + rm + c
    end in
  exists sim',
    VisitAddSubWithCarry instr sim = Done sim' /\
    registers_ sim' (GetRd instr) = value mod 2 ^ reg_size /\
    (forall code, code <> GetRd instr -> registers_ sim' code = registers_ sim code) /\
    (GetFlagsUpdate instr = false -> nzcv_ sim' = nzcv_ sim) /\
    memory_ sim' = memory_ sim.
Proof.
  intros Hrd reg_size rn rm c value.
  assert (Hs : reg_size = 32 \/ reg_size = 64)
    by (subst reg_size; destruct (GetSixtyFourBits instr); auto).
  assert (Hn : 0 <= reg_size <= 64) by (destruct Hs as [-> | ->]; lia).
  unfold VisitAddSubWithCarry.
  change (if GetSixtyFourBits instr then kXRegSize else kWRegSize) with reg_size.
  fold rn rm c.
  set (op2 := match AddSubOpMask instr with SUB | SUBS => Z.lnot rm | _ => rm end).
  rewrite (AddWithCarry_congr reg_size (GetFlagsUpdate instr) (uint64 rn) rn
             (uint64 op2) op2 c (nzcv_ sim) Hs) by (apply uint64_mod_pow2; assumption).
  pose proof (AddWithCarry_result reg_size (GetFlagsUpdate instr) rn op2 c (nzcv_ sim) Hs)
    as Hres.
  assert (Hnf : GetFlagsUpdate instr = false ->
                snd (AddWithCarry reg_size (GetFlagsUpdate instr) rn op2 c (nzcv_ sim))
                = nzcv_ sim) by (intros ->; reflexivity).
  destruct (AddWithCarry reg_size (GetFlagsUpdate instr) rn op2 c (nzcv_ sim))
    as [new_val nzcv'].
  cbn [fst snd] in Hres, Hnf.
  eexists. split; [reflexivity|].
  cbn [registers_ nzcv_ memory_ set_registers set_nzcv].
  split; [|split; [|split]]; try reflexivity.
  - rewrite WriteRegisterSized_slot; [|assumption|].
    2:{ apply andb_false_iff. left. now apply Z.eqb_neq. }
    rewrite int64_mod_pow2 by assumption. rewrite Hres.
    rewrite Z.mod_mod by (apply Z.pow_nonzero; lia).
    subst value op2. destruct (AddSubOpMask instr); f_equal; unfold Z.lnot; lia.
  - intros code Hne. now apply WriteRegisterSized_other.
  - assumption.
Qed.

End CompareProperties.

Lemma mod_eq (a m q r : Z) : 0 <= r < m -> a = m * q + r -> a mod m = r.
Proof. intros Hr Ha. symmetry. now apply Z.mod_unique_pos with (q := q). Qed.

(** X6.  Two-limb arithmetic.  A flag-setting addition of the low limbs
    followed by an addition with carry of the high limbs gives the sum of the
    two-limb numbers, wrapped at twice the register size, and the final carry
    tells whether it wrapped.  A flag-setting subtraction followed by a
    subtraction with carry gives their difference, and the final carry is
    clear exactly when the difference is negative. *)
Theorem AddWithCarry_two_limbs (reg_size a_lo a_hi b_lo b_hi : Z)
    (nzcv : SimSystemRegister) :
  reg_size = 32 \/ reg_size = 64 ->
  0 <= a_lo < 2 ^ reg_size -> 0 <= a_hi < 2 ^ reg_size ->
  0 <= b_lo < 2 ^ reg_size -> 0 <= b_hi < 2 ^ reg_size ->
  let a := a_lo + 2 ^ reg_size * a_hi in
  let b := b_lo + 2 ^ reg_size * b_hi in
  let add_lo := AddWithCarry reg_size true a_lo b_lo 0 nzcv in
  let add_hi := AddWithCarry reg_size true a_hi b_hi (GetC (snd add_lo)) (snd add_lo) in
  let sub_lo := AddWithCarry reg_size true a_lo (Z.lnot b_lo) 1 nzcv in
  let sub_hi :=
    AddWithCarry reg_size true a_hi (Z.lnot b_hi) (GetC (snd sub_lo)) (snd sub_lo) in
  fst add_lo + 2 ^ reg_size * fst add_hi = (a + b) mod 2 ^ (2 * reg_size) /\
  GetC (snd add_hi) = Z.b2z (2 ^ (2 * reg_size) <=? a + b) /\
  fst sub_lo + 2 ^ reg_size * fst sub_hi = (a - b) mod 2 ^ (2 * reg_size) /\
  GetC (snd sub_hi) = Z.b2z (b <=? a).
Proof.
  intros Hs Hal Hah Hbl Hbh a b add_lo add_hi sub_lo sub_hi.
  assert (Hn : 0 <= reg_size) by (destruct Hs; subst; lia).
  assert (Hp2 : 2 ^ (2 * reg_size) = 2 ^ reg_size * 2 ^ reg_size).
  { rewrite <- Z.pow_add_r by lia. f_equal. lia. }
  assert (Hp : 0 < 2 ^ reg_size) by (apply Z.pow_pos_nonneg; lia).
  (* addition *)
  destruct (AddWithCarry_flags reg_size a_lo b_lo 0 nzcv Hs (or_introl Logic.eq_refl))
    as (_ & _ & HC1 & _).
  cbv zeta in HC1. fold add_lo in HC1.
  rewrite (Z.mod_small a_lo), (Z.mod_small b_lo), Z.add_0_r in HC1 by assumption.
  assert (Hc1 : GetC (snd add_lo) = 0 \/ GetC (snd add_lo) = 1) by apply GetC_01.
  destruct (AddWithCarry_flags reg_size a_hi b_hi (GetC (snd add_lo)) (snd add_lo) Hs Hc1)
    as (_ & _ & HC2 & _).
  cbv zeta in HC2. fold add_hi in HC2.
  rewrite (Z.mod_small a_hi), (Z.mod_small b_hi) in HC2 by assumption.
  pose proof (AddWithCarry_result reg_size true a_lo b_lo 0 nzcv Hs) as HR1.
  pose proof (AddWithCarry_result reg_size true a_hi b_hi (GetC (snd add_lo))
                (snd add_lo) Hs) as HR2.
  fold add_lo in HR1. fold add_hi in HR2.
  (* subtraction *)
  destruct (AddWithCarry_flags reg_size a_lo (Z.lnot b_lo) 1 nzcv Hs
              (or_intror Logic.eq_refl)) as (_ & _ & HC3 & _).
  cbv zeta in HC3. fold sub_lo in HC3.
  rewrite lnot_mod_pow2, (Z.mod_small a_lo), (Z.mod_small b_lo) in HC3 by assumption.
  assert (Hc3 : GetC (snd sub_lo) = 0 \/ GetC (snd sub_lo) = 1) by apply GetC_01.
  destruct (AddWithCarry_flags reg_size a_hi (Z.lnot b_hi) (GetC (snd sub_lo))
              (snd sub_lo) Hs Hc3) as (_ & _ & HC4 & _).
  cbv zeta in HC4. fold sub_hi in HC4.
  rewrite lnot_mod_pow2, (Z.mod_small a_hi), (Z.mod_small b_hi) in HC4 by assumption.
  pose proof (AddWithCarry_result reg_size true a_lo (Z.lnot b_lo) 1 nzcv Hs) as HR3.
  pose proof (AddWithCarry_result reg_size true a_hi (Z.lnot b_hi) (GetC (snd sub_lo))
                (snd sub_lo) Hs) as HR4.
  fold sub_lo in HR3. fold sub_hi in HR4.
  rewrite HC2, HC4, HR1, HR2, HR3, HR4. clear HC2 HC4 HR1 HR2 HR3 HR4.
  set (c1 := GetC (snd add_lo)) in *. set (c3 := GetC (snd sub_lo)) in *.
  clearbody c1 c3. clear add_lo add_hi sub_lo sub_hi.
  rewrite Hp2. subst a b.
  generalize dependent (2 ^ reg_size). intros m Hal Hah Hbl Hbh _ Hp HC1 HC3.
  unfold Z.lnot.
  split; [|split; [|split]].
  - rewrite Z.add_0_r.
    destruct (Z.ltb_spec (m - 1) (a_lo + b_lo)); simpl in HC1; subst c1.
    + rewrite (mod_eq (a_lo + b_lo) m 1 (a_lo + b_lo - m)) by lia.
      destruct (Z.lt_ge_cases (a_hi + b_hi + 1) m).
      * rewrite (Z.mod_small (a_hi + b_hi + 1)) by lia.
        symmetry; apply mod_eq with (q := 0); nia.
      * rewrite (mod_eq (a_hi + b_hi + 1) m 1 (a_hi + b_hi + 1 - m)) by lia.
        symmetry; apply mod_eq with (q := 1); nia.
    + rewrite (Z.mod_small (a_lo + b_lo)) by lia.
      destruct (Z.lt_ge_cases (a_hi + b_hi + 0) m).
      * rewrite (Z.mod_small (a_hi + b_hi + 0)) by lia.
        symmetry; apply mod_eq with (q := 0); nia.
      * rewrite (mod_eq (a_hi + b_hi + 0) m 1 (a_hi + b_hi + 0 - m)) by lia.
        symmetry; apply mod_eq with (q := 1); nia.
  - f_equal.
    destruct (Z.ltb_spec (m - 1) (a_lo + b_lo)); simpl in HC1; subst c1;
      destruct (Z.ltb_spec (m - 1) (a_hi + b_hi + 1));
      destruct (Z.ltb_spec (m - 1) (a_hi + b_hi + 0));
      destruct (Z.leb_spec (m * m) (a_lo + m * a_hi + (b_lo + m * b_hi)));
      first [reflexivity | nia].
  - destruct (Z.ltb_spec (m - 1) (a_lo + (m - 1 - b_lo) + 1)); simpl in HC3; subst c3.
    + rewrite (Z.mod_small (a_lo + Z.pred (- b_lo) + 1)) by lia.
      destruct (Z.le_gt_cases b_hi a_hi).
      * rewrite (Z.mod_small (a_hi + Z.pred (- b_hi) + 1)) by lia.
        symmetry; apply mod_eq with (q := 0); nia.
      * rewrite (mod_eq (a_hi + Z.pred (- b_hi) + 1) m (-1) (a_hi - b_hi + m))
          by lia.
        symmetry; apply mod_eq with (q := -1); nia.
    + rewrite (mod_eq (a_lo + Z.pred (- b_lo) + 1) m (-1) (a_lo - b_lo + m)) by lia.
      destruct (Z.lt_ge_cases b_hi a_hi).
      * rewrite (Z.mod_small (a_hi + Z.pred (- b_hi) + 0)) by lia.
        symmetry; apply mod_eq with (q := 0); nia.
      * rewrite (mod_eq (a_hi + Z.pred (- b_hi) + 0) m (-1) (a_hi - b_hi - 1 + m))
          by lia.
        symmetry; apply mod_eq with (q := -1); nia.
  - f_equal.
    destruct (Z.ltb_spec (m - 1) (a_lo + (m - 1 - b_lo) + 1)); simpl in HC3; subst c3;
      destruct (Z.ltb_spec (m - 1) (a_hi + (m - 1 - b_hi) + 1));
      destruct (Z.ltb_spec (m - 1) (a_hi + (m - 1 - b_hi) + 0));
      destruct (Z.leb_spec (b_lo + m * b_hi) (a_lo + m * a_hi));
      first [reflexivity | nia].
Qed.

(** ** Branches *)

Lemma to_signed_testbit (n x i : Z) :
  0 <= i < n -> Z.testbit (to_signed n x) i = Z.testbit x i.
Proof.
  intros Hi.
  rewrite <- (Z.mod_pow2_bits_low (to_signed n x) n i) by lia.
  rewrite to_signed_mod by lia.
  apply Z.mod_pow2_bits_low. lia.
Qed.

Lemma to_signed_eq_0 (n x : Z) :
  0 < n -> (to_signed n x =? 0) = (x mod 2 ^ n =? 0).
Proof.
  intros Hn. unfold to_signed.
  assert (Hp : 2 ^ n = 2 * 2 ^ (n - 1)).
  { rewrite <- Z.pow_succ_r by lia. f_equal. lia. }
  assert (Hh : 0 < 2 ^ (n - 1)) by (apply Z.pow_pos_nonneg; lia).
  pose proof (Z.mod_pos_bound x (2 ^ n) ltac:(lia)) as Hb.
  destruct (Z.ltb_spec (x mod 2 ^ n) (2 ^ (n - 1))); [reflexivity|].
  destruct (Z.eqb_spec (x mod 2 ^ n - 2 ^ n) 0);
    destruct (Z.eqb_spec (x mod 2 ^ n) 0); first [reflexivity | lia].
Qed.

Lemma lor_shiftl_small (a b n : Z) :
  0 <= n -> 0 <= b < 2 ^ n -> Z.lor (Z.shiftl a n) b = a * 2 ^ n + b.
Proof.
  intros Hn Hb.
  assert (Hland : Z.land (Z.shiftl a n) b = 0).
  { apply Z.bits_inj'. intros i Hi. rewrite Z.land_spec, Z.bits_0.
    destruct (Z.lt_ge_cases i n).
    - now rewrite Z.shiftl_spec_low.
    - replace (Z.testbit b i) with false; [apply andb_false_r|].
      symmetry. rewrite <- (Z.mod_small b (2 ^ n)) by lia.
      apply Z.mod_pow2_bits_high. lia. }
  rewrite <- Z.lxor_lor, <- Z.add_nocarry_lxor by assumption.
  now rewrite Z.shiftl_mul_pow2.
Qed.

Section BranchProperties.
Context `{Collaborators}.

(** X7.  A branch with link followed by a return through the link register
    comes back to the instruction after the branch: BL sets the PC to its
    target and the link register to the address of the next instruction, and
    RET x30 then sets the PC to that address and the next branch type to the
    default.  No register other than the link register changes and memory
    is not touched. *)
Theorem branch_with_link_then_return (bl : DecodedInstruction) (ret : Instruction)
    (sim : Simulator) :
  UnconditionalBranchMask bl = BL ->
  UnconditionalBranchToRegisterMask ret = RET ->
  GetRn ret = kLinkRegCode ->
  0 <= InstructionAddress bl < 2 ^ 64 - kInstructionSize ->
  exists sim1 sim2,
    VisitUnconditionalBranch bl sim = Done sim1 /\
    pc_ sim1 = GetImmPCOffsetTarget bl /\
    VisitUnconditionalBranchToRegister ret sim1 = Done sim2 /\
    pc_ sim2 = InstructionAddress bl + kInstructionSize /\
    pc_modified_ sim2 = true /\
    next_btype_ sim2 = DefaultBType /\
    (forall code, code <> kLinkRegCode -> registers_ sim2 code = registers_ sim code) /\
    memory_ sim2 = memory_ sim.
Proof.
  intros Hbl Hret Hrn Haddr.
  unfold VisitUnconditionalBranch. rewrite Hbl.
  eexists. eexists. split; [reflexivity|]. split; [reflexivity|].
  unfold VisitUnconditionalBranchToRegister, BranchOperands, GetBTypeFromInstruction.
  rewrite Hret, Hrn. cbn [bind].
  split; [reflexivity|].
  cbn [pc_ pc_modified_ next_btype_ registers_ memory_ WritePc WriteNextBType WriteLr
       set_registers].
  split; [|split; [|split; [|split]]]; try reflexivity.
  - unfold ReadXRegister, WriteXRegister.
    rewrite ReadRegister_WriteRegister by reflexivity.
    change (cast int64_t) with int64. rewrite uint64_int64.
    unfold uint64, GetNextInstruction. apply Z.mod_small.
    unfold kInstructionSize in *. lia.
  - intros code Hne. apply Z.eqb_neq in Hne.
    unfold WriteXRegister, WriteRegister.
    change ((kLinkRegCode =? 31) && is_zero_mode Reg31IsZeroRegister) with false.
    cbv beta iota. now rewrite Hne.
Qed.

(** X8.  Compare and branch.  CBZ branches exactly when the register is zero
    and CBNZ exactly when it is not, so on the same register one of the two
    branches; the 32-bit forms look at the low 32 bits of the slot only, and
    register 31 reads as zero.  A branch that is not taken leaves the whole
    state alone, the PC included. *)
Theorem VisitCompareBranch_spec (instr : DecodedInstruction) (sim : Simulator) :
  CompareBranchMask instr <> CompareBranchUnallocated ->
  let slot := if GetRt instr =? 31 then 0 else registers_ sim (GetRt instr) in
  let bits :=
    match CompareBranchMask instr with CBZ_w | CBNZ_w => 32 | _ => 64 end in
  let is_zero := slot mod 2 ^ bits =? 0 in
  let taken :=
    match CompareBranchMask instr with
    | CBZ_w | CBZ_x => is_zero
    | _ => negb is_zero
    end in
  VisitCompareBranch instr sim =
  Done (if taken then WritePc (GetImmPCOffsetTarget instr) sim else sim).
Proof.
  intros Hop slot bits is_zero taken.
  assert (Hw : (ReadWRegister (GetRt instr) Reg31IsZeroRegister (registers_ sim) =? 0)
               = (slot mod 2 ^ 32 =? 0)).
  { unfold ReadWRegister, ReadRegister, slot. cbn [is_zero_mode]. rewrite andb_true_r.
    destruct (GetRt instr =? 31); [reflexivity|].
    unfold cast. cbn [is_signed sizeof]. apply to_signed_eq_0. lia. }
  assert (Hx : (ReadXRegister (GetRt instr) Reg31IsZeroRegister (registers_ sim) =? 0)
               = (slot mod 2 ^ 64 =? 0)).
  { unfold ReadXRegister, ReadRegister, slot. cbn [is_zero_mode]. rewrite andb_true_r.
    destruct (GetRt instr =? 31); [reflexivity|].
    unfold cast. cbn [is_signed sizeof]. apply to_signed_eq_0. lia. }
  unfold VisitCompareBranch. subst taken is_zero bits.
  destruct (CompareBranchMask instr); try congruence; cbn [bind];
    rewrite ?Hw, ?Hx;
    match goal with |- context [?a =? 0] => destruct (a =? 0) end; reflexivity.
Qed.

(** X9.  Test and branch.  The tested position is [32 * bit5 + bit40]; TBZ
    branches exactly when that bit of the 64-bit slot is clear and TBNZ
    exactly when it is set, and register 31 reads as zero.  A branch that is
    not taken leaves the whole state alone. *)
Theorem VisitTestBranch_spec (instr : DecodedInstruction) (sim : Simulator) :
  TestBranchMask instr <> TestBranchUnallocated ->
  0 <= GetImmTestBranchBit5 instr <= 1 ->
  0 <= GetImmTestBranchBit40 instr < 32 ->
  let slot := if GetRt instr =? 31 then 0 else registers_ sim (GetRt instr) in
  let bit_pos := 32 * GetImmTestBranchBit5 instr + GetImmTestBranchBit40 instr in
  let bit_set := Z.testbit slot bit_pos in
  let taken :=
    match TestBranchMask instr with TBZ => negb bit_set | _ => bit_set end in
  VisitTestBranch instr sim =
  Done (if taken then WritePc (GetImmPCOffsetTarget instr) sim else sim).
Proof.
  intros Hop H5 H40 slot bit_pos bit_set taken.
  unfold VisitTestBranch.
  rewrite lor_shiftl_small by (change (2 ^ 5) with 32; lia).
  change (2 ^ 5) with 32.
  replace (GetImmTestBranchBit5 instr * 32 + GetImmTestBranchBit40 instr)
    with bit_pos by (subst bit_pos; lia).
  assert (Hpos : 0 <= bit_pos < 64) by (subst bit_pos; lia).
  rewrite land_1_testbit by lia.
  assert (Hbit : Z.testbit (ReadXRegister (GetRt instr) Reg31IsZeroRegister (registers_ sim))
                   bit_pos = bit_set).
  { unfold ReadXRegister, ReadRegister, bit_set, slot. cbn [is_zero_mode].
    rewrite andb_true_r.
    destruct (GetRt instr =? 31); [reflexivity|].
    unfold cast. cbn [is_signed sizeof]. apply to_signed_testbit. lia. }
  rewrite Hbit. subst taken.
  destruct (TestBranchMask instr); try congruence; cbn [bind];
    destruct bit_set; reflexivity.
Qed.

End BranchProperties.

(** ** Move wide *)

Lemma testbit_small (x n i : Z) :
  0 <= x < 2 ^ n -> n <= i -> Z.testbit x i = false.
Proof.
  intros Hx Hi.
  destruct (Z.lt_ge_cases n 0) as [Hneg|Hn].
  - rewrite Z.pow_neg_r in Hx by assumption. lia.
  - rewrite <- (Z.mod_small x (2 ^ n)) by assumption.
    apply Z.mod_pow2_bits_high. lia.
Qed.

(** Bit [i] of the slot after a MOVK of [imm] at bit position [sh]. *)
Lemma MOVK_testbit (prev imm sh i : Z) :
  0 <= sh -> 0 <= imm < 2 ^ 16 -> 0 <= i < 64 ->
  Z.testbit
    (Z.lor (Z.land prev (Z.lnot (int64 (Z.shiftl 0xffff sh)))) (int64 (Z.shiftl imm sh))) i =
  if (sh <=? i) && (i <? sh + 16) then Z.testbit imm (i - sh) else Z.testbit prev i.
Proof.
  intros Hsh Himm Hi.
  rewrite Z.lor_spec, Z.land_spec, Z.lnot_spec by lia.
  unfold int64. rewrite !to_signed_testbit by lia.
  rewrite !Z.shiftl_spec by lia.
  destruct (Z.leb_spec sh i) as [Hle|Hlt]; cbn [andb].
  - destruct (Z.ltb_spec i (sh + 16)) as [Hin|Hout].
    + change 0xffff with (Z.ones 16). rewrite Z.ones_spec_low by lia.
      cbn [negb]. now rewrite andb_false_r.
    + change 0xffff with (Z.ones 16). rewrite Z.ones_spec_high by lia.
      rewrite (testbit_small imm 16) by lia.
      cbn [negb]. now rewrite andb_true_r, orb_false_r.
  - rewrite (Z.testbit_neg_r 0xffff (i - sh)), (Z.testbit_neg_r imm (i - sh)) by lia.
    cbn [negb]. now rewrite andb_true_r, orb_false_r.
Qed.

Lemma halfword_testbit (x j k : Z) :
  0 <= j -> 0 <= k ->
  Z.testbit ((x / 2 ^ (16 * j)) mod 2 ^ 16) k =
  if k <? 16 then Z.testbit x (16 * j + k) else false.
Proof.
  intros Hj Hk. rewrite Z.testbit_mod_pow2 by lia.
  destruct (k <? 16); [|reflexivity]. cbn [andb].
  rewrite <- Z.shiftr_div_pow2 by lia.
  rewrite Z.shiftr_spec by lia. f_equal. lia.
Qed.

Lemma MOVK_halfword (prev imm s j : Z) :
  0 <= s -> 0 <= j < 4 -> 0 <= imm < 2 ^ 16 ->
  (Z.lor (Z.land prev (Z.lnot (int64 (Z.shiftl 0xffff (s * 16)))))
     (int64 (Z.shiftl imm (s * 16))) / 2 ^ (16 * j)) mod 2 ^ 16 =
  if j =? s then imm else (prev / 2 ^ (16 * j)) mod 2 ^ 16.
Proof.
  intros Hs Hj Himm.
  apply Z.bits_inj'. intros k Hk.
  rewrite halfword_testbit by lia.
  destruct (Z.ltb_spec k 16) as [Hk16|Hk16].
  - rewrite MOVK_testbit by lia.
    destruct (Z.eqb_spec j s) as [->|Hne].
    + replace ((s * 16 <=? 16 * s + k) && (16 * s + k <? s * 16 + 16)) with true
        by (symmetry; apply andb_true_iff; split; [apply Z.leb_le | apply Z.ltb_lt]; lia).
      f_equal. lia.
    + replace ((s * 16 <=? 16 * j + k) && (16 * j + k <? s * 16 + 16)) with false.
      2:{ symmetry. apply andb_false_iff.
          destruct (Z.lt_ge_cases j s); [left; apply Z.leb_gt | right; apply Z.ltb_ge]; lia. }
      rewrite halfword_testbit by lia.
      now replace (k <? 16) with true by (symmetry; apply Z.ltb_lt; lia).
  - destruct (Z.eqb_spec j s).
    + symmetry. apply (testbit_small imm 16); lia.
    + symmetry. rewrite halfword_testbit by lia.
      now replace (k <? 16) with false by (symmetry; apply Z.ltb_ge; lia).
Qed.

Lemma halfword_mod (x j : Z) :
  0 <= j < 4 ->
  ((x mod 2 ^ 64) / 2 ^ (16 * j)) mod 2 ^ 16 = (x / 2 ^ (16 * j)) mod 2 ^ 16.
Proof.
  intros Hj. apply Z.bits_inj'. intros k Hk.
  rewrite !halfword_testbit by lia.
  destruct (Z.ltb_spec k 16); [|reflexivity].
  apply Z.mod_pow2_bits_low. lia.
Qed.

(** A 64-bit value is determined by its four halfwords. *)
Lemma halfwords_eq (x y : Z) :
  0 <= x < 2 ^ 64 -> 0 <= y < 2 ^ 64 ->
  (forall j, 0 <= j < 4 ->
     (x / 2 ^ (16 * j)) mod 2 ^ 16 = (y / 2 ^ (16 * j)) mod 2 ^ 16) ->
  x = y.
Proof.
  intros Hx Hy Hhw. apply Z.bits_inj'. intros i Hi.
  destruct (Z.lt_ge_cases i 64) as [Hlt|Hge].
  - assert (Hj : 0 <= i / 16 < 4)
      by (split; [apply Z.div_pos; lia | apply Z.div_lt_upper_bound; lia]).
    pose proof (Z.div_mod i 16 ltac:(lia)) as Hdm.
    pose proof (Z.mod_pos_bound i 16 ltac:(lia)) as Hmb.
    pose proof (f_equal (fun v => Z.testbit v (i mod 16)) (Hhw (i / 16) Hj)) as Hbit.
    cbv beta in Hbit. rewrite !halfword_testbit in Hbit by lia.
    replace (i mod 16 <? 16) with true in Hbit by (symmetry; apply Z.ltb_lt; lia).
    now rewrite <- Hdm in Hbit.
  - now rewrite (testbit_small x 64), (testbit_small y 64) by lia.
Qed.

Lemma to_signed_halfword (n x j : Z) :
  0 <= j -> 16 * j + 16 <= n ->
  (to_signed n x / 2 ^ (16 * j)) mod 2 ^ 16 = (x / 2 ^ (16 * j)) mod 2 ^ 16.
Proof.
  intros Hj Hn. apply Z.bits_inj'. intros k Hk.
  rewrite !halfword_testbit by lia.
  destruct (Z.ltb_spec k 16); [|reflexivity].
  apply to_signed_testbit. lia.
Qed.

Lemma MOVN_value (shifted n : Z) :
  0 <= n <= 64 -> 0 <= shifted < 2 ^ n ->
  Z.lnot (int64 shifted) mod 2 ^ n = 2 ^ n - 1 - shifted.
Proof.
  intros Hn Hsh. rewrite lnot_mod_pow2 by lia.
  rewrite int64_mod_pow2 by lia. now rewrite Z.mod_small.
Qed.

Section MoveWideProperties.
Context `{Collaborators}.

(** X10.  MOVZ writes the immediate at its position and zero elsewhere, MOVN
    the complement of that at the register size, and MOVK replaces one
    halfword of Rd and keeps the others: seen through the register size, the
    halfword selected by the shift field holds the immediate and every other
    halfword is as before.  No other register changes. *)
Theorem VisitMoveWideImmediate_spec (instr : DecodedInstruction) (sim : Simulator) :
  GetRd instr <> 31 ->
  0 <= GetImmMoveWide instr < 2 ^ 16 ->
  let halfwords := if GetSixtyFourBits instr then 4 else 2 in
  0 <= GetShiftMoveWide instr < halfwords ->
  MoveWideImmediateMask instr <> MoveWideImmediateUnallocated ->
  let reg_size := if GetSixtyFourBits instr then 64 else 32 in
  let shifted := GetImmMoveWide instr * 2 ^ (16 * GetShiftMoveWide instr) in
  let slot := registers_ sim (GetRd instr) in
  exists sim',
    VisitMoveWideImmediate instr sim = Done sim' /\
    (forall code, code <> GetRd instr -> registers_ sim' code = registers_ sim code) /\
    memory_ sim' = memory_ sim /\
    nzcv_ sim' = nzcv_ sim /\
    match MoveWideImmediateMask instr with
    | MOVZ_w | MOVZ_x => registers_ sim' (GetRd instr) = shifted
    | MOVN_w | MOVN_x => registers_ sim' (GetRd instr) = 2 ^ reg_size - 1 - shifted
    | _ =>
        forall j, 0 <= j < halfwords ->
          (registers_ sim' (GetRd instr) / 2 ^ (16 * j)) mod 2 ^ 16 =
          if j =? GetShiftMoveWide instr then GetImmMoveWide instr
          else (slot / 2 ^ (16 * j)) mod 2 ^ 16
    end.
Proof.
  intros Hrd Himm halfwords Hsh Hop reg_size shifted slot.
  assert (Hrd' : (GetRd instr =? 31) && is_zero_mode Reg31IsZeroRegister = false).
  { apply andb_false_iff. left. now apply Z.eqb_neq. }
  set (s := GetShiftMoveWide instr) in *.
  set (imm := GetImmMoveWide instr) in *.
  assert (Hs4 : 0 <= s < 4) by (subst halfwords; destruct (GetSixtyFourBits instr); lia).
  assert (Hpow : 0 < 2 ^ (16 * s) <= 2 ^ 48).
  { split; [apply Z.pow_pos_nonneg; lia | apply Z.pow_le_mono_r; lia]. }
  assert (Hshifted : 0 <= shifted < 2 ^ 64).
  { subst shifted. change (2 ^ 64) with (2 ^ 16 * 2 ^ 48). nia. }
  assert (Hshifted32 : GetSixtyFourBits instr = false -> 0 <= shifted < 2 ^ 32).
  { intros Hw. subst shifted halfwords. rewrite Hw in Hsh.
    assert (2 ^ (16 * s) <= 2 ^ 16) by (apply Z.pow_le_mono_r; lia).
    change (2 ^ 32) with (2 ^ 16 * 2 ^ 16). nia. }
  assert (Hsi : Z.shiftl imm (s * 16) = shifted).
  { rewrite Z.shiftl_mul_pow2 by lia. subst shifted. do 2 f_equal. lia. }
  assert (Hother : forall v code, code <> GetRd instr ->
            WriteXRegister (GetRd instr) v Reg31IsZeroRegister (registers_ sim) code =
            registers_ sim code).
  { intros v code Hne. apply Z.eqb_neq in Hne.
    unfold WriteXRegister, WriteRegister. rewrite Hrd'. cbv beta. now rewrite Hne. }
  assert (Hslot : forall v,
            WriteXRegister (GetRd instr) v Reg31IsZeroRegister (registers_ sim)
              (GetRd instr) = v mod 2 ^ 64).
  { intros v. unfold WriteXRegister, WriteRegister. rewrite Hrd'. cbv beta.
    now rewrite Z.eqb_refl. }
  assert (Hprev : forall j, 0 <= j < halfwords ->
            ((if GetSixtyFourBits instr
              then ReadXRegister (GetRd instr) Reg31IsZeroRegister (registers_ sim)
              else ReadWRegister (GetRd instr) Reg31IsZeroRegister (registers_ sim))
             / 2 ^ (16 * j)) mod 2 ^ 16 = (slot / 2 ^ (16 * j)) mod 2 ^ 16).
  { intros j Hj. subst halfwords slot.
    unfold ReadXRegister, ReadWRegister, ReadRegister. rewrite Hrd'.
    unfold cast. cbn [is_signed sizeof].
    destruct (GetSixtyFourBits instr); apply to_signed_halfword; lia. }
  assert (Hmovn :
            (if GetSixtyFourBits instr then Z.lnot (int64 shifted)
             else Z.land (Z.lnot (int64 shifted)) kWRegMask) mod 2 ^ 64 =
            2 ^ reg_size - 1 - shifted).
  { subst reg_size. destruct (GetSixtyFourBits instr).
    - apply MOVN_value; lia.
    - rewrite land_kWRegMask.
      rewrite (Z.mod_small _ (2 ^ 64))
        by (pose proof (Z.mod_pos_bound (Z.lnot (int64 shifted)) (2 ^ 32)); lia).
      apply MOVN_value; [lia | now apply Hshifted32]. }
  assert (Hmovz : int64 shifted mod 2 ^ 64 = shifted).
  { rewrite int64_mod_pow2 by lia. now apply Z.mod_small. }
  assert (Hmovk : forall j, 0 <= j < halfwords ->
            ((Z.lor
                (Z.land
                   (if GetSixtyFourBits instr
                    then ReadXRegister (GetRd instr) Reg31IsZeroRegister (registers_ sim)
                    else ReadWRegister (GetRd instr) Reg31IsZeroRegister (registers_ sim))
                   (Z.lnot (int64 (Z.shiftl 0xffff (s * 16)))))
                (int64 shifted) mod 2 ^ 64) / 2 ^ (16 * j)) mod 2 ^ 16 =
            if j =? s then imm else (slot / 2 ^ (16 * j)) mod 2 ^ 16).
  { intros j Hj. rewrite <- Hsi.
    assert (Hj4 : 0 <= j < 4) by (subst halfwords; destruct (GetSixtyFourBits instr); lia).
    rewrite halfword_mod, MOVK_halfword by lia. now rewrite Hprev. }
  unfold VisitMoveWideImmediate. fold s imm.
  destruct (MoveWideImmediateMask instr) eqn:Hmask; try congruence; cbn [bind];
    (eexists; split; [reflexivity|]);
    cbn [registers_ memory_ nzcv_ set_registers];
    (split; [intros code Hne; now apply Hother|]);
    (split; [reflexivity|]); (split; [reflexivity|]);
    rewrite Hslot, ?Hsi; first [exact Hmovn | exact Hmovz | exact Hmovk].
Qed.

End MoveWideProperties.

(** Above its width a sign-extended value repeats its sign bit. *)
Lemma to_signed_testbit_high (n x i : Z) :
  0 < n <= i -> Z.testbit (to_signed n x) i = Z.testbit x (n - 1).
Proof.
  intros Hi.
  assert (Hp : 2 ^ n = 2 * 2 ^ (n - 1)).
  { rewrite <- Z.pow_succ_r by lia. f_equal. lia. }
  assert (Hh : 0 < 2 ^ (n - 1)) by (apply Z.pow_pos_nonneg; lia).
  pose proof (Z.mod_pos_bound x (2 ^ n) ltac:(lia)) as Hu.
  rewrite <- (Z.mod_pow2_bits_low x n (n - 1)) by lia.
  rewrite sign_bit_test by lia.
  unfold to_signed.
  destruct (Z.ltb_spec (x mod 2 ^ n) (2 ^ (n - 1))) as [Hlt|Hge].
  - replace (2 ^ (n - 1) <=? x mod 2 ^ n) with false by (symmetry; apply Z.leb_gt; lia).
    apply (testbit_small _ n); lia.
  - replace (2 ^ (n - 1) <=? x mod 2 ^ n) with true by (symmetry; apply Z.leb_le; lia).
    replace (x mod 2 ^ n - 2 ^ n) with (Z.lnot (2 ^ n - 1 - x mod 2 ^ n))
      by (unfold Z.lnot; lia).
    rewrite Z.lnot_spec by lia.
    rewrite (testbit_small _ n) by lia. reflexivity.
Qed.

Section MoveWideSequences.
Context `{Collaborators}.

Lemma MOVZ_run (instr : DecodedInstruction) (sim : Simulator) :
  MoveWideImmediateMask instr = MOVZ_x ->
  VisitMoveWideImmediate instr sim =
  Done (set_registers
          (WriteXRegister (GetRd instr)
             (int64 (Z.shiftl (GetImmMoveWide instr) (GetShiftMoveWide instr * 16)))
             Reg31IsZeroRegister) sim).
Proof. intros Hop. unfold VisitMoveWideImmediate. now rewrite Hop. Qed.

Lemma MOVK_run (instr : DecodedInstruction) (sim : Simulator) :
  MoveWideImmediateMask instr = MOVK_x ->
  GetSixtyFourBits instr = true ->
  VisitMoveWideImmediate instr sim =
  Done (set_registers
          (WriteXRegister (GetRd instr)
             (Z.lor
                (Z.land (ReadXRegister (GetRd instr) Reg31IsZeroRegister (registers_ sim))
                   (Z.lnot (int64 (Z.shiftl 0xffff (GetShiftMoveWide instr * 16)))))
                (int64 (Z.shiftl (GetImmMoveWide instr) (GetShiftMoveWide instr * 16))))
             Reg31IsZeroRegister) sim).
Proof. intros Hop Hsf. unfold VisitMoveWideImmediate. now rewrite Hop, Hsf. Qed.

(** X11.  Any 64-bit constant is built by MOVZ followed by three MOVK, one
    halfword each: after the four instructions the register holds the
    constant, whatever it held before, and no other register has changed. *)
Theorem move_wide_builds_constant (movz movk1 movk2 movk3 : DecodedInstruction)
    (c rd : Z) (sim : Simulator) :
  0 <= c < 2 ^ 64 ->
  rd <> 31 ->
  MovesHalfword MOVZ_x 0 c rd movz ->
  MovesHalfword MOVK_x 1 c rd movk1 ->
  MovesHalfword MOVK_x 2 c rd movk2 ->
  MovesHalfword MOVK_x 3 c rd movk3 ->
  exists sim',
    (sim1 <- VisitMoveWideImmediate movz sim ;;
     sim2 <- VisitMoveWideImmediate movk1 sim1 ;;
     sim3 <- VisitMoveWideImmediate movk2 sim2 ;;
     VisitMoveWideImmediate movk3 sim3) = Done sim' /\
    registers_ sim' rd = c /\
    (forall code, code <> rd -> registers_ sim' code = registers_ sim code) /\
    memory_ sim' = memory_ sim.
Proof.
  intros Hc Hrd (Hop0 & Hsf0 & Hrd0 & Hs0 & Hi0) (Hop1 & Hsf1 & Hrd1 & Hs1 & Hi1)
    (Hop2 & Hsf2 & Hrd2 & Hs2 & Hi2) (Hop3 & Hsf3 & Hrd3 & Hs3 & Hi3).
  assert (Hrd' : (rd =? 31) && is_zero_mode Reg31IsZeroRegister = false).
  { apply andb_false_iff. left. now apply Z.eqb_neq. }
  assert (Himm : forall k, 0 <= (c / 2 ^ (16 * k)) mod 2 ^ 16 < 2 ^ 16)
    by (intros k; apply Z.mod_pos_bound; lia).
  rewrite (MOVZ_run movz) by assumption. cbn [bind].
  rewrite (MOVK_run movk1) by assumption. cbn [bind].
  rewrite (MOVK_run movk2) by assumption. cbn [bind].
  rewrite (MOVK_run movk3) by assumption.
  eexists. split; [reflexivity|].
  cbn [registers_ memory_ set_registers].
  rewrite Hrd0, Hs0, Hi0, Hrd1, Hs1, Hi1, Hrd2, Hs2, Hi2, Hrd3, Hs3, Hi3.
  split; [|split; [|reflexivity]].
  - rewrite WriteXRegister_slot, !ReadXRegister_WriteXRegister by assumption.
    apply halfwords_eq; [apply Z.mod_pos_bound; lia | assumption |].
    intros j Hj.
    rewrite halfword_mod, MOVK_halfword by (lia || apply Himm).
    destruct (Z.eqb_spec j 3) as [->|Hj3]; [reflexivity|].
    unfold int64 at 1. rewrite to_signed_halfword, MOVK_halfword by (lia || apply Himm).
    destruct (Z.eqb_spec j 2) as [->|Hj2]; [reflexivity|].
    unfold int64 at 1. rewrite to_signed_halfword, MOVK_halfword by (lia || apply Himm).
    destruct (Z.eqb_spec j 1) as [->|Hj1]; [reflexivity|].
    assert (j = 0) as -> by lia.
    unfold int64. rewrite !to_signed_halfword by lia.
    change (0 * 16) with 0. rewrite Z.shiftl_0_r.
    change (2 ^ (16 * 0)) with 1. rewrite !Z.div_1_r.
    apply Z.mod_mod. lia.
  - intros code Hne. now rewrite !WriteXRegister_other.
Qed.

(** X12.  MOVK on the 32-bit view reads the old value as a signed 32-bit
    integer and writes its result to the whole 64-bit slot: the upper half of
    the slot ends up as copies of bit 31 of the old value, all ones when that
    bit was set, where MOVZ and MOVN of the 32-bit view leave it zero. *)
Theorem MOVK_w_upper_half (instr : DecodedInstruction) (sim : Simulator) :
  MoveWideImmediateMask instr = MOVK_w ->
  GetSixtyFourBits instr = false ->
  GetRd instr <> 31 ->
  0 <= GetImmMoveWide instr < 2 ^ 16 ->
  0 <= GetShiftMoveWide instr < 2 ->
  exists sim',
    VisitMoveWideImmediate instr sim = Done sim' /\
    registers_ sim' (GetRd instr) / 2 ^ 32 =
    if Z.testbit (registers_ sim (GetRd instr)) 31 then 2 ^ 32 - 1 else 0.
Proof.
  intros Hop Hsf Hrd Himm Hsh.
  assert (Hrd' : (GetRd instr =? 31) && is_zero_mode Reg31IsZeroRegister = false).
  { apply andb_false_iff. left. now apply Z.eqb_neq. }
  unfold VisitMoveWideImmediate. rewrite Hop, Hsf. cbn [bind].
  eexists. split; [reflexivity|].
  cbn [registers_ set_registers].
  rewrite WriteXRegister_slot by assumption.
  set (slot := registers_ sim (GetRd instr)).
  assert (Hbits : forall k, 0 <= k ->
            Z.testbit
              ((Z.lor
                  (Z.land (ReadWRegister (GetRd instr) Reg31IsZeroRegister (registers_ sim))
                     (Z.lnot (int64 (Z.shiftl 0xffff (GetShiftMoveWide instr * 16)))))
                  (int64 (Z.shiftl (GetImmMoveWide instr) (GetShiftMoveWide instr * 16))))
               mod 2 ^ 64 / 2 ^ 32) k =
            (k <? 32) && Z.testbit slot 31).
  { intros k Hk. rewrite <- Z.shiftr_div_pow2, Z.shiftr_spec by lia.
    rewrite Z.testbit_mod_pow2 by lia.
    destruct (Z.ltb_spec k 32) as [Hlt|Hge].
    - replace (k + 32 <? 64) with true by (symmetry; apply Z.ltb_lt; lia).
      rewrite MOVK_testbit by lia.
      replace ((GetShiftMoveWide instr * 16 <=? k + 32)
               && (k + 32 <? GetShiftMoveWide instr * 16 + 16)) with false
        by (symmetry; apply andb_false_iff; right; apply Z.ltb_ge; lia).
      unfold ReadWRegister, ReadRegister. rewrite Hrd'.
      unfold cast. cbn [is_signed sizeof andb].
      apply (to_signed_testbit_high 32). lia.
    - replace (k + 32 <? 64) with false by (symmetry; apply Z.ltb_ge; lia).
      reflexivity. }
  apply Z.bits_inj'. intros k Hk. rewrite Hbits by assumption.
  destruct (Z.testbit slot 31).
  - rewrite andb_true_r. change (2 ^ 32 - 1) with (Z.ones 32).
    destruct (Z.ltb_spec k 32).
    + now rewrite Z.ones_spec_low by lia.
    + now rewrite Z.ones_spec_high by lia.
  - rewrite andb_false_r. now rewrite Z.bits_0.
Qed.

End MoveWideSequences.

(** ** Loads and stores *)

Lemma WriteWRegister_slot (code value : Z) (r31mode : Reg31Mode)
    (registers : RegisterFile) :
  (code =? 31) && is_zero_mode r31mode = false ->
  WriteWRegister code value r31mode registers code = value mod 2 ^ 32.
Proof.
  intros Hc. unfold WriteWRegister, WriteRegister. rewrite Hc. cbv beta.
  now rewrite Z.eqb_refl.
Qed.

Lemma WriteWRegister_other (code code' value : Z) (r31mode : Reg31Mode)
    (registers : RegisterFile) :
  code' <> code ->
  WriteWRegister code value r31mode registers code' = registers code'.
Proof.
  intros Hne. apply Z.eqb_neq in Hne. unfold WriteWRegister, WriteRegister.
  destruct ((code =? 31) && is_zero_mode r31mode); cbv beta; now rewrite ?Hne.
Qed.

Lemma not_zero_register (code : Z) :
  code <> 31 -> (code =? 31) && is_zero_mode Reg31IsZeroRegister = false.
Proof. intros Hc. apply andb_false_iff. left. now apply Z.eqb_neq. Qed.

Section LoadStoreProperties.
Context `{Collaborators}.

Lemma AddressModeHelper_run (addr_reg offset : Z) (addrmode : AddrMode) (sim : Simulator) :
  let base := uint64 (ReadXRegister addr_reg Reg31IsStackPointer (registers_ sim)) in
  addr_reg <> 31 \/ base mod 16 = 0 ->
  AddressModeHelper addr_reg offset addrmode sim =
  Done (match addrmode with PostIndex => base | _ => uint64 (base + offset) end,
        match addrmode with
        | Offset => sim
        | _ =>
            set_registers
              (WriteXRegister addr_reg (uint64 (base + offset)) Reg31IsStackPointer) sim
        end).
Proof.
  intros base Hal. unfold AddressModeHelper. fold base.
  replace ((addr_reg =? 31) && negb (base mod 16 =? 0)) with false.
  - destruct addrmode; reflexivity.
  - symmetry. apply andb_false_iff.
    destruct Hal as [Hne | Heq].
    + left. now apply Z.eqb_neq.
    + right. rewrite Heq. reflexivity.
Qed.

Lemma LoadStoreHelper_load_run (instr : DecodedInstruction) (offset : Z)
    (addrmode : AddrMode) (sim : Simulator) (T : CType) (wide : bool)
    (address : Z) (sim1 : Simulator) :
  LoadStoreIsLoad (LoadStoreMask instr) = true ->
  LoadStoreElementType (LoadStoreMask instr) = Some (T, wide) ->
  AddressModeHelper (GetRn instr) offset addrmode sim = Done (address, sim1) ->
  LoadStoreHelper instr offset addrmode sim =
  Done (set_local_monitor LocalMaybeClear
          (set_registers
             ((if wide then WriteXRegister else WriteWRegister)
                (GetRt instr) (MemoryRead T address (memory_ sim1)) Reg31IsZeroRegister)
             (log_event (EvRead address (sizeof T)) sim1))).
Proof.
  intros Hload Hty Haddr. unfold LoadStoreHelper. rewrite Haddr. cbn [bind].
  destruct (LoadStoreMask instr); try discriminate;
    injection Hty as <- <-; reflexivity.
Qed.

Lemma LoadStoreHelper_store_run (instr : DecodedInstruction) (offset : Z)
    (addrmode : AddrMode) (sim : Simulator) (T : CType) (wide : bool)
    (address : Z) (sim1 : Simulator) :
  LoadStoreIsLoad (LoadStoreMask instr) = false ->
  LoadStoreElementType (LoadStoreMask instr) = Some (T, wide) ->
  AddressModeHelper (GetRn instr) offset addrmode sim = Done (address, sim1) ->
  LoadStoreHelper instr offset addrmode sim =
  Done (set_local_monitor LocalMaybeClear
          (Write T address
             ((if wide then ReadXRegister else ReadWRegister)
                (GetRt instr) Reg31IsZeroRegister (registers_ sim1)) sim1)).
Proof.
  intros Hload Hty Haddr. unfold LoadStoreHelper. rewrite Haddr. cbn [bind].
  destruct (LoadStoreMask instr); try discriminate;
    injection Hty as <- <-; reflexivity.
Qed.

(** X13.  A load or store through the stack pointer asks for a 16-byte
    aligned stack pointer before the offset is applied: with register 31 as
    base and a misaligned stack pointer, every addressing mode and opcode ends
    in an alignment exception; with an aligned stack pointer, or another base
    register, no offset makes an allocated opcode fail (the indexed modes
    assert a non-zero offset). *)
Theorem LoadStoreHelper_stack_alignment (instr : DecodedInstruction) (offset : Z)
    (addrmode : AddrMode) (sim : Simulator) :
  let sp := uint64 (ReadXRegister 31 Reg31IsStackPointer (registers_ sim)) in
  (GetRn instr = 31 -> sp mod 16 <> 0 ->
   LoadStoreHelper instr offset addrmode sim = Aborted AlignmentException) /\
  (GetRn instr <> 31 \/ sp mod 16 = 0 ->
   addrmode = Offset \/ offset <> 0 ->
   LoadStoreMask instr <> LoadStoreUnallocated ->
   exists sim', LoadStoreHelper instr offset addrmode sim = Done sim').
Proof.
  intros sp. split.
  - intros Hrn Hsp. unfold LoadStoreHelper, AddressModeHelper. rewrite Hrn. fold sp.
    apply Z.eqb_neq in Hsp. rewrite Hsp. reflexivity.
  - intros Hal _ Hop.
    assert (Hal' : GetRn instr <> 31 \/
                   uint64 (ReadXRegister (GetRn instr) Reg31IsStackPointer (registers_ sim))
                     mod 16 = 0).
    { destruct Hal as [Hne | Heq]; [now left|].
      destruct (Z.eq_dec (GetRn instr) 31) as [-> | Hne]; [now right | now left]. }
    unfold LoadStoreHelper.
    rewrite (AddressModeHelper_run (GetRn instr) offset addrmode sim Hal'). cbn [bind].
    destruct (LoadStoreMask instr); try congruence; cbn [bind]; eexists; reflexivity.
Qed.

(** X14.  What a load leaves in the registers.  The bytes at the address are
    zero- or sign-extended according to the opcode and written to the 32-bit
    or 64-bit view of Rt, whose slot holds them zero-extended.  The address is
    the base plus the offset, except that post-index uses the base itself;
    the indexed modes write base plus offset back to the base register before
    the load, so a load into the base register overrides the write-back.
    Memory is only read. *)
Theorem LoadStoreHelper_load_spec (instr : DecodedInstruction) (offset : Z)
    (addrmode : AddrMode) (sim : Simulator) (T : CType) (wide : bool) :
  LoadStoreIsLoad (LoadStoreMask instr) = true ->
  LoadStoreElementType (LoadStoreMask instr) = Some (T, wide) ->
  GetRt instr <> 31 ->
  let base :=
    uint64 (ReadXRegister (GetRn instr) Reg31IsStackPointer (registers_ sim)) in
  GetRn instr <> 31 \/ base mod 16 = 0 ->
  addrmode = Offset \/ offset <> 0 ->
  let address := match addrmode with PostIndex => base | _ => uint64 (base + offset) end in
  let value := MemoryRead T address (memory_ sim) in
  exists sim',
    LoadStoreHelper instr offset addrmode sim = Done sim' /\
    registers_ sim' (GetRt instr) = value mod 2 ^ (if wide then 64 else 32) /\
    (GetRn instr <> GetRt instr ->
     registers_ sim' (GetRn instr) =
     match addrmode with
     | Offset => registers_ sim (GetRn instr)
     | _ => uint64 (base + offset)
     end) /\
    (forall code, code <> GetRt instr -> code <> GetRn instr ->
                  registers_ sim' code = registers_ sim code) /\
    memory_ sim' = memory_ sim /\
    trace_ sim' = EvRead address (sizeof T) :: trace_ sim.
Proof.
  intros Hload Hty Hrt base Hal _ address value.
  pose proof (AddressModeHelper_run (GetRn instr) offset addrmode sim Hal) as Haddr.
  cbv zeta in Haddr. fold base in Haddr. fold address in Haddr.
  match type of Haddr with _ = Done (_, ?s) => set (sim1 := s) in * end.
  assert (Hm1 : memory_ sim1 = memory_ sim) by (subst sim1; destruct addrmode; reflexivity).
  assert (Ht1 : trace_ sim1 = trace_ sim) by (subst sim1; destruct addrmode; reflexivity).
  assert (Hr1 : forall code, code <> GetRn instr ->
                             registers_ sim1 code = registers_ sim code).
  { intros code Hne. subst sim1.
    destruct addrmode; cbn [registers_ set_registers]; try reflexivity;
      now apply WriteXRegister_other. }
  assert (Hb1 : registers_ sim1 (GetRn instr) =
                match addrmode with
                | Offset => registers_ sim (GetRn instr)
                | _ => uint64 (base + offset)
                end).
  { subst sim1. destruct addrmode; cbn [registers_ set_registers]; try reflexivity;
      rewrite WriteXRegister_slot by (apply andb_false_r);
      apply Z.mod_small; apply Z.mod_pos_bound; lia. }
  clearbody sim1.
  rewrite (LoadStoreHelper_load_run instr offset addrmode sim T wide _ _ Hload Hty Haddr).
  eexists. split; [reflexivity|].
  cbn [registers_ memory_ trace_ set_local_monitor set_registers log_event].
  assert (Hzr := not_zero_register (GetRt instr) Hrt).
  rewrite Hm1, Ht1. fold value.
  split; [|split; [|split; [|split]]]; try reflexivity.
  - destruct wide; [apply WriteXRegister_slot | apply WriteWRegister_slot]; assumption.
  - intros Hne. rewrite <- Hb1.
    destruct wide; [apply WriteXRegister_other | apply WriteWRegister_other]; assumption.
  - intros code Hrt' Hrn'. rewrite <- Hr1 by assumption.
    destruct wide; [apply WriteXRegister_other | apply WriteWRegister_other]; assumption.
Qed.

End LoadStoreProperties.

(** The register value that a store takes, at the width of the element. *)
Lemma stored_register_mod (op : LoadStoreOp) (T : CType) (wide : bool)
    (code : Z) (registers : RegisterFile) :
  LoadStoreElementType op = Some (T, wide) ->
  (if wide then ReadXRegister else ReadWRegister) code Reg31IsZeroRegister registers
    mod 2 ^ (8 * sizeof T) =
  (if code =? 31 then 0 else registers code) mod 2 ^ (8 * sizeof T).
Proof.
  intros Hty.
  assert (Hsz : sizeof T <= (if wide then 8 else 4))
    by (destruct op; try discriminate; injection Hty as <- <-; cbn; lia).
  pose proof (sizeof_pos T) as Hpos.
  destruct wide; unfold ReadXRegister, ReadWRegister, ReadRegister;
    cbn [is_zero_mode]; rewrite andb_true_r;
    (destruct (code =? 31); [reflexivity|]).
  - rewrite <- (mod_pow2_mod_pow2 (cast int64_t (registers code)) (8 * sizeof T)
                  (8 * sizeof int64_t)) by (cbn [sizeof]; lia).
    rewrite cast_mod. apply mod_pow2_mod_pow2. cbn [sizeof]. lia.
  - rewrite <- (mod_pow2_mod_pow2 (cast int32_t (registers code)) (8 * sizeof T)
                  (8 * sizeof int32_t)) by (cbn [sizeof]; lia).
    rewrite cast_mod. apply mod_pow2_mod_pow2. cbn [sizeof]. lia.
Qed.

(** Bytes written with one element type and read back with another of the
    same size. *)
Lemma MemoryRead_MemoryWrite_same_size (T U : CType) (address value : Z)
    (m : MemoryBytes) :
  sizeof T = sizeof U ->
  MemoryRead T address (MemoryWrite U address value m) = cast T value.
Proof.
  intros Hs. unfold MemoryRead, MemoryWrite. rewrite Hs.
  rewrite ReadBytes_WriteBytes, bytes_of_sizeof.
  apply cast_congr. rewrite Hs.
  rewrite !Z.mod_mod; [reflexivity | |];
    apply Z.pow_nonzero; pose proof (sizeof_pos U); lia.
Qed.

Section StoreProperties.
Context `{Collaborators}.

(** X15.  What a store writes.  The low bytes of Rt (zero for register 31)
    go to the address, which is the base plus the offset, or the base itself
    for post-index.  The indexed modes write base plus offset back to the
    base register before the register to store is read, so a store of the
    base register itself stores the updated base.  No register other than
    the base changes. *)
Theorem LoadStoreHelper_store_spec (instr : DecodedInstruction) (offset : Z)
    (addrmode : AddrMode) (sim : Simulator) (T : CType) (wide : bool) :
  LoadStoreIsLoad (LoadStoreMask instr) = false ->
  LoadStoreElementType (LoadStoreMask instr) = Some (T, wide) ->
  let base :=
    uint64 (ReadXRegister (GetRn instr) Reg31IsStackPointer (registers_ sim)) in
  GetRn instr <> 31 \/ base mod 16 = 0 ->
  addrmode = Offset \/ offset <> 0 ->
  let address := match addrmode with PostIndex => base | _ => uint64 (base + offset) end in
  let indexed := match addrmode with Offset => false | _ => true end in
  let stored :=
    if GetRt instr =? 31 then 0
    else if (GetRt instr =? GetRn instr) && indexed then uint64 (base + offset)
    else registers_ sim (GetRt instr) in
  exists sim',
    LoadStoreHelper instr offset addrmode sim = Done sim' /\
    memory_ sim' = MemoryWrite T address stored (memory_ sim) /\
    trace_ sim' =
      EvWrite address (sizeof T) (stored mod 2 ^ (8 * sizeof T)) :: trace_ sim /\
    registers_ sim' (GetRn instr) =
      (if indexed then uint64 (base + offset) else registers_ sim (GetRn instr)) /\
    (forall code, code <> GetRn instr -> registers_ sim' code = registers_ sim code).
Proof.
  intros Hload Hty base Hal _ address indexed stored.
  pose proof (AddressModeHelper_run (GetRn instr) offset addrmode sim Hal) as Haddr.
  cbv zeta in Haddr. fold base in Haddr. fold address in Haddr.
  match type of Haddr with _ = Done (_, ?s) => set (sim1 := s) in * end.
  assert (Hm1 : memory_ sim1 = memory_ sim) by (subst sim1; destruct addrmode; reflexivity).
  assert (Ht1 : trace_ sim1 = trace_ sim) by (subst sim1; destruct addrmode; reflexivity).
  assert (Hr1 : forall code, code <> GetRn instr ->
                             registers_ sim1 code = registers_ sim code).
  { intros code Hne. subst sim1.
    destruct addrmode; cbn [registers_ set_registers]; try reflexivity;
      now apply WriteXRegister_other. }
  assert (Hb1 : registers_ sim1 (GetRn instr) =
                if indexed then uint64 (base + offset) else registers_ sim (GetRn instr)).
  { subst sim1 indexed. destruct addrmode; cbn [registers_ set_registers]; try reflexivity;
      rewrite WriteXRegister_slot by (apply andb_false_r);
      apply Z.mod_small; apply Z.mod_pos_bound; lia. }
  assert (Hst : (if GetRt instr =? 31 then 0 else registers_ sim1 (GetRt instr)) = stored).
  { subst stored. destruct (GetRt instr =? 31); [reflexivity|].
    destruct (Z.eqb_spec (GetRt instr) (GetRn instr)) as [Heq|Hne]; cbn [andb].
    - rewrite Heq, Hb1. now destruct indexed.
    - now apply Hr1. }
  clearbody sim1.
  rewrite (LoadStoreHelper_store_run instr offset addrmode sim T wide _ _ Hload Hty Haddr).
  eexists. split; [reflexivity|].
  pose proof (stored_register_mod (LoadStoreMask instr) T wide (GetRt instr)
                (registers_ sim1) Hty) as Hmod.
  rewrite Hst in Hmod.
  unfold Write.
  cbn [registers_ memory_ trace_ set_local_monitor log_event].
  rewrite Hm1, Ht1, Hmod.
  split; [|split; [reflexivity|split; [exact Hb1|exact Hr1]]].
  apply MemoryWrite_congr; [reflexivity | exact Hmod].
Qed.

(** X16.  A store with a scaled unsigned offset (STR) followed by a load with
    an unscaled offset (LDUR) of the same size from the same base and the same
    byte offset returns what was stored: the low bytes of the stored register,
    zero- or sign-extended as the load asks, whatever the memory held. *)
Theorem store_then_load_round_trip (st ld : DecodedInstruction)
    (sim : Simulator) (T TL : CType) (wide wide_l : bool) :
  LoadStoreIsLoad (LoadStoreMask st) = false ->
  LoadStoreElementType (LoadStoreMask st) = Some (T, wide) ->
  LoadStoreIsLoad (LoadStoreMask ld) = true ->
  LoadStoreElementType (LoadStoreMask ld) = Some (TL, wide_l) ->
  sizeof TL = sizeof T ->
  GetRn ld = GetRn st ->
  GetRt ld <> 31 ->
  GetImmLS ld = Z.shiftl (GetImmLSUnsigned st) (GetSizeLS st) ->
  let base :=
    uint64 (ReadXRegister (GetRn st) Reg31IsStackPointer (registers_ sim)) in
  GetRn st <> 31 \/ base mod 16 = 0 ->
  let stored := if GetRt st =? 31 then 0 else registers_ sim (GetRt st) in
  exists sim1 sim2,
    VisitLoadStoreUnsignedOffset st sim = Done sim1 /\
    VisitLoadStoreUnscaledOffset ld sim1 = Done sim2 /\
    registers_ sim2 (GetRt ld) = cast TL stored mod 2 ^ (if wide_l then 64 else 32) /\
    (forall code, code <> GetRt ld -> registers_ sim2 code = registers_ sim code).
Proof.
  intros Hst Hty Hld Htyl Hsz Hrn Hrt Himm base Hal stored.
  unfold VisitLoadStoreUnsignedOffset, VisitLoadStoreUnscaledOffset. rewrite Himm.
  set (offset := Z.shiftl (GetImmLSUnsigned st) (GetSizeLS st)).
  pose proof (AddressModeHelper_run (GetRn st) offset Offset sim Hal) as Haddr.
  cbv zeta in Haddr. fold base in Haddr.
  rewrite (LoadStoreHelper_store_run st offset Offset sim T wide _ _ Hst Hty Haddr).
  match goal with |- exists s1 s2, Done ?s = Done s1 /\ _ => set (sim1 := s) end.
  assert (Hregs : registers_ sim1 = registers_ sim) by reflexivity.
  assert (Hal1 : GetRn ld <> 31 \/
                 uint64 (ReadXRegister (GetRn ld) Reg31IsStackPointer (registers_ sim1))
                   mod 16 = 0).
  { rewrite Hrn, Hregs. exact Hal. }
  pose proof (AddressModeHelper_run (GetRn ld) offset Offset sim1 Hal1) as Haddr1.
  cbv zeta in Haddr1. rewrite Hrn, Hregs in Haddr1. fold base in Haddr1.
  rewrite <- Hrn in Haddr1.
  assert (Hval : MemoryRead TL (uint64 (base + offset)) (memory_ sim1) = cast TL stored).
  { subst sim1. unfold Write. cbn [memory_ set_local_monitor log_event].
    rewrite MemoryRead_MemoryWrite_same_size by assumption.
    apply cast_congr. rewrite Hsz.
    apply (stored_register_mod (LoadStoreMask st) T wide (GetRt st) (registers_ sim) Hty). }
  clearbody sim1.
  exists sim1. eexists. split; [reflexivity|].
  rewrite (LoadStoreHelper_load_run ld offset Offset sim1 TL wide_l _ _ Hld Htyl Haddr1).
  split; [reflexivity|].
  cbn [registers_ set_local_monitor set_registers log_event].
  assert (Hzr := not_zero_register (GetRt ld) Hrt).
  rewrite Hval, Hregs.
  split.
  - destruct wide_l; [apply WriteXRegister_slot | apply WriteWRegister_slot]; assumption.
  - intros code Hne.
    destruct wide_l; [apply WriteXRegister_other | apply WriteWRegister_other]; assumption.
Qed.

(** X17.  Push and pop.  A pre-index store that moves the base by [offset]
    followed by a post-index load that moves it back by [- offset] (STR
    Xt, [SP, #-16]! and LDR Xt', [SP], #16) returns the stored value in the
    loaded register and leaves the base register where it started. *)
Theorem push_then_pop_round_trip (st ld : DecodedInstruction)
    (sim : Simulator) (T TL : CType) (wide wide_l : bool) :
  LoadStoreIsLoad (LoadStoreMask st) = false ->
  LoadStoreElementType (LoadStoreMask st) = Some (T, wide) ->
  LoadStoreIsLoad (LoadStoreMask ld) = true ->
  LoadStoreElementType (LoadStoreMask ld) = Some (TL, wide_l) ->
  sizeof TL = sizeof T ->
  GetRn ld = GetRn st ->
  GetRt st <> GetRn st ->
  GetRt ld <> GetRn st ->
  GetRt ld <> 31 ->
  let offset := GetImmLS st in
  offset <> 0 ->
  GetImmLS ld = - offset ->
  let base :=
    uint64 (ReadXRegister (GetRn st) Reg31IsStackPointer (registers_ sim)) in
  GetRn st <> 31 \/ (base mod 16 = 0 /\ offset mod 16 = 0) ->
  let stored := if GetRt st =? 31 then 0 else registers_ sim (GetRt st) in
  exists sim1 sim2,
    VisitLoadStorePreIndex st sim = Done sim1 /\
    VisitLoadStorePostIndex ld sim1 = Done sim2 /\
    registers_ sim2 (GetRt ld) = cast TL stored mod 2 ^ (if wide_l then 64 else 32) /\
    registers_ sim2 (GetRn st) = base /\
    (forall code, code <> GetRt ld -> code <> GetRn st ->
                  registers_ sim2 code = registers_ sim code) /\
    memory_ sim2 = MemoryWrite T (uint64 (base + offset)) stored (memory_ sim).
Proof.
  intros Hst Hty Hld Htyl Hsz Hrn Hts Htl Hrt offset _ Himm base Hal stored.
  unfold VisitLoadStorePreIndex, VisitLoadStorePostIndex. rewrite Himm. fold offset.
  assert (Hal0 : GetRn st <> 31 \/ base mod 16 = 0) by (destruct Hal as [?|[? ?]]; auto).
  pose proof (AddressModeHelper_run (GetRn st) offset PreIndex sim Hal0) as Haddr.
  cbv zeta in Haddr. fold base in Haddr.
  rewrite (LoadStoreHelper_store_run st offset PreIndex sim T wide _ _ Hst Hty Haddr).
  match goal with |- exists s1 s2, Done ?s = Done s1 /\ _ => set (sim1 := s) end.
  assert (Hbase1 : uint64 (ReadXRegister (GetRn ld) Reg31IsStackPointer (registers_ sim1))
                   = uint64 (base + offset)).
  { subst sim1. unfold Write. cbn [registers_ set_local_monitor log_event set_registers].
    rewrite Hrn. rewrite ReadXRegister_WriteXRegister by (apply andb_false_r).
    rewrite uint64_int64. unfold uint64. apply Z.mod_mod. lia. }
  assert (Hal1 : GetRn ld <> 31 \/
                 uint64 (ReadXRegister (GetRn ld) Reg31IsStackPointer (registers_ sim1))
                   mod 16 = 0).
  { rewrite Hbase1. destruct Hal as [Hne | [Hb Ho]]; [left; congruence | right].
    unfold uint64. rewrite (Z.mod_mod_divide _ (2 ^ 64) 16) by (exists (2 ^ 60); reflexivity).
    rewrite Z.add_mod, Hb, Ho by lia. reflexivity. }
  pose proof (AddressModeHelper_run (GetRn ld) (- offset) PostIndex sim1 Hal1) as Haddr1.
  cbv zeta in Haddr1. rewrite Hbase1 in Haddr1.
  assert (Hzr := not_zero_register (GetRt ld) Hrt).
  assert (Hmem : memory_ sim1 = MemoryWrite T (uint64 (base + offset)) stored (memory_ sim)).
  { subst sim1. unfold Write. cbn [registers_ memory_ set_local_monitor log_event set_registers].
    apply MemoryWrite_congr; [reflexivity|].
    rewrite (stored_register_mod (LoadStoreMask st) T wide _ _ Hty).
    subst stored. destruct (GetRt st =? 31); [reflexivity|].
    now rewrite WriteXRegister_other. }
  assert (Hregs1 : forall code, code <> GetRn st ->
                                registers_ sim1 code = registers_ sim code).
  { intros code Hne. subst sim1. unfold Write.
    cbn [registers_ set_local_monitor log_event set_registers].
    now apply WriteXRegister_other. }
  clearbody sim1.
  exists sim1. eexists. split; [reflexivity|].
  rewrite (LoadStoreHelper_load_run ld (- offset) PostIndex sim1 TL wide_l _ _
             Hld Htyl Haddr1).
  split; [reflexivity|].
  cbn [registers_ memory_ set_local_monitor set_registers log_event].
  rewrite Hmem, MemoryRead_MemoryWrite_same_size by assumption.
  split; [|split; [|split; [|reflexivity]]].
  - destruct wide_l; [apply WriteXRegister_slot | apply WriteWRegister_slot]; assumption.
  - transitivity (WriteXRegister (GetRn ld) (uint64 (uint64 (base + offset) + - offset))
                    Reg31IsStackPointer (registers_ sim1) (GetRn st)).
    + destruct wide_l; [apply WriteXRegister_other | apply WriteWRegister_other]; congruence.
    + rewrite Hrn, WriteXRegister_slot by (apply andb_false_r).
      unfold uint64. rewrite Z.mod_mod by lia.
      rewrite Zplus_mod_idemp_l.
      replace (base + offset + - offset) with base by lia.
      subst base. unfold uint64. apply Z.mod_mod. lia.
  - intros code Hne1 Hne2. rewrite <- Hregs1 by assumption.
    transitivity (WriteXRegister (GetRn ld) (uint64 (uint64 (base + offset) + - offset))
                    Reg31IsStackPointer (registers_ sim1) code).
    + destruct wide_l; [apply WriteXRegister_other | apply WriteWRegister_other]; assumption.
    + apply WriteXRegister_other. congruence.
Qed.

End StoreProperties.

(** ** Exclusive, acquire and release accesses in sequence *)

Lemma MemoryRead_unsigned_range (T : CType) (address : Z) (m : MemoryBytes) :
  is_signed T = false ->
  0 <= MemoryRead T address m < 2 ^ (8 * sizeof T).
Proof.
  intros Hu. unfold MemoryRead, cast. rewrite Hu.
  apply Z.mod_pos_bound. apply Z.pow_pos_nonneg; pose proof (sizeof_pos T); lia.
Qed.

Section ExclusiveSequences.
Context `{Collaborators}.

Lemma LoadExclusiveSwitch_run (op : LoadStoreExclusive) (T : CType) (pair : bool)
    (rt rt2 address element_size : Z) (sim : Simulator) :
  let address2 := uint64 (address + element_size) in
  LoadExclusiveElementType op = Some (T, pair) ->
  exists sim',
    LoadExclusiveSwitch op rt rt2 address element_size sim = Done sim' /\
    (rt <> 31 -> pair = false \/ rt2 <> rt ->
     registers_ sim' rt = MemoryRead T address (memory_ sim)) /\
    (pair = true -> rt2 <> 31 ->
     registers_ sim' rt2 = MemoryRead T address2 (memory_ sim)) /\
    (forall code, code <> rt -> pair = false \/ code <> rt2 ->
                  registers_ sim' code = registers_ sim code) /\
    memory_ sim' = memory_ sim /\
    trace_ sim' =
      (if pair then [EvRead address2 (sizeof T)] else [])
      ++ EvRead address (sizeof T) :: trace_ sim /\
    local_monitor_ sim' = local_monitor_ sim /\
    global_monitor_ sim' = global_monitor_ sim.
Proof.
  intros address2 Hop.
  assert (Hrange : forall U a, is_signed U = false -> sizeof U <= 4 ->
            MemoryRead U a (memory_ sim) mod 2 ^ 32 = MemoryRead U a (memory_ sim)).
  { intros U a Hu Hs. apply Z.mod_small.
    pose proof (MemoryRead_unsigned_range U a (memory_ sim) Hu) as Hr.
    assert (2 ^ (8 * sizeof U) <= 2 ^ 32)
      by (apply Z.pow_le_mono_r; pose proof (sizeof_pos U); lia).
    lia. }
  assert (Hrange64 : forall a,
            MemoryRead uint64_t a (memory_ sim) mod 2 ^ 64 = MemoryRead uint64_t a (memory_ sim)).
  { intros a. apply Z.mod_small. now apply (MemoryRead_unsigned_range uint64_t). }
  destruct op; try discriminate Hop.
  all: injection Hop as <- <-.
  all: cbn [LoadExclusiveSwitch]; fold address2.
  all: eexists; (split; [reflexivity|]).
  all: unfold Read;
    cbn [registers_ memory_ trace_ local_monitor_ global_monitor_
         set_registers log_event app].
  all: (split; [|split; [|split; [|split; [|split; [|split]]]]]).
  all: try reflexivity.
  all: try (intros Hp; discriminate Hp).
  all: try (intros Hrt _;
            first [ rewrite WriteXRegister_slot by (now apply not_zero_register);
                    now apply Hrange64
                  | rewrite WriteWRegister_slot by (now apply not_zero_register);
                    now apply Hrange ]).
  all: try (intros code Hc _;
            first [ now apply WriteXRegister_other | now apply WriteWRegister_other ]).
  (* the pairs *)
  all: try (intros Hrt [Hp | Hne]; [discriminate Hp|];
            first [ rewrite WriteXRegister_other by (intros E; apply Hne; now rewrite E);
                    rewrite WriteXRegister_slot by (now apply not_zero_register);
                    now apply Hrange64
                  | rewrite WriteWRegister_other by (intros E; apply Hne; now rewrite E);
                    rewrite WriteWRegister_slot by (now apply not_zero_register);
                    now apply Hrange ]).
  all: try (intros _ Hrt2;
            first [ rewrite WriteXRegister_slot by (now apply not_zero_register);
                    now apply Hrange64
                  | rewrite WriteWRegister_slot by (now apply not_zero_register);
                    now apply Hrange ]).
  all: try (intros code Hc [Hp | Hne]; [discriminate Hp|];
            first [ now rewrite !WriteXRegister_other by assumption
                  | now rewrite !WriteWRegister_other by assumption ]).
Qed.

(** A load of [VisitLoadStoreExclusive] with a valid access: the local
    monitor is marked or cleared, the switch performs the reads, and the
    barrier of an acquiring load comes last. *)
Lemma VisitLoadStoreExclusive_load_run (instr : Instruction) (sim : Simulator)
    (T : CType) (pair : bool) :
  let element_size := Z.shiftl 1 (GetLdStXSizeLog2 instr) in
  let access_size := if GetLdStXPair instr then element_size * 2 else element_size in
  let address :=
    ReadRegister uint64_t (GetRn instr) Reg31IsStackPointer (registers_ sim) in
  let is_exclusive := negb (GetLdStXNotExclusive instr) in
  let acquire := negb is_exclusive || GetLdStXAcquireRelease instr in
  let sim0 :=
    if is_exclusive
    then set_local_monitor (LocalMarkExclusive address access_size) sim
    else set_local_monitor LocalClear sim in
  LoadExclusiveElementType (LoadStoreExclusiveMask instr) = Some (T, pair) ->
  GetLdStXLoad instr = true ->
  AtomicAccessIsValid (GetRn instr) address access_size = true ->
  VisitLoadStoreExclusive instr sim =
  (sim1 <- LoadExclusiveSwitch (LoadStoreExclusiveMask instr) (GetRt instr) (GetRt2 instr)
             address element_size sim0 ;;
   Done (fence_if acquire sim1)).
Proof.
  intros element_size access_size address is_exclusive acquire sim0 Hop Hload Hvalid.
  unfold VisitLoadStoreExclusive, CheckIsValidUnalignedAtomicAccess.
  fold element_size access_size address. rewrite Hvalid, Hload. cbn [bind].
  fold is_exclusive. fold sim0. fold acquire.
  destruct (LoadStoreExclusiveMask instr); try discriminate Hop; reflexivity.
Qed.

(** X18.  The loads of [VisitLoadStoreExclusive], exclusive or load-acquire.
    Rt receives the element at the address, zero-extended, and for a pair Rt2
    the element after it; memory is only read.  The barrier of an acquiring
    load comes after the reads.  An exclusive load leaves the reservation
    (address, access size) in the local monitor, a load-acquire that is not
    exclusive leaves none; the global monitor is not touched. *)
Theorem VisitLoadStoreExclusive_load (instr : Instruction) (sim : Simulator)
    (T : CType) (pair : bool) :
  let rt := GetRt instr in
  let rt2 := GetRt2 instr in
  let element_size := Z.shiftl 1 (GetLdStXSizeLog2 instr) in
  let access_size := if GetLdStXPair instr then element_size * 2 else element_size in
  let address :=
    ReadRegister uint64_t (GetRn instr) Reg31IsStackPointer (registers_ sim) in
  let address2 := uint64 (address + element_size) in
  let is_exclusive := negb (GetLdStXNotExclusive instr) in
  let acquire := negb is_exclusive || GetLdStXAcquireRelease instr in
  LoadExclusiveElementType (LoadStoreExclusiveMask instr) = Some (T, pair) ->
  GetLdStXLoad instr = true ->
  AtomicAccessIsValid (GetRn instr) address access_size = true ->
  exists sim',
    VisitLoadStoreExclusive instr sim = Done sim' /\
    (rt <> 31 -> pair = false \/ rt2 <> rt ->
     registers_ sim' rt = MemoryRead T address (memory_ sim)) /\
    (pair = true -> rt2 <> 31 ->
     registers_ sim' rt2 = MemoryRead T address2 (memory_ sim)) /\
    (forall code, code <> rt -> pair = false \/ code <> rt2 ->
                  registers_ sim' code = registers_ sim code) /\
    memory_ sim' = memory_ sim /\
    trace_ sim' =
      fence_events acquire
      ++ (if pair then [EvRead address2 (sizeof T)] else [])
      ++ EvRead address (sizeof T) :: trace_ sim /\
    reservation_ (local_monitor_ sim') =
      (if is_exclusive then Some (address, access_size) else None) /\
    global_monitor_ sim' = global_monitor_ sim.
Proof.
  intros rt rt2 element_size access_size address address2 is_exclusive acquire
    Hop Hload Hvalid.
  rewrite (VisitLoadStoreExclusive_load_run instr sim T pair Hop Hload Hvalid).
  fold rt rt2 element_size access_size address is_exclusive acquire.
  set (sim0 := if is_exclusive
               then set_local_monitor (LocalMarkExclusive address access_size) sim
               else set_local_monitor LocalClear sim).
  destruct (LoadExclusiveSwitch_run (LoadStoreExclusiveMask instr) T pair rt rt2 address
              element_size sim0 Hop)
    as (sim1 & Hrun & Hrt & Hrt2 & Hother & Hmem & Htrace & Hlocal & Hglobal).
  fold address2 in Hrt2, Htrace.
  assert (Hsim0 : registers_ sim0 = registers_ sim /\ memory_ sim0 = memory_ sim /\
                  trace_ sim0 = trace_ sim /\ global_monitor_ sim0 = global_monitor_ sim /\
                  reservation_ (local_monitor_ sim0) =
                    (if is_exclusive then Some (address, access_size) else None)).
  { subst sim0. destruct is_exclusive; repeat split; reflexivity. }
  destruct Hsim0 as (Hr0 & Hm0 & Ht0 & Hg0 & Hl0).
  rewrite Hm0 in Hrt, Hrt2, Hmem. rewrite Hr0 in Hother. rewrite Ht0 in Htrace.
  rewrite Hg0 in Hglobal.
  rewrite Hrun. cbn [bind].
  exists (fence_if acquire sim1). split; [reflexivity|].
  assert (Hf : registers_ (fence_if acquire sim1) = registers_ sim1 /\
               memory_ (fence_if acquire sim1) = memory_ sim1 /\
               trace_ (fence_if acquire sim1) = fence_events acquire ++ trace_ sim1 /\
               local_monitor_ (fence_if acquire sim1) = local_monitor_ sim1 /\
               global_monitor_ (fence_if acquire sim1) = global_monitor_ sim1).
  { destruct acquire; repeat split; reflexivity. }
  destruct Hf as (-> & -> & -> & -> & ->).
  rewrite Htrace, Hlocal.
  split; [exact Hrt|]. split; [exact Hrt2|]. split; [exact Hother|].
  split; [exact Hmem|]. split; [reflexivity|]. split; [exact Hl0 | exact Hglobal].
Qed.

End ExclusiveSequences.

(** A value that fits the element type is stored in the slot as it is. *)
Lemma WriteRegister_slot_small (T : CType) (code value : Z) (r31mode : Reg31Mode)
    (registers : RegisterFile) :
  (code =? 31) && is_zero_mode r31mode = false ->
  0 <= value < 2 ^ (8 * sizeof T) ->
  WriteRegister T code value r31mode registers code = value.
Proof.
  intros Hc Hv. unfold WriteRegister. rewrite Hc. cbv beta. rewrite Z.eqb_refl.
  pose proof (sizeof_pos T) as Hpos.
  destruct (Z.ltb_spec (sizeof T) 4) as [Hlt|Hge].
  - assert (2 ^ (8 * sizeof T) <= 2 ^ 24) by (apply Z.pow_le_mono_r; lia).
    unfold uint32, int32, to_signed.
    rewrite (Z.mod_small value (2 ^ 32)) by lia.
    replace (value <? 2 ^ (32 - 1)) with true by (symmetry; apply Z.ltb_lt; lia).
    apply Z.mod_small. lia.
  - now apply Z.mod_small.
Qed.

Section MonitorSequences.
Context `{Collaborators}.

(** X19.  CLREX drops the reservation, so an exclusive store that follows it
    fails whatever the address: the status register receives 1, memory is
    left alone, nothing is written, and the global monitor is not even
    asked. *)
Theorem clear_exclusive_then_store_exclusive (clrex st : Instruction) (sim : Simulator)
    (T : CType) (pair : bool) :
  let element_size := Z.shiftl 1 (GetLdStXSizeLog2 st) in
  let access_size := if GetLdStXPair st then element_size * 2 else element_size in
  let address := ReadRegister uint64_t (GetRn st) Reg31IsStackPointer (registers_ sim) in
  SystemMask clrex = IsSystemExclusiveMonitor ->
  StoreExclusiveElementType (LoadStoreExclusiveMask st) = Some (T, pair) ->
  GetLdStXLoad st = false ->
  GetLdStXNotExclusive st = false ->
  AtomicAccessIsValid (GetRn st) address access_size = true ->
  exists sim1 sim2,
    VisitSystem clrex sim = Done sim1 /\
    VisitLoadStoreExclusive st sim1 = Done sim2 /\
    registers_ sim2 = WriteWRegister (GetRs st) 1 Reg31IsZeroRegister (registers_ sim) /\
    memory_ sim2 = memory_ sim /\
    trace_ sim2 = fence_events (GetLdStXAcquireRelease st) ++ trace_ sim /\
    global_monitor_ sim2 = global_monitor_ sim.
Proof.
  intros element_size access_size address Hclrex Hop Hload Hexcl Hvalid.
  unfold VisitSystem. rewrite Hclrex.
  set (sim1 := set_local_monitor LocalClear sim).
  destruct (StoreExclusive_run T pair st sim1 Hop Hload Hexcl Hvalid)
    as (sim2 & Hrun & Hregs & Hmem & Htrace & _ & Hglobal).
  exists sim1, sim2. split; [reflexivity|]. split; [exact Hrun|].
  rewrite Hregs, Hmem, Htrace, Hglobal.
  split; [|split; [|split]]; reflexivity.
Qed.

(** X20.  An exclusive load followed by an exclusive store to the same
    address with the same access size passes the local monitor, so the store
    succeeds exactly when the global monitor grants it: the status register
    then receives 0 and memory is written; otherwise it receives 1 and memory
    is as before the pair of instructions. *)
Theorem load_exclusive_then_store_exclusive (ld st : Instruction) (sim : Simulator)
    (TL T : CType) (pair_l pair : bool) :
  let element_size := Z.shiftl 1 (GetLdStXSizeLog2 ld) in
  let access_size := if GetLdStXPair ld then element_size * 2 else element_size in
  let address := ReadRegister uint64_t (GetRn ld) Reg31IsStackPointer (registers_ sim) in
  let address2 := uint64 (address + element_size) in
  let pass := fst (GlobalIsExclusive address access_size (global_monitor_ sim)) in
  LoadExclusiveElementType (LoadStoreExclusiveMask ld) = Some (TL, pair_l) ->
  GetLdStXLoad ld = true ->
  GetLdStXNotExclusive ld = false ->
  StoreExclusiveElementType (LoadStoreExclusiveMask st) = Some (T, pair) ->
  GetLdStXLoad st = false ->
  GetLdStXNotExclusive st = false ->
  GetRn st = GetRn ld ->
  GetLdStXSizeLog2 st = GetLdStXSizeLog2 ld ->
  GetLdStXPair st = GetLdStXPair ld ->
  GetRt ld <> GetRn ld ->
  GetRt2 ld <> GetRn ld ->
  AtomicAccessIsValid (GetRn ld) address access_size = true ->
  exists sim1 sim2,
    VisitLoadStoreExclusive ld sim = Done sim1 /\
    VisitLoadStoreExclusive st sim1 = Done sim2 /\
    registers_ sim2 =
      WriteWRegister (GetRs st) (if pass then 0 else 1) Reg31IsZeroRegister
        (registers_ sim1) /\
    (let value code := ReadRegister T code Reg31IsZeroRegister (registers_ sim2) in
     memory_ sim2 =
       if pass then
         let m := MemoryWrite T address (value (GetRt st)) (memory_ sim) in
         if pair then MemoryWrite T address2 (value (GetRt2 st)) m else m
       else memory_ sim) /\
    reservation_ (local_monitor_ sim2) = None.
Proof.
  intros element_size access_size address address2 pass
    Hopl Hloadl Hexcll Hop Hload Hexcl Hrn Hsize Hpair Hrt Hrt2 Hvalid.
  pose proof (VisitLoadStoreExclusive_load_run ld sim TL pair_l Hopl Hloadl Hvalid)
    as Hrun1.
  cbv zeta in Hrun1. fold element_size access_size address in Hrun1.
  rewrite Hexcll in Hrun1. cbn [negb orb] in Hrun1.
  destruct (LoadExclusiveSwitch_run (LoadStoreExclusiveMask ld) TL pair_l (GetRt ld)
              (GetRt2 ld) address element_size
              (set_local_monitor (LocalMarkExclusive address access_size) sim) Hopl)
    as (sim0 & Hswitch & _ & _ & Hother & Hmem1 & _ & Hres & Hglobal1).
  rewrite Hswitch in Hrun1. cbn [bind] in Hrun1.
  set (sim1 := fence_if (GetLdStXAcquireRelease ld) sim0) in Hrun1.
  assert (Hf : registers_ sim1 = registers_ sim0 /\ memory_ sim1 = memory_ sim0 /\
               local_monitor_ sim1 = local_monitor_ sim0 /\
               global_monitor_ sim1 = global_monitor_ sim0).
  { subst sim1. destruct (GetLdStXAcquireRelease ld); repeat split; reflexivity. }
  destruct Hf as (Hfr & Hfm & Hfl & Hfg).
  rewrite <- Hfr in Hother. rewrite <- Hfm in Hmem1. rewrite <- Hfl in Hres.
  rewrite <- Hfg in Hglobal1.
  cbn [registers_ memory_ local_monitor_ global_monitor_ set_local_monitor
       LocalMarkExclusive reservation_] in Hother, Hmem1, Hres, Hglobal1.
  apply (f_equal reservation_) in Hres. cbn [reservation_ LocalMarkExclusive] in Hres.
  clearbody sim1.
  assert (Haddr : ReadRegister uint64_t (GetRn st) Reg31IsStackPointer (registers_ sim1)
                  = address).
  { subst address. rewrite Hrn. unfold ReadRegister.
    rewrite (Hother (GetRn ld)); [reflexivity | congruence | right; congruence]. }
  assert (Hvalid1 :
    AtomicAccessIsValid (GetRn st)
      (ReadRegister uint64_t (GetRn st) Reg31IsStackPointer (registers_ sim1))
      (if GetLdStXPair st
       then Z.shiftl 1 (GetLdStXSizeLog2 st) * 2
       else Z.shiftl 1 (GetLdStXSizeLog2 st)) = true).
  { rewrite Haddr, Hrn, Hsize, Hpair. exact Hvalid. }
  destruct (StoreExclusive_run T pair st sim1 Hop Hload Hexcl Hvalid1)
    as (sim2 & Hrun2 & Hregs & Hmem & _ & Hres2 & _).
  rewrite Haddr, Hsize, Hpair in Hregs, Hmem.
  fold element_size access_size in Hregs, Hmem. fold address2 in Hmem.
  assert (Hlocal : LocalIsExclusive address access_size (local_monitor_ sim1) = true).
  { unfold LocalIsExclusive. rewrite Hres. now rewrite !Z.eqb_refl. }
  rewrite Hlocal, Hglobal1 in Hregs, Hmem. cbn [andb] in Hregs, Hmem.
  fold pass in Hregs, Hmem. rewrite Hmem1 in Hmem.
  exists sim1, sim2. split; [exact Hrun1|]. split; [exact Hrun2|].
  split; [exact Hregs|]. split; [|exact Hres2].
  cbv zeta. rewrite Hregs. exact Hmem.
Qed.

(** X21.  A store-release that is not exclusive is always performed: it
    issues the barrier and then the write of the low bytes of Rt, writes no
    status register and does not ask the global monitor.  The local monitor
    either keeps its reservation or loses it. *)
Theorem store_release_always_stores (instr : Instruction) (sim : Simulator) (T : CType) :
  let element_size := Z.shiftl 1 (GetLdStXSizeLog2 instr) in
  let access_size := if GetLdStXPair instr then element_size * 2 else element_size in
  let address :=
    ReadRegister uint64_t (GetRn instr) Reg31IsStackPointer (registers_ sim) in
  let value := ReadRegister T (GetRt instr) Reg31IsZeroRegister (registers_ sim) in
  StoreReleaseElementType (LoadStoreExclusiveMask instr) = Some T ->
  GetLdStXLoad instr = false ->
  GetLdStXNotExclusive instr = true ->
  AtomicAccessIsValid (GetRn instr) address access_size = true ->
  exists sim',
    VisitLoadStoreExclusive instr sim = Done sim' /\
    registers_ sim' = registers_ sim /\
    memory_ sim' = MemoryWrite T address value (memory_ sim) /\
    trace_ sim' = EvWrite address (sizeof T) value :: EvFence :: trace_ sim /\
    (reservation_ (local_monitor_ sim') = None \/
     reservation_ (local_monitor_ sim') = reservation_ (local_monitor_ sim)) /\
    global_monitor_ sim' = global_monitor_ sim.
Proof.
  intros element_size access_size address value Hop Hload Hexcl Hvalid.
  assert (Hres : reservation_ (LocalMaybeClear (local_monitor_ sim)) = None \/
                 reservation_ (LocalMaybeClear (local_monitor_ sim)) =
                 reservation_ (local_monitor_ sim)).
  { unfold LocalMaybeClear. destruct (MaybeClearSkips (seed_ (local_monitor_ sim))) as [[|] seed];
      cbn [reservation_]; auto. }
  destruct (LoadStoreExclusiveMask instr) eqn:Hmask; try discriminate Hop.
  all: injection Hop as <-.
  all: unfold VisitLoadStoreExclusive, CheckIsValidUnalignedAtomicAccess;
    rewrite Hmask, Hload, Hexcl; cbn [negb orb];
    fold element_size access_size address; rewrite Hvalid;
    cbn [bind fence_if sync_synchronize StoreExclusiveSwitch].
  all: eexists; (split; [reflexivity|]).
  all: unfold Write;
    cbn [registers_ memory_ trace_ local_monitor_ global_monitor_
         set_registers set_local_monitor log_event].
  all: subst value; unfold ReadWRegister, ReadXRegister;
    rewrite ?(MemoryWrite_ReadRegister _ int32_t),
      ?(MemoryWrite_ReadRegister _ int64_t),
      ?(ReadRegister_mod _ int32_t),
      ?(ReadRegister_mod _ int64_t) by (reflexivity || discriminate).
  all: (split; [reflexivity|]); (split; [reflexivity|]); (split; [reflexivity|]);
    (split; [exact Hres | reflexivity]).
Qed.

(** X22.  LDAPR loads the element at the address into Rt, zero-extended,
    and then issues the barrier.  Memory is only read and neither monitor is
    touched, so a reservation survives it. *)
Theorem LoadAcquireRCpc_spec (instr : Instruction) (sim : Simulator) (sz : AtomicSize) :
  let U := unsigned_type sz in
  let address :=
    ReadRegister uint64_t (GetRn instr) Reg31IsStackPointer (registers_ sim) in
  AtomicMemoryMask instr = LDAPR sz ->
  AtomicAccessIsValid (GetRn instr) address (sizeof U) = true ->
  exists sim',
    VisitAtomicMemory instr sim = Done sim' /\
    (GetRt instr <> 31 ->
     registers_ sim' (GetRt instr) = MemoryRead U address (memory_ sim)) /\
    (forall code, code <> GetRt instr -> registers_ sim' code = registers_ sim code) /\
    memory_ sim' = memory_ sim /\
    trace_ sim' = EvFence :: EvRead address (sizeof U) :: trace_ sim /\
    local_monitor_ sim' = local_monitor_ sim /\
    global_monitor_ sim' = global_monitor_ sim.
Proof.
  intros U address Hop Hvalid.
  unfold VisitAtomicMemory. rewrite Hop. fold U.
  unfold LoadAcquireRCpcHelper, CheckIsValidUnalignedAtomicAccess.
  fold address. rewrite Hvalid. cbn [bind].
  eexists. split; [reflexivity|].
  unfold Read, sync_synchronize.
  cbn [registers_ memory_ trace_ local_monitor_ global_monitor_ set_registers log_event].
  split; [|split; [|split; [|split; [|split]]]]; try reflexivity.
  - intros Hrt. apply WriteRegister_slot_small; [now apply not_zero_register|].
    apply MemoryRead_unsigned_range. subst U. now destruct sz.
  - intros code Hne. apply Z.eqb_neq in Hne. unfold WriteRegister.
    destruct ((GetRt instr =? 31) && is_zero_mode Reg31IsZeroRegister);
      cbv beta; now rewrite ?Hne.
Qed.

End MonitorSequences.

(** ** Flag manipulation *)

Lemma GetN_01 (r : SimSystemRegister) : GetN r = 0 \/ GetN r = 1.
Proof. unfold GetN, N_offset. rewrite ExtractBits_bit by lia. apply b2z_01. Qed.

Lemma GetZ_01 (r : SimSystemRegister) : GetZ r = 0 \/ GetZ r = 1.
Proof. unfold GetZ, Z_offset. rewrite ExtractBits_bit by lia. apply b2z_01. Qed.

Lemma GetV_01 (r : SimSystemRegister) : GetV r = 0 \/ GetV r = 1.
Proof. unfold GetV, V_offset. rewrite ExtractBits_bit by lia. apply b2z_01. Qed.

(** Reading the four flags after one of them has been set. *)
Lemma flags_after_SetN (b : Z) (r : SimSystemRegister) :
  b = 0 \/ b = 1 ->
  GetN (SetN b r) = b /\ GetZ (SetN b r) = GetZ r /\
  GetC (SetN b r) = GetC r /\ GetV (SetN b r) = GetV r.
Proof.
  intros Hb. unfold GetN, GetZ, GetC, GetV, SetN, N_offset, Z_offset, C_offset, V_offset.
  rewrite ExtractBits_SetBits_same, !ExtractBits_SetBits_other by (assumption || lia).
  auto.
Qed.

Lemma flags_after_SetZ (b : Z) (r : SimSystemRegister) :
  b = 0 \/ b = 1 ->
  GetN (SetZ b r) = GetN r /\ GetZ (SetZ b r) = b /\
  GetC (SetZ b r) = GetC r /\ GetV (SetZ b r) = GetV r.
Proof.
  intros Hb. unfold GetN, GetZ, GetC, GetV, SetZ, N_offset, Z_offset, C_offset, V_offset.
  rewrite ExtractBits_SetBits_same, !ExtractBits_SetBits_other by (assumption || lia).
  auto.
Qed.

Lemma flags_after_SetC (b : Z) (r : SimSystemRegister) :
  b = 0 \/ b = 1 ->
  GetN (SetC b r) = GetN r /\ GetZ (SetC b r) = GetZ r /\
  GetC (SetC b r) = b /\ GetV (SetC b r) = GetV r.
Proof.
  intros Hb. unfold GetN, GetZ, GetC, GetV, SetC, N_offset, Z_offset, C_offset, V_offset.
  rewrite ExtractBits_SetBits_same, !ExtractBits_SetBits_other by (assumption || lia).
  auto.
Qed.

Lemma flags_after_SetV (b : Z) (r : SimSystemRegister) :
  b = 0 \/ b = 1 ->
  GetN (SetV b r) = GetN r /\ GetZ (SetV b r) = GetZ r /\
  GetC (SetV b r) = GetC r /\ GetV (SetV b r) = b.
Proof.
  intros Hb. unfold GetN, GetZ, GetC, GetV, SetV, N_offset, Z_offset, C_offset, V_offset.
  rewrite ExtractBits_SetBits_same, !ExtractBits_SetBits_other by (assumption || lia).
  auto.
Qed.

Section FlagProperties.
Context `{Collaborators}.

(** X23.  CFINV inverts the carry flag and leaves N, Z and V alone, so two
    CFINV in a row restore the four flags. *)
Theorem CFINV_inverts_carry (instr : Instruction) (sim : Simulator) :
  SystemMask instr = IsSystemPState CFINV ->
  exists sim1 sim2,
    VisitSystem instr sim = Done sim1 /\
    VisitSystem instr sim1 = Done sim2 /\
    GetC (nzcv_ sim1) = 1 - GetC (nzcv_ sim) /\
    GetN (nzcv_ sim1) = GetN (nzcv_ sim) /\
    GetZ (nzcv_ sim1) = GetZ (nzcv_ sim) /\
    GetV (nzcv_ sim1) = GetV (nzcv_ sim) /\
    GetC (nzcv_ sim2) = GetC (nzcv_ sim) /\
    GetN (nzcv_ sim2) = GetN (nzcv_ sim) /\
    GetZ (nzcv_ sim2) = GetZ (nzcv_ sim) /\
    GetV (nzcv_ sim2) = GetV (nzcv_ sim) /\
    registers_ sim2 = registers_ sim /\
    memory_ sim2 = memory_ sim.
Proof.
  intros Hop. unfold VisitSystem. rewrite Hop.
  eexists. eexists. split; [reflexivity|]. split; [reflexivity|].
  cbn [nzcv_ registers_ memory_ set_nzcv].
  set (r := nzcv_ sim).
  set (b := if GetC r =? 0 then 1 else 0).
  assert (Hb : b = 0 \/ b = 1) by (subst b; destruct (GetC r =? 0); auto).
  destruct (flags_after_SetC b r Hb) as (HN1 & HZ1 & HC1 & HV1).
  set (r1 := SetC b r) in *.
  set (b1 := if GetC r1 =? 0 then 1 else 0).
  assert (Hb1 : b1 = 0 \/ b1 = 1) by (subst b1; destruct (GetC r1 =? 0); auto).
  destruct (flags_after_SetC b1 r1 Hb1) as (HN2 & HZ2 & HC2 & HV2).
  rewrite HN2, HZ2, HC2, HV2, HN1, HZ1, HC1, HV1.
  assert (Hbv : b = 1 - GetC r).
  { subst b. destruct (GetC_01 r) as [-> | ->]; reflexivity. }
  assert (Hb1v : b1 = GetC r).
  { subst b1. rewrite HC1, Hbv. destruct (GetC_01 r) as [-> | ->]; reflexivity. }
  rewrite Hb1v, Hbv.
  repeat (split; [reflexivity|]). reflexivity.
Qed.

(** X24.  AXFLAG and XAFLAG convert between the two flag formats.  Both
    compute the new flags from the flags before the instruction: AXFLAG
    clears N and V and leaves Z or V in Z and C and not V in C, though it
    updates the register one flag at a time; XAFLAG leaves not C and not Z in
    N, Z and C in Z, C or Z in C and Z and not C in V. *)
Theorem flag_format_conversion (instr : Instruction) (sim : Simulator) :
  let flag get := negb (get (nzcv_ sim) =? 0) in
  (SystemMask instr = IsSystemPState AXFLAG ->
   exists sim',
     VisitSystem instr sim = Done sim' /\
     GetN (nzcv_ sim') = 0 /\
     GetZ (nzcv_ sim') = Z.b2z (flag GetZ || flag GetV) /\
     GetC (nzcv_ sim') = Z.b2z (flag GetC && negb (flag GetV)) /\
     GetV (nzcv_ sim') = 0) /\
  (SystemMask instr = IsSystemPState XAFLAG ->
   exists sim',
     VisitSystem instr sim = Done sim' /\
     GetN (nzcv_ sim') = Z.b2z (negb (flag GetC) && negb (flag GetZ)) /\
     GetZ (nzcv_ sim') = Z.b2z (flag GetZ && flag GetC) /\
     GetC (nzcv_ sim') = Z.b2z (flag GetC || flag GetZ) /\
     GetV (nzcv_ sim') = Z.b2z (negb (flag GetC) && flag GetZ)).
Proof.
  intros flag. set (r := nzcv_ sim) in *.
  split; intros Hop; unfold VisitSystem; rewrite Hop;
    (eexists; split; [reflexivity|]); cbn [nzcv_ set_nzcv]; fold r.
  - destruct (flags_after_SetN 0 r (or_introl Logic.eq_refl)) as (HN1 & HZ1 & HC1 & HV1).
    set (r1 := SetN 0 r) in *.
    set (z := Z.lor (GetZ r1) (GetV r1)).
    assert (Hz : z = Z.b2z (flag GetZ || flag GetV)).
    { subst z flag. rewrite HZ1, HV1. cbv beta.
      destruct (GetZ_01 r) as [-> | ->]; destruct (GetV_01 r) as [-> | ->]; reflexivity. }
    destruct (flags_after_SetZ z r1) as (HN2 & HZ2 & HC2 & HV2);
      [rewrite Hz; apply b2z_01|].
    set (r2 := SetZ z r1) in *.
    set (c := Z.land (GetC r2) (uint32 (Z.lnot (GetV r2)))).
    assert (Hc : c = Z.b2z (flag GetC && negb (flag GetV))).
    { subst c flag. rewrite HC2, HV2, HC1, HV1. cbv beta.
      destruct (GetC_01 r) as [-> | ->]; destruct (GetV_01 r) as [-> | ->]; reflexivity. }
    destruct (flags_after_SetC c r2) as (HN3 & HZ3 & HC3 & HV3);
      [rewrite Hc; apply b2z_01|].
    set (r3 := SetC c r2) in *.
    destruct (flags_after_SetV 0 r3 (or_introl Logic.eq_refl)) as (HN4 & HZ4 & HC4 & HV4).
    rewrite HN4, HZ4, HC4, HV4, HN3, HZ3, HC3, HN2, HZ2, HN1, Hz, Hc.
    repeat (split; [reflexivity|]). reflexivity.
  - set (n := Z.land (Z.land (uint32 (Z.lnot (GetC r))) (uint32 (Z.lnot (GetZ r)))) 1).
    set (z := Z.land (GetZ r) (GetC r)).
    set (c := Z.lor (GetC r) (GetZ r)).
    set (v := Z.land (uint32 (Z.lnot (GetC r))) (GetZ r)).
    assert (Hn : n = Z.b2z (negb (flag GetC) && negb (flag GetZ))).
    { subst n flag. cbv beta. fold r.
      destruct (GetC_01 r) as [-> | ->]; destruct (GetZ_01 r) as [-> | ->]; reflexivity. }
    assert (Hz : z = Z.b2z (flag GetZ && flag GetC)).
    { subst z flag. cbv beta. fold r.
      destruct (GetC_01 r) as [-> | ->]; destruct (GetZ_01 r) as [-> | ->]; reflexivity. }
    assert (Hc : c = Z.b2z (flag GetC || flag GetZ)).
    { subst c flag. cbv beta. fold r.
      destruct (GetC_01 r) as [-> | ->]; destruct (GetZ_01 r) as [-> | ->]; reflexivity. }
    assert (Hv : v = Z.b2z (negb (flag GetC) && flag GetZ)).
    { subst v flag. cbv beta. fold r.
      destruct (GetC_01 r) as [-> | ->]; destruct (GetZ_01 r) as [-> | ->]; reflexivity. }
    destruct (flags_after_SetN n r) as (HN1 & HZ1 & HC1 & HV1); [rewrite Hn; apply b2z_01|].
    destruct (flags_after_SetZ z (SetN n r)) as (HN2 & HZ2 & HC2 & HV2);
      [rewrite Hz; apply b2z_01|].
    destruct (flags_after_SetC c (SetZ z (SetN n r))) as (HN3 & HZ3 & HC3 & HV3);
      [rewrite Hc; apply b2z_01|].
    destruct (flags_after_SetV v (SetC c (SetZ z (SetN n r)))) as (HN4 & HZ4 & HC4 & HV4);
      [rewrite Hv; apply b2z_01|].
    rewrite HN4, HZ4, HC4, HV4, HN3, HZ3, HC3, HN2, HZ2, HN1, Hn, Hz, Hc, Hv.
    repeat (split; [reflexivity|]). reflexivity.
Qed.

(** X25.  SETF8 and SETF16 set the flags from the low 8 or 16 bits of Wn:
    N is the top bit of that field, Z tells whether the field is zero and V
    is the top bit exclusive-or the bit above it; C and the registers are
    left alone. *)
Theorem VisitEvaluateIntoFlags_spec (instr : DecodedInstruction) (sim : Simulator) :
  let bits := match EvaluateIntoFlagsMask instr with SETF16 => 16 | _ => 8 end in
  let slot := if GetRn instr =? 31 then 0 else registers_ sim (GetRn instr) in
  exists sim',
    VisitEvaluateIntoFlags instr sim = Done sim' /\
    GetN (nzcv_ sim') = Z.b2z (Z.testbit slot (bits - 1)) /\
    GetZ (nzcv_ sim') = Z.b2z (slot mod 2 ^ bits =? 0) /\
    GetV (nzcv_ sim') = Z.b2z (xorb (Z.testbit slot (bits - 1)) (Z.testbit slot bits)) /\
    GetC (nzcv_ sim') = GetC (nzcv_ sim) /\
    registers_ sim' = registers_ sim /\
    memory_ sim' = memory_ sim.
Proof.
  intros bits slot.
  unfold VisitEvaluateIntoFlags.
  set (msb := match EvaluateIntoFlagsMask instr with SETF16 => 15 | _ => 7 end).
  assert (Hbits : bits = msb + 1 /\ (msb = 7 \/ msb = 15)).
  { subst bits msb. destruct (EvaluateIntoFlagsMask instr); split; auto. }
  destruct Hbits as (Hbits & Hmsb).
  set (value := ReadRegister uint32_t (GetRn instr) Reg31IsZeroRegister (registers_ sim)).
  assert (Hvalue : value = slot mod 2 ^ 32).
  { subst value slot. unfold ReadRegister. cbn [is_zero_mode]. rewrite andb_true_r.
    destruct (GetRn instr =? 31); reflexivity. }
  assert (Hvb : 0 <= value < 2 ^ 32) by (rewrite Hvalue; apply Z.mod_pos_bound; lia).
  assert (Htb : forall i, 0 <= i < 32 -> Z.testbit value i = Z.testbit slot i).
  { intros i Hi. rewrite Hvalue. apply Z.mod_pow2_bits_low. lia. }
  set (sign_bit := Z.land (Z.shiftr value msb) 1).
  set (overflow_bit := Z.land (Z.shiftr value (msb + 1)) 1).
  assert (Hsign : sign_bit = Z.b2z (Z.testbit slot (bits - 1))).
  { subst sign_bit. rewrite land_1_testbit, Htb by lia. do 2 f_equal. lia. }
  assert (Hover : overflow_bit = Z.b2z (Z.testbit slot bits)).
  { subst overflow_bit. rewrite land_1_testbit, Htb by lia. do 2 f_equal. lia. }
  set (zb := if uint32 (Z.shiftl value (31 - msb)) =? 0 then 1 else 0).
  assert (Hzb : zb = Z.b2z (slot mod 2 ^ bits =? 0)).
  { subst zb. unfold uint32. rewrite Z.shiftl_mul_pow2 by lia.
    replace (2 ^ 32) with (2 ^ bits * 2 ^ (31 - msb))
      by (rewrite <- Z.pow_add_r by lia; f_equal; lia).
    rewrite Z.mul_mod_distr_r by (apply Z.pow_nonzero; lia).
    assert (Hp : 0 < 2 ^ (31 - msb)) by (apply Z.pow_pos_nonneg; lia).
    assert (Hm : value mod 2 ^ bits = slot mod 2 ^ bits).
    { rewrite Hvalue. apply mod_pow2_mod_pow2. lia. }
    rewrite Hm.
    destruct (Z.eqb_spec (slot mod 2 ^ bits) 0) as [-> | Hne]; [reflexivity|].
    destruct (Z.eqb_spec (slot mod 2 ^ bits * 2 ^ (31 - msb)) 0); [nia | reflexivity]. }
  set (vb := Z.lxor sign_bit overflow_bit).
  assert (Hvbv : vb = Z.b2z (xorb (Z.testbit slot (bits - 1)) (Z.testbit slot bits))).
  { subst vb. rewrite Hsign, Hover.
    destruct (Z.testbit slot (bits - 1)), (Z.testbit slot bits); reflexivity. }
  eexists. split; [reflexivity|].
  cbn [nzcv_ registers_ memory_ set_nzcv].
  set (r := nzcv_ sim).
  destruct (flags_after_SetN sign_bit r) as (HN1 & HZ1 & HC1 & HV1);
    [rewrite Hsign; apply b2z_01|].
  destruct (flags_after_SetZ zb (SetN sign_bit r)) as (HN2 & HZ2 & HC2 & HV2);
    [rewrite Hzb; apply b2z_01|].
  destruct (flags_after_SetV vb (SetZ zb (SetN sign_bit r))) as (HN3 & HZ3 & HC3 & HV3);
    [rewrite Hvbv; apply b2z_01|].
  rewrite HN3, HZ3, HC3, HV3, HN2, HZ2, HC2, HN1, HC1, Hsign, Hzb, Hvbv.
  repeat (split; [reflexivity|]). reflexivity.
Qed.

End FlagProperties.

(** ** Multiply-add and shifts *)

Lemma uint64_idem_add (a b : Z) : uint64 (uint64 a + uint64 b) = uint64 (a + b).
Proof. unfold uint64. now rewrite <- Z.add_mod by lia. Qed.

Lemma uint64_idem_sub (a b : Z) : uint64 (uint64 a - uint64 b) = uint64 (a - b).
Proof. unfold uint64. now rewrite <- Zminus_mod. Qed.

Lemma uint64_mul (a b : Z) : uint64 (uint64 a * uint64 b) = uint64 (a * b).
Proof. unfold uint64. now rewrite <- Z.mul_mod by lia. Qed.

Section MultiplyProperties.
Context `{Collaborators}.

(** X26.  Multiply-add.  MADD and MSUB write [Ra + Rn * Rm] and
    [Ra - Rn * Rm] wrapped at the register size; the 32-bit forms multiply
    the whole 64-bit slots, and the result only depends on their low halves.
    The long forms multiply the low 32 bits of Rn and Rm, read as signed
    (SMADDL, SMSUBL) or unsigned (UMADDL, UMSUBL) numbers, without overflow,
    and add the product to or subtract it from the 64-bit Ra.  Register 31
    reads as zero. *)
Theorem VisitDataProcessing3Source_spec (instr : DecodedInstruction) (sim : Simulator) :
  GetRd instr <> 31 ->
  DataProcessing3SourceMask instr <> DataProcessing3SourceUnallocated ->
  let reg_size := if GetSixtyFourBits instr then 64 else 32 in
  let reg code := if code =? 31 then 0 else registers_ sim code in
  let rn := reg (GetRn instr) in
  let rm := reg (GetRm instr) in
  let ra := reg (GetRa instr) in
  let value :=
    match DataProcessing3SourceMask instr with
    | MADD_w | MADD_x => ra + rn * rm
    | MSUB_w | MSUB_x => ra - rn * rm
    | SMADDL_x => ra + to_signed 32 rn * to_signed 32 rm
    | SMSUBL_x => ra - to_signed 32 rn * to_signed 32 rm
    | UMADDL_x => ra + (rn mod 2 ^ 32) * (rm mod 2 ^ 32)
    | _ => ra - (rn mod 2 ^ 32) * (rm mod 2 ^ 32)
    end in
  exists sim',
    VisitDataProcessing3Source instr sim = Done sim' /\
    registers_ sim' (GetRd instr) = value mod 2 ^ reg_size /\
    (forall code, code <> GetRd instr -> registers_ sim' code = registers_ sim code) /\
    (GetSixtyFourBits instr = false ->
     registers_ sim' (GetRd instr) =
     match DataProcessing3SourceMask instr with
     | MADD_w | MADD_x => (ra mod 2 ^ 32 + (rn mod 2 ^ 32) * (rm mod 2 ^ 32)) mod 2 ^ 32
     | MSUB_w | MSUB_x => (ra mod 2 ^ 32 - (rn mod 2 ^ 32) * (rm mod 2 ^ 32)) mod 2 ^ 32
     | _ => value mod 2 ^ 32
     end) /\
    nzcv_ sim' = nzcv_ sim /\
    memory_ sim' = memory_ sim.
Proof.
  intros Hrd Hop reg_size reg rn rm ra value.
  assert (Hs : reg_size = 32 \/ reg_size = 64)
    by (subst reg_size; destruct (GetSixtyFourBits instr); auto).
  assert (Hn : 0 <= reg_size <= 64) by (destruct Hs as [-> | ->]; lia).
  assert (Hx : forall code,
            uint64 (ReadXRegister code Reg31IsZeroRegister (registers_ sim)) =
            uint64 (reg code)).
  { intros code. subst reg. unfold ReadXRegister, ReadRegister. cbn [is_zero_mode].
    rewrite andb_true_r. destruct (code =? 31); [reflexivity|].
    change (cast int64_t) with int64. apply uint64_int64. }
  assert (Hu : forall code,
            ReadRegister uint32_t code Reg31IsZeroRegister (registers_ sim) =
            reg code mod 2 ^ 32).
  { intros code. subst reg. unfold ReadRegister. cbn [is_zero_mode].
    rewrite andb_true_r. destruct (code =? 31); reflexivity. }
  assert (Hsg : forall code,
            ReadRegister int32_t code Reg31IsZeroRegister (registers_ sim) =
            to_signed 32 (reg code)).
  { intros code. subst reg. unfold ReadRegister. cbn [is_zero_mode].
    rewrite andb_true_r. destruct (code =? 31); reflexivity. }
  unfold VisitDataProcessing3Source.
  change (if GetSixtyFourBits instr then kXRegSize else kWRegSize) with reg_size.
  rewrite !Hx, !Hu, !Hsg. fold rn rm ra.
  assert (Hres : exists result,
    match DataProcessing3SourceMask instr with
    | MADD_w | MADD_x => Done (uint64 (uint64 ra + uint64 (uint64 rn * uint64 rm)))
    | MSUB_w | MSUB_x => Done (uint64 (uint64 ra - uint64 (uint64 rn * uint64 rm)))
    | SMADDL_x =>
        Done (uint64 (uint64 ra + uint64 (int64 (to_signed 32 rn * to_signed 32 rm))))
    | SMSUBL_x =>
        Done (uint64 (uint64 ra - uint64 (int64 (to_signed 32 rn * to_signed 32 rm))))
    | UMADDL_x => Done (uint64 (uint64 ra + uint64 (rn mod 2 ^ 32 * (rm mod 2 ^ 32))))
    | UMSUBL_x => Done (uint64 (uint64 ra - uint64 (rn mod 2 ^ 32 * (rm mod 2 ^ 32))))
    | DataProcessing3SourceUnallocated => Aborted Unimplemented
    end = Done result /\ result = uint64 value).
  { subst value.
    destruct (DataProcessing3SourceMask instr); try congruence;
      eexists; (split; [reflexivity|]);
      rewrite ?uint64_int64, ?uint64_mul, ?uint64_idem_add, ?uint64_idem_sub;
      reflexivity. }
  destruct Hres as (result & -> & Hresult). cbn [bind].
  eexists. split; [reflexivity|].
  cbn [registers_ nzcv_ memory_ set_registers].
  assert (Hslot : WriteRegisterSized reg_size (GetRd instr) (int64 result)
                    Reg31IsZeroRegister (registers_ sim) (GetRd instr) =
                  value mod 2 ^ reg_size).
  { rewrite WriteRegisterSized_slot by (assumption || now apply not_zero_register).
    rewrite int64_mod_pow2 by assumption.
    rewrite Hresult. apply uint64_mod_pow2. assumption. }
  split; [exact Hslot|].
  split; [intros code Hne; now apply WriteRegisterSized_other|].
  split; [|split; reflexivity].
  intros Hsf. rewrite Hslot. subst reg_size value. rewrite Hsf.
  destruct (DataProcessing3SourceMask instr); try reflexivity.
  - rewrite Z.add_mod, (Z.mul_mod rn rm) by lia. now rewrite Z.add_mod_idemp_r by lia.
  - rewrite Z.add_mod, (Z.mul_mod rn rm) by lia. now rewrite Z.add_mod_idemp_r by lia.
  - rewrite Zminus_mod, (Z.mul_mod rn rm) by lia. now rewrite Zminus_mod_idemp_r.
  - rewrite Zminus_mod, (Z.mul_mod rn rm) by lia. now rewrite Zminus_mod_idemp_r.
Qed.

End MultiplyProperties.

Lemma ShiftOperand_LSL (reg_size value amount : Z) :
  reg_size = 32 \/ reg_size = 64 ->
  0 < amount ->
  ShiftOperand reg_size value LSL amount =
  Some (int64 ((value * 2 ^ amount) mod 2 ^ reg_size)).
Proof.
  intros Hs Ha. unfold ShiftOperand.
  replace (amount =? 0) with false by (symmetry; apply Z.eqb_neq; lia).
  do 2 f_equal.
  rewrite Z.shiftl_mul_pow2 by lia.
  destruct Hs as [-> | ->].
  - change (32 =? kXRegSize) with false. cbv iota. rewrite land_kWRegMask.
    rewrite (uint64_mod_pow2 _ 32) by lia.
    unfold uint64. rewrite <- (mod_pow2_mod_pow2 _ 32 64) by lia.
    rewrite Z.mul_mod_idemp_l by lia. apply mod_pow2_mod_pow2. lia.
  - change (64 =? kXRegSize) with true. cbv iota. rewrite land_kXRegMask.
    unfold uint64. rewrite Z.mod_mod by lia. now rewrite Z.mul_mod_idemp_l by lia.
Qed.

Lemma ShiftOperand_LSR (reg_size value amount : Z) :
  reg_size = 32 \/ reg_size = 64 ->
  0 < amount ->
  uint64 value < 2 ^ reg_size ->
  ShiftOperand reg_size value LSR amount = Some (int64 (uint64 value / 2 ^ amount)).
Proof.
  intros Hs Ha Hv. unfold ShiftOperand.
  replace (amount =? 0) with false by (symmetry; apply Z.eqb_neq; lia).
  do 2 f_equal.
  rewrite Z.shiftr_div_pow2 by lia.
  assert (Hu : 0 <= uint64 value) by (apply Z.mod_pos_bound; lia).
  assert (Hp : 0 < 2 ^ amount) by (apply Z.pow_pos_nonneg; lia).
  assert (Hq : 0 <= uint64 value / 2 ^ amount <= uint64 value).
  { split; [apply Z.div_pos; lia|]. apply Z.div_le_upper_bound; nia. }
  destruct Hs as [-> | ->].
  - change (32 =? kXRegSize) with false. cbv iota. rewrite land_kWRegMask.
    apply Z.mod_small. lia.
  - change (64 =? kXRegSize) with true. cbv iota. rewrite land_kXRegMask.
    apply Z.mod_small. lia.
Qed.

Lemma ShiftOperand_ASR (reg_size value amount : Z) :
  reg_size = 32 \/ reg_size = 64 ->
  0 < amount < reg_size ->
  uint64 value < 2 ^ reg_size ->
  ShiftOperand reg_size value ASR amount =
  Some (int64 ((to_signed reg_size value / 2 ^ amount) mod 2 ^ reg_size)).
Proof.
  intros Hs Ha Hv. unfold ShiftOperand.
  replace (amount =? 0) with false by (symmetry; apply Z.eqb_neq; lia).
  do 2 f_equal.
  set (u := uint64 value) in *.
  assert (Hu : 0 <= u < 2 ^ reg_size) by (split; [apply Z.mod_pos_bound; lia | assumption]).
  assert (Hn : 0 < reg_size <= 64) by (destruct Hs as [-> | ->]; lia).
  assert (Huv : value mod 2 ^ reg_size = u).
  { rewrite <- (uint64_mod_pow2 value reg_size) by lia. fold u. apply Z.mod_small. lia. }
  assert (Hneg : (if reg_size =? kXRegSize
                  then negb (Z.land u kXSignMask =? 0)
                  else negb (Z.land u kWSignMask =? 0)) = (2 ^ (reg_size - 1) <=? u)).
  { rewrite <- sign_bit_test by lia.
    destruct Hs as [-> | ->].
    - change (32 =? kXRegSize) with false. cbv iota.
      change kWSignMask with (2 ^ 31). change (32 - 1) with 31.
      rewrite land_pow2 by lia. now destruct (Z.testbit u 31).
    - change (64 =? kXRegSize) with true. cbv iota.
      change kXSignMask with (2 ^ 63). change (64 - 1) with 63.
      rewrite land_pow2 by lia. now destruct (Z.testbit u 63). }
  rewrite Hneg. clear Hneg.
  assert (Hmask : forall x, Z.land x (if reg_size =? kXRegSize then kXRegMask else kWRegMask)
                            = x mod 2 ^ reg_size).
  { intros x. destruct Hs as [-> | ->]; [apply land_kWRegMask | apply land_kXRegMask]. }
  rewrite Hmask. rewrite Z.shiftr_div_pow2 by lia.
  assert (Hp : 2 ^ reg_size = 2 ^ (reg_size - amount) * 2 ^ amount).
  { rewrite <- Z.pow_add_r by lia. f_equal. lia. }
  assert (Hpa : 0 < 2 ^ amount) by (apply Z.pow_pos_nonneg; lia).
  assert (Hpr : 0 < 2 ^ (reg_size - amount)) by (apply Z.pow_pos_nonneg; lia).
  assert (Hb : 0 <= u / 2 ^ amount < 2 ^ (reg_size - amount)).
  { split; [apply Z.div_pos; lia|]. apply Z.div_lt_upper_bound; lia. }
  assert (Hh : 2 ^ reg_size = 2 * 2 ^ (reg_size - 1)).
  { rewrite <- Z.pow_succ_r by lia. f_equal. lia. }
  unfold to_signed. rewrite Huv.
  destruct (Z.leb_spec (2 ^ (reg_size - 1)) u) as [Hge | Hlt].
  - replace (u <? 2 ^ (reg_size - 1)) with false by (symmetry; apply Z.ltb_ge; lia).
    rewrite lor_high_ones by lia.
    replace ((u - 2 ^ reg_size) / 2 ^ amount)
      with (u / 2 ^ amount - 2 ^ (reg_size - amount)).
    2:{ rewrite Hp.
        replace (u - 2 ^ (reg_size - amount) * 2 ^ amount)
          with (u + (- 2 ^ (reg_size - amount)) * 2 ^ amount) by ring.
        rewrite Z.div_add by lia. ring. }
    assert (Hle : 2 ^ (reg_size - amount) <= 2 ^ reg_size) by nia.
    assert (H64 : exists k, 2 ^ 64 = k * 2 ^ reg_size /\ 0 < k).
    { destruct Hs as [-> | ->]; [exists (2 ^ 32) | exists 1]; split; reflexivity. }
    destruct H64 as (k & Hk & Hkpos).
    transitivity (u / 2 ^ amount + 2 ^ reg_size - 2 ^ (reg_size - amount)).
    + apply mod_eq with (q := k - 1); [lia | nia].
    + symmetry. apply mod_eq with (q := -1); lia.
  - replace (u <? 2 ^ (reg_size - 1)) with true by (symmetry; apply Z.ltb_lt; lia).
    reflexivity.
Qed.

(** X27.  The shifts of [ShiftOperand] by an amount between zero and the
    register size, on a value whose bits above the register size are clear:
    LSL multiplies by a power of two and wraps at the register size, LSR
    divides the unsigned value and ASR divides the signed value, rounding
    towards minus infinity. *)
Theorem ShiftOperand_shifts (reg_size value amount : Z) :
  reg_size = 32 \/ reg_size = 64 ->
  0 < amount < reg_size ->
  uint64 value < 2 ^ reg_size ->
  ShiftOperand reg_size value LSL amount =
    Some (int64 ((value * 2 ^ amount) mod 2 ^ reg_size)) /\
  ShiftOperand reg_size value LSR amount = Some (int64 (uint64 value / 2 ^ amount)) /\
  ShiftOperand reg_size value ASR amount =
    Some (int64 ((to_signed reg_size value / 2 ^ amount) mod 2 ^ reg_size)).
Proof.
  intros Hs Ha Hv.
  split; [apply ShiftOperand_LSL; [assumption | lia]|].
  split; [apply ShiftOperand_LSR; [assumption | lia | assumption]|].
  now apply ShiftOperand_ASR.
Qed.

Section ShiftProperties.
Context `{Collaborators}.

(** X28.  The 64-bit variable shifts take their amount from Rm modulo 64:
    LSLV writes [Rn * 2^amount] wrapped at 64 bits, LSRV the unsigned
    quotient of Rn by [2^amount] and ASRV the signed quotient, rounded
    towards minus infinity; an amount that is a multiple of 64 leaves the
    value of Rn. *)
Theorem variable_shift_64 (instr : Instruction) (sim : Simulator) :
  GetSixtyFourBits instr = true ->
  GetRd instr <> 31 ->
  DataProcessing2SourceMask instr = LSLV_x \/
  DataProcessing2SourceMask instr = LSRV_x \/
  DataProcessing2SourceMask instr = ASRV_x ->
  let reg code := if code =? 31 then 0 else registers_ sim code in
  let rn := reg (GetRn instr) in
  let amount := reg (GetRm instr) mod 64 in
  let value :=
    match DataProcessing2SourceMask instr with
    | LSLV_x => (rn * 2 ^ amount) mod 2 ^ 64
    | LSRV_x => (rn mod 2 ^ 64) / 2 ^ amount
    | _ => (to_signed 64 rn / 2 ^ amount) mod 2 ^ 64
    end in
  exists sim',
    VisitDataProcessing2Source instr sim = Done sim' /\
    registers_ sim' (GetRd instr) = value /\
    (forall code, code <> GetRd instr -> registers_ sim' code = registers_ sim code) /\
    nzcv_ sim' = nzcv_ sim /\
    memory_ sim' = memory_ sim.
Proof.
  intros Hsf Hrd Hop reg rn amount value.
  assert (Hamount : Z.land (ReadWRegister (GetRm instr) Reg31IsZeroRegister (registers_ sim))
                      0x3f = amount).
  { subst amount reg. change 0x3f with (Z.ones 6). rewrite Z.land_ones by lia.
    unfold ReadWRegister, ReadRegister. cbn [is_zero_mode]. rewrite andb_true_r.
    destruct (GetRm instr =? 31); [reflexivity|].
    unfold cast. cbn [is_signed sizeof].
    rewrite <- (mod_pow2_mod_pow2 _ 6 32) by lia.
    rewrite to_signed_mod by lia.
    rewrite (mod_pow2_mod_pow2 _ 6 32) by lia. reflexivity. }
  assert (Hrn : ReadRegisterSized kXRegSize (GetRn instr) Reg31IsZeroRegister (registers_ sim)
                = to_signed 64 rn).
  { subst rn reg. unfold ReadRegisterSized, ReadXRegister, ReadRegister.
    change (kXRegSize =? kWRegSize) with false. cbn [is_zero_mode]. rewrite andb_true_r.
    destruct (GetRn instr =? 31); reflexivity. }
  assert (Ham : 0 <= amount < 64) by (subst amount; apply Z.mod_pos_bound; lia).
  assert (Hu : uint64 (to_signed 64 rn) = rn mod 2 ^ 64)
    by (unfold uint64; apply to_signed_mod; lia).
  assert (Hshift : forall op result,
            ShiftOperand 64 (to_signed 64 rn) op amount = Some result ->
            result mod 2 ^ 64 = value ->
            (result <-
               match ShiftOperand kXRegSize (to_signed 64 rn) op amount with
               | Some r => Done r
               | None => Aborted Unimplemented
               end ;;
             Done (set_registers
                     (WriteRegisterSized kXRegSize (GetRd instr) result
                        Reg31IsZeroRegister) sim)) =
            Done (set_registers
                    (WriteRegisterSized kXRegSize (GetRd instr) result
                       Reg31IsZeroRegister) sim) /\
            WriteRegisterSized kXRegSize (GetRd instr) result Reg31IsZeroRegister
              (registers_ sim) (GetRd instr) = value).
  { intros op result Hso Hval. change kXRegSize with 64. rewrite Hso. cbn [bind].
    split; [reflexivity|].
    rewrite WriteRegisterSized_slot by (auto || now apply not_zero_register).
    exact Hval. }
  assert (Hcase : forall op,
            (op = LSL /\ value = (rn * 2 ^ amount) mod 2 ^ 64) \/
            (op = LSR /\ value = (rn mod 2 ^ 64) / 2 ^ amount) \/
            (op = ASR /\ value = (to_signed 64 rn / 2 ^ amount) mod 2 ^ 64) ->
            exists result,
              ShiftOperand 64 (to_signed 64 rn) op amount = Some result /\
              result mod 2 ^ 64 = value).
  { intros op Hcases.
    destruct (Z.eq_dec amount 0) as [Hz | Hnz].
    - exists (to_signed 64 rn). rewrite Hz in *.
      split; [reflexivity|].
      rewrite to_signed_mod by lia.
      destruct Hcases as [[_ ->] | [[_ ->] | [_ ->]]];
        change (2 ^ 0) with 1; rewrite ?Z.mul_1_r, ?Z.div_1_r, ?to_signed_mod by lia;
        reflexivity.
    - assert (Hv : uint64 (to_signed 64 rn) < 2 ^ 64)
        by (apply Z.mod_pos_bound; lia).
      destruct Hcases as [[-> ->] | [[-> ->] | [-> ->]]]; eexists.
      + split; [apply ShiftOperand_LSL; [auto | lia]|].
        rewrite int64_mod_pow2, Z.mod_mod by lia.
        rewrite <- Z.mul_mod_idemp_l, to_signed_mod, Z.mul_mod_idemp_l by lia.
        reflexivity.
      + split; [apply ShiftOperand_LSR; [auto | lia | assumption]|].
        rewrite int64_mod_pow2, Hu by lia.
        apply Z.mod_small.
        pose proof (Z.mod_pos_bound rn (2 ^ 64) ltac:(lia)) as Hb.
        assert (Hp : 0 < 2 ^ amount) by (apply Z.pow_pos_nonneg; lia).
        split; [apply Z.div_pos; lia|].
        apply Z.div_lt_upper_bound; nia.
      + split; [apply ShiftOperand_ASR; [auto | lia | assumption]|].
        rewrite int64_mod_pow2, Z.mod_mod by lia.
        now rewrite (to_signed_congr 64 (to_signed 64 rn) rn)
          by (apply to_signed_mod; lia). }
  unfold VisitDataProcessing2Source. rewrite Hsf.
  rewrite Hamount, Hrn.
  assert (Hop' : exists op,
            (match DataProcessing2SourceMask instr with
             | LSLV_x => Done (LSL, 0)
             | LSRV_x => Done (LSR, 0)
             | _ => Done (ASR, 0)
             end : Outcome (Shift * Z)) = Done (op, 0) /\
            ((op = LSL /\ value = (rn * 2 ^ amount) mod 2 ^ 64) \/
             (op = LSR /\ value = (rn mod 2 ^ 64) / 2 ^ amount) \/
             (op = ASR /\ value = (to_signed 64 rn / 2 ^ amount) mod 2 ^ 64))).
  { subst value. destruct Hop as [Hop | [Hop | Hop]]; rewrite Hop;
      eexists; (split; [reflexivity|]); auto 6. }
  destruct Hop' as (op & Hsel & Hcases).
  destruct (Hcase op Hcases) as (result & Hso & Hval).
  destruct (Hshift op result Hso Hval) as (Hrun & Hslot).
  exists (set_registers
            (WriteRegisterSized kXRegSize (GetRd instr) result Reg31IsZeroRegister) sim).
  split.
  - destruct Hop as [Hop | [Hop | Hop]]; rewrite Hop in Hsel |- *;
      injection Hsel as <-; cbn [bind]; exact Hrun.
  - cbn [registers_ nzcv_ memory_ set_registers].
    split; [exact Hslot|].
    split; [intros code Hne; now apply WriteRegisterSized_other|].
    split; reflexivity.
Qed.

End ShiftProperties.

(** ** Polynomial reduction *)

(** One iteration of the loop of [Poly32Mod2] on a value below [2^(i+1)]:
    bit [i] is dropped and, when it was set, the shifted polynomial is
    added. *)
Lemma Poly32Mod2_step (i data poly : Z) :
  32 <= i < 64 -> 0 <= poly < 2 ^ 32 -> 0 <= data < 2 ^ (i + 1) ->
  (if negb (Z.land (Z.shiftr data i) 1 =? 0)
   then Z.lxor (Z.land data (uint64 (Z.shiftl 1 i - 1))) (uint64 (Z.shiftl poly (i - 32)))
   else data) =
  Z.lxor (data mod 2 ^ i) (if Z.testbit data i then poly * 2 ^ (i - 32) else 0).
Proof.
  intros Hi Hpoly Hdata.
  assert (Hpi : 0 < 2 ^ i) by (apply Z.pow_pos_nonneg; lia).
  assert (Hle : 2 ^ i <= 2 ^ 63) by (apply Z.pow_le_mono_r; lia).
  assert (Hsucc : 2 ^ (i + 1) = 2 * 2 ^ i) by (rewrite Z.pow_add_r; lia).
  rewrite land_1_testbit by lia.
  destruct (Z.testbit data i) eqn:Hbit; cbn [Z.b2z Z.eqb negb].
  - f_equal.
    + rewrite Z.shiftl_mul_pow2, Z.mul_1_l by lia.
      unfold uint64. rewrite (Z.mod_small (2 ^ i - 1)) by lia.
      change (2 ^ i - 1) with (Z.pred (2 ^ i)). rewrite <- Z.ones_equiv.
      apply Z.land_ones. lia.
    + rewrite Z.shiftl_mul_pow2 by lia. unfold uint64. apply Z.mod_small.
      assert (0 < 2 ^ (i - 32)) by (apply Z.pow_pos_nonneg; lia).
      assert (2 ^ 32 * 2 ^ (i - 32) = 2 ^ i)
        by (rewrite <- Z.pow_add_r by lia; f_equal; lia).
      nia.
  - rewrite Z.lxor_0_r. symmetry. apply Z.mod_small.
    pose proof (sign_bit_test data (i + 1) ltac:(lia) Hdata) as Hb.
    replace (i + 1 - 1) with i in Hb by lia. rewrite Hbit in Hb.
    symmetry in Hb. apply Z.leb_gt in Hb. lia.
Qed.

Lemma lxor_range_pow2 (a b n : Z) :
  0 <= n -> 0 <= a < 2 ^ n -> 0 <= b < 2 ^ n -> 0 <= Z.lxor a b < 2 ^ n.
Proof.
  intros Hn Ha Hb.
  assert (Hnn : 0 <= Z.lxor a b) by (apply Z.lxor_nonneg; lia).
  split; [assumption|].
  destruct (Z.eq_dec (Z.lxor a b) 0) as [-> | Hnz]; [apply Z.pow_pos_nonneg; lia|].
  assert (Hpos : 0 < n).
  { destruct (Z.eq_dec n 0) as [-> | ?]; [|lia].
    change (2 ^ 0) with 1 in *. assert (a = 0) as -> by lia. assert (b = 0) as -> by lia.
    now contradiction Hnz. }
  apply Z.log2_lt_pow2; [lia|].
  eapply Z.le_lt_trans; [apply Z.log2_lxor; lia|].
  apply Z.max_lub_lt.
  - destruct (Z.eq_dec a 0) as [-> | ?]; [cbn; lia | apply Z.log2_lt_pow2; lia].
  - destruct (Z.eq_dec b 0) as [-> | ?]; [cbn; lia | apply Z.log2_lt_pow2; lia].
Qed.

Lemma Poly32Mod2_step_range (i data poly : Z) :
  32 <= i < 64 -> 0 <= poly < 2 ^ 32 ->
  0 <= Z.lxor (data mod 2 ^ i) (if Z.testbit data i then poly * 2 ^ (i - 32) else 0)
    < 2 ^ i.
Proof.
  intros Hi Hpoly.
  assert (Hpi : 0 < 2 ^ i) by (apply Z.pow_pos_nonneg; lia).
  apply lxor_range_pow2; [lia | apply Z.mod_pos_bound; lia |].
  destruct (Z.testbit data i); [|lia].
  assert (0 < 2 ^ (i - 32)) by (apply Z.pow_pos_nonneg; lia).
  assert (2 ^ 32 * 2 ^ (i - 32) = 2 ^ i)
    by (rewrite <- Z.pow_add_r by lia; f_equal; lia).
  nia.
Qed.

Lemma lxor_mod_pow2 (a b n : Z) :
  0 <= n -> Z.lxor a b mod 2 ^ n = Z.lxor (a mod 2 ^ n) (b mod 2 ^ n).
Proof.
  intros Hn. rewrite <- !Z.land_ones by assumption.
  apply Z.bits_inj'. intros k Hk.
  rewrite Z.lxor_spec, !Z.land_spec, Z.lxor_spec.
  destruct (Z.testbit (Z.ones n) k); now rewrite ?andb_true_r, ?andb_false_r.
Qed.

(** The loop is linear over exclusive-or. *)
Lemma Poly32Mod2_loop_linear (count : nat) (i a b poly : Z) :
  31 + Z.of_nat count <= i < 64 -> 0 <= poly < 2 ^ 32 ->
  0 <= a < 2 ^ (i + 1) -> 0 <= b < 2 ^ (i + 1) ->
  Poly32Mod2_loop count i (Z.lxor a b) poly =
  Z.lxor (Poly32Mod2_loop count i a poly) (Poly32Mod2_loop count i b poly).
Proof.
  revert i a b. induction count as [|count IH]; intros i a b Hi Hpoly Ha Hb.
  - reflexivity.
  - cbn [Poly32Mod2_loop].
    rewrite Nat2Z.inj_succ in Hi.
    assert (Hab : 0 <= Z.lxor a b < 2 ^ (i + 1)) by (apply lxor_range_pow2; lia).
    rewrite !Poly32Mod2_step by lia.
    pose proof (Poly32Mod2_step_range i a poly ltac:(lia) Hpoly) as Hra.
    pose proof (Poly32Mod2_step_range i b poly ltac:(lia) Hpoly) as Hrb.
    replace (i - 1 + 1) with i in IH by lia.
    rewrite <- IH by (replace (i - 1 + 1) with i by lia; lia).
    f_equal.
    rewrite lxor_mod_pow2, Z.lxor_spec by lia.
    set (p := poly * 2 ^ (i - 32)).
    destruct (Z.testbit a i), (Z.testbit b i); cbn [xorb];
      apply Z.bits_inj'; intros k Hk; rewrite !Z.lxor_spec, ?Z.bits_0;
      destruct (Z.testbit (a mod 2 ^ i) k), (Z.testbit (b mod 2 ^ i) k), (Z.testbit p k);
      reflexivity.
Qed.

(** On a value below [2^32] the loop does nothing. *)
Lemma Poly32Mod2_loop_small (count : nat) (i data poly : Z) :
  31 + Z.of_nat count <= i < 64 -> 0 <= data < 2 ^ 32 ->
  Poly32Mod2_loop count i data poly = data.
Proof.
  revert i. induction count as [|count IH]; intros i Hi Hdata.
  - reflexivity.
  - cbn [Poly32Mod2_loop]. rewrite Nat2Z.inj_succ in Hi.
    rewrite land_1_testbit by lia.
    rewrite (testbit_small data 32) by lia. cbn [Z.b2z Z.eqb negb].
    apply IH; lia.
Qed.

(** The loop takes [2^32] to the polynomial: the iterations above bit 32
    find their bit clear, and the one at bit 32 replaces it by [poly]. *)
Lemma Poly32Mod2_loop_pow32 (count : nat) (i poly : Z) :
  31 + Z.of_nat count = i -> (0 < count)%nat -> i < 64 -> 0 <= poly < 2 ^ 32 ->
  Poly32Mod2_loop count i (2 ^ 32) poly = poly.
Proof.
  revert i. induction count as [|count IH]; intros i Hi Hc Hlt Hpoly; [lia|].
  cbn [Poly32Mod2_loop]. rewrite Nat2Z.inj_succ in Hi.
  rewrite land_1_testbit by lia. rewrite Z.pow2_bits_eqb by lia.
  destruct count as [|count].
  - assert (i = 32) as -> by lia. change (32 =? 32) with true.
    cbn [Z.b2z Z.eqb negb Poly32Mod2_loop].
    change (Z.land (2 ^ 32) (uint64 (Z.shiftl 1 32 - 1))) with 0.
    change (32 - 32) with 0. rewrite Z.shiftl_0_r, Z.lxor_0_l.
    unfold uint64. apply Z.mod_small. lia.
  - replace (32 =? i) with false by (symmetry; apply Z.eqb_neq; lia).
    cbn [Z.b2z Z.eqb negb]. apply IH; lia.
Qed.

(** *** Products of polynomials *)

Lemma PolyMul2_ext (bits : nat) (q q' p : Z) :
  (forall k, 0 <= k < Z.of_nat bits -> Z.testbit q k = Z.testbit q' k) ->
  PolyMul2 bits q p = PolyMul2 bits q' p.
Proof.
  induction bits as [|k IH]; intros Heq; [reflexivity|].
  cbn [PolyMul2]. rewrite Nat2Z.inj_succ in Heq.
  rewrite IH by (intros j Hj; apply Heq; lia).
  now rewrite (Heq (Z.of_nat k)) by lia.
Qed.

Lemma PolyMul2_range (bits : nat) (q p : Z) :
  0 <= p < 2 ^ 33 -> 0 <= PolyMul2 bits q p < 2 ^ (32 + Z.of_nat bits).
Proof.
  intros Hp. induction bits as [|k IH].
  - cbn. lia.
  - cbn [PolyMul2]. rewrite Nat2Z.inj_succ.
    assert (Hk : 0 < 2 ^ Z.of_nat k) by (apply Z.pow_pos_nonneg; lia).
    assert (Hs : 2 ^ (32 + Z.succ (Z.of_nat k)) = 2 ^ 33 * 2 ^ Z.of_nat k)
      by (rewrite <- Z.pow_add_r by lia; f_equal; lia).
    assert (Hs' : 2 ^ (32 + Z.of_nat k) = 2 ^ 32 * 2 ^ Z.of_nat k)
      by (rewrite <- Z.pow_add_r by lia; f_equal; lia).
    apply lxor_range_pow2; [lia | lia |].
    destruct (Z.testbit q (Z.of_nat k)); nia.
Qed.

Lemma PolyMul2_linear (bits : nat) (a b p : Z) :
  PolyMul2 bits (Z.lxor a b) p = Z.lxor (PolyMul2 bits a p) (PolyMul2 bits b p).
Proof.
  induction bits as [|k IH]; [reflexivity|].
  cbn [PolyMul2]. rewrite IH, Z.lxor_spec.
  set (t := p * 2 ^ Z.of_nat k).
  destruct (Z.testbit a (Z.of_nat k)), (Z.testbit b (Z.of_nat k)); cbn [xorb];
    apply Z.bits_inj'; intros j Hj; rewrite !Z.lxor_spec, ?Z.bits_0;
    destruct (Z.testbit (PolyMul2 k a p) j), (Z.testbit (PolyMul2 k b p) j),
      (Z.testbit t j); reflexivity.
Qed.

Lemma testbit_clear_top (q k : Z) :
  0 <= k -> 0 <= q < 2 ^ (k + 1) -> Z.testbit q k = false -> 0 <= q < 2 ^ k.
Proof.
  intros Hk Hq Hbit.
  pose proof (sign_bit_test q (k + 1) ltac:(lia) Hq) as Hs.
  replace (k + 1 - 1) with k in Hs by lia. rewrite Hbit in Hs.
  symmetry in Hs. apply Z.leb_gt in Hs. lia.
Qed.

(** A non-zero multiple of a polynomial of degree 32 has degree at least
    32. *)
Lemma PolyMul2_small_zero (bits : nat) (q p : Z) :
  2 ^ 32 <= p < 2 ^ 33 -> 0 <= q < 2 ^ Z.of_nat bits ->
  PolyMul2 bits q p < 2 ^ 32 -> q = 0.
Proof.
  intros Hp. induction bits as [|k IH]; intros Hq Hm.
  - cbn in Hq. lia.
  - cbn [PolyMul2] in Hm. rewrite Nat2Z.inj_succ, <- Z.add_1_r in Hq.
    assert (Hk : 0 < 2 ^ Z.of_nat k) by (apply Z.pow_pos_nonneg; lia).
    assert (Hs' : 2 ^ (32 + Z.of_nat k) = 2 ^ 32 * 2 ^ Z.of_nat k)
      by (rewrite <- Z.pow_add_r by lia; f_equal; lia).
    pose proof (PolyMul2_range k q p ltac:(lia)) as Hr.
    destruct (Z.testbit q (Z.of_nat k)) eqn:Hbit.
    + exfalso.
      set (m := Z.lxor (PolyMul2 k q p) (p * 2 ^ Z.of_nat k)) in *.
      assert (Hm0 : 0 <= m) by (apply Z.lxor_nonneg; nia).
      assert (Htop : Z.testbit m (32 + Z.of_nat k) = true).
      { subst m. rewrite Z.lxor_spec.
        rewrite (testbit_small (PolyMul2 k q p) (32 + Z.of_nat k)) by lia.
        rewrite Z.mul_pow2_bits by lia.
        replace (32 + Z.of_nat k - Z.of_nat k) with 32 by lia.
        pose proof (sign_bit_test p 33 ltac:(lia) ltac:(lia)) as Hs.
        change (33 - 1) with 32 in Hs. rewrite Hs.
        cbn [xorb]. apply Z.leb_le. lia. }
      rewrite (testbit_small m 32) in Htop by lia. discriminate.
    + rewrite Z.lxor_0_r in Hm. apply IH; [|exact Hm].
      apply testbit_clear_top; [lia | assumption | assumption].
Qed.

Lemma lxor_cancel_l (a b c : Z) : Z.lxor a b = Z.lxor a c -> b = c.
Proof.
  intros Heq.
  rewrite <- (Z.lxor_0_l b), <- (Z.lxor_nilpotent a), Z.lxor_assoc, Heq.
  now rewrite <- Z.lxor_assoc, Z.lxor_nilpotent, Z.lxor_0_l.
Qed.

(** Division with remainder by a polynomial of degree 32 gives one
    remainder below [x^32]. *)
Lemma PolyMul2_remainder_unique (bits : nat) (p q1 r1 q2 r2 : Z) :
  2 ^ 32 <= p < 2 ^ 33 ->
  0 <= q1 < 2 ^ Z.of_nat bits -> 0 <= q2 < 2 ^ Z.of_nat bits ->
  0 <= r1 < 2 ^ 32 -> 0 <= r2 < 2 ^ 32 ->
  Z.lxor (PolyMul2 bits q1 p) r1 = Z.lxor (PolyMul2 bits q2 p) r2 ->
  q1 = q2 /\ r1 = r2.
Proof.
  intros Hp Hq1 Hq2 Hr1 Hr2 Heq.
  assert (Hm : PolyMul2 bits (Z.lxor q1 q2) p = Z.lxor r1 r2).
  { rewrite PolyMul2_linear.
    apply Z.bits_inj'. intros j Hj.
    apply (f_equal (fun z => Z.testbit z j)) in Heq.
    rewrite !Z.lxor_spec in *.
    destruct (Z.testbit (PolyMul2 bits q1 p) j), (Z.testbit (PolyMul2 bits q2 p) j),
      (Z.testbit r1 j), (Z.testbit r2 j); cbn [xorb] in *; congruence. }
  assert (Hd : Z.lxor q1 q2 = 0).
  { apply (PolyMul2_small_zero bits _ p Hp).
    - apply lxor_range_pow2; [lia | assumption | assumption].
    - rewrite Hm. apply lxor_range_pow2; lia. }
  apply Z.lxor_eq in Hd. subst q2. split; [reflexivity|].
  now apply lxor_cancel_l in Heq.
Qed.

(** One iteration of the loop adds the polynomial [x^32 + poly] times
    [x^(i-32)] when bit [i] is set. *)
Lemma Poly32Mod2_step_lxor (i data poly : Z) :
  32 <= i < 64 -> 0 <= poly < 2 ^ 32 -> 0 <= data < 2 ^ (i + 1) ->
  Z.lxor (data mod 2 ^ i) (if Z.testbit data i then poly * 2 ^ (i - 32) else 0) =
  Z.lxor data (if Z.testbit data i then (2 ^ 32 + poly) * 2 ^ (i - 32) else 0).
Proof.
  intros Hi Hpoly Hdata.
  assert (Hpi : 0 < 2 ^ i) by (apply Z.pow_pos_nonneg; lia).
  assert (Hsucc : 2 ^ (i + 1) = 2 * 2 ^ i) by (rewrite Z.pow_add_r; lia).
  assert (Hsplit : 2 ^ 32 * 2 ^ (i - 32) = 2 ^ i)
    by (rewrite <- Z.pow_add_r by lia; f_equal; lia).
  assert (Hlow : 0 < 2 ^ (i - 32)) by (apply Z.pow_pos_nonneg; lia).
  pose proof (sign_bit_test data (i + 1) ltac:(lia) Hdata) as Hb.
  replace (i + 1 - 1) with i in Hb by lia.
  destruct (Z.testbit data i) eqn:Hbit.
  - symmetry in Hb. apply Z.leb_le in Hb.
    assert (Hmod : data mod 2 ^ i = data - 2 ^ i).
    { apply mod_eq with (q := 1); lia. }
    replace ((2 ^ 32 + poly) * 2 ^ (i - 32)) with (2 ^ i + poly * 2 ^ (i - 32)) by lia.
    apply Z.bits_inj'. intros j Hj. rewrite !Z.lxor_spec.
    assert (Hsum : Z.testbit (2 ^ i + poly * 2 ^ (i - 32)) j =
                   xorb (Z.testbit (2 ^ i) j) (Z.testbit (poly * 2 ^ (i - 32)) j)).
    { rewrite <- Z.lxor_spec. f_equal. apply Z.add_nocarry_lxor.
      apply Z.bits_inj'. intros k Hk. rewrite Z.land_spec, Z.bits_0.
      rewrite Z.pow2_bits_eqb by lia.
      destruct (Z.eqb_spec i k) as [<- | Hne]; [|reflexivity].
      rewrite (testbit_small (poly * 2 ^ (i - 32)) i) by nia. reflexivity. }
    assert (Hdm : Z.testbit (data mod 2 ^ i) j = xorb (Z.testbit data j) (Z.testbit (2 ^ i) j)).
    { rewrite Z.pow2_bits_eqb by lia.
      destruct (Z.eqb_spec i j) as [<- | Hne].
      - rewrite Z.mod_pow2_bits_high by lia. now rewrite Hbit.
      - destruct (Z.lt_ge_cases j i) as [Hlt | Hge].
        + rewrite Z.mod_pow2_bits_low by lia. now rewrite xorb_false_r.
        + rewrite Z.mod_pow2_bits_high by lia.
          rewrite (testbit_small data (i + 1)) by lia. reflexivity. }
    rewrite Hsum, Hdm.
    destruct (Z.testbit data j), (Z.testbit (2 ^ i) j), (Z.testbit (poly * 2 ^ (i - 32)) j);
      reflexivity.
  - symmetry in Hb. apply Z.leb_gt in Hb. rewrite Z.mod_small by lia. reflexivity.
Qed.

(** The loop subtracts a multiple of [x^32 + poly] and leaves a value below
    [x^32]. *)
Lemma Poly32Mod2_loop_quotient (count : nat) (i data poly : Z) :
  31 + Z.of_nat count = i -> i < 64 -> 0 <= poly < 2 ^ 32 -> 0 <= data < 2 ^ (i + 1) ->
  exists q,
    0 <= q < 2 ^ Z.of_nat count /\
    Poly32Mod2_loop count i data poly =
      Z.lxor data (PolyMul2 count q (2 ^ 32 + poly)) /\
    0 <= Poly32Mod2_loop count i data poly < 2 ^ 32.
Proof.
  revert i data. induction count as [|count IH]; intros i data Hi Hlt Hpoly Hdata.
  - exists 0. cbn [PolyMul2 Poly32Mod2_loop]. cbn in Hi. subst i.
    rewrite Z.lxor_0_r. change (31 + 1) with 32 in Hdata.
    split; [cbn; lia|]. split; [reflexivity | exact Hdata].
  - cbn [Poly32Mod2_loop]. rewrite Nat2Z.inj_succ in Hi.
    rewrite Poly32Mod2_step by lia.
    pose proof (Poly32Mod2_step_range i data poly ltac:(lia) Hpoly) as Hr.
    rewrite Poly32Mod2_step_lxor in * by lia.
    set (data1 := Z.lxor data
                    (if Z.testbit data i then (2 ^ 32 + poly) * 2 ^ (i - 32) else 0)) in *.
    destruct (IH (i - 1) data1 ltac:(lia) ltac:(lia) Hpoly
                ltac:(replace (i - 1 + 1) with i by lia; exact Hr))
      as (q' & Hq' & Hloop & Hres).
    assert (Hc : i - 32 = Z.of_nat count) by lia.
    assert (Hpc : 0 < 2 ^ Z.of_nat count) by (apply Z.pow_pos_nonneg; lia).
    exists (q' + if Z.testbit data i then 2 ^ Z.of_nat count else 0).
    assert (Hbits : forall k, 0 <= k < Z.of_nat count ->
              Z.testbit (q' + if Z.testbit data i then 2 ^ Z.of_nat count else 0) k =
              Z.testbit q' k).
    { intros k Hk. destruct (Z.testbit data i); [|now rewrite Z.add_0_r].
      rewrite <- (Z.mod_pow2_bits_low _ (Z.of_nat count)) by lia.
      rewrite <- (Z.mod_pow2_bits_low q' (Z.of_nat count)) by lia.
      f_equal. rewrite <- Z.add_mod_idemp_r, Z.mod_same, Z.add_0_r by lia. reflexivity. }
    assert (Htop : Z.testbit (q' + if Z.testbit data i then 2 ^ Z.of_nat count else 0)
                     (Z.of_nat count) = Z.testbit data i).
    { destruct (Z.testbit data i).
      - pose proof (sign_bit_test (q' + 2 ^ Z.of_nat count) (Z.of_nat count + 1)
                      ltac:(lia)) as Hs.
        replace (Z.of_nat count + 1 - 1) with (Z.of_nat count) in Hs by lia.
        rewrite Hs by (rewrite Z.pow_add_r by lia; lia).
        apply Z.leb_le. lia.
      - rewrite Z.add_0_r. apply (testbit_small q' (Z.of_nat count)); lia. }
    split; [|split; [|exact Hres]].
    + rewrite Nat2Z.inj_succ, Z.pow_succ_r by lia. destruct (Z.testbit data i); lia.
    + rewrite Hloop. cbn [PolyMul2]. rewrite Htop.
      rewrite (PolyMul2_ext count
                 (q' + if Z.testbit data i then 2 ^ Z.of_nat count else 0) q')
        by exact Hbits.
      subst data1. rewrite Hc.
      rewrite !Z.lxor_assoc. f_equal. apply Z.lxor_comm.
Qed.

(** X29.  [Poly32Mod2] is the remainder of the division of its data by the
    polynomial [x^32 + poly] over the field with two elements, a polynomial
    being the integer whose bit [k] is the coefficient of degree [k]: the data
    is a multiple of [x^32 + poly] plus the result, the result is below
    [x^32], and it is the only such value.  In particular data below [x^32] is
    its own remainder, [x^32] reduces to [poly], and the reduction is linear
    over exclusive-or. *)
Theorem Poly32Mod2_reduces (n poly : Z) :
  32 < n <= 64 ->
  0 <= poly < 2 ^ 32 ->
  let bits := Z.to_nat (n - 32) in
  let divisor := 2 ^ 32 + poly in
  (forall data, 0 <= Poly32Mod2 n data poly < 2 ^ 32) /\
  (forall data, 0 <= data < 2 ^ 32 -> Poly32Mod2 n data poly = data) /\
  Poly32Mod2 n (2 ^ 32) poly = poly /\
  (forall a b, 0 <= a < 2 ^ n -> 0 <= b < 2 ^ n ->
     Poly32Mod2 n (Z.lxor a b) poly =
     Z.lxor (Poly32Mod2 n a poly) (Poly32Mod2 n b poly)) /\
  (forall data, 0 <= data < 2 ^ n ->
     exists q, 0 <= q < 2 ^ (n - 32) /\
       data = Z.lxor (PolyMul2 bits q divisor) (Poly32Mod2 n data poly)) /\
  (forall data q r, 0 <= q < 2 ^ (n - 32) -> 0 <= r < 2 ^ 32 ->
     data = Z.lxor (PolyMul2 bits q divisor) r ->
     Poly32Mod2 n data poly = r).
Proof.
  intros Hn Hpoly bits divisor.
  assert (Hcount : 31 + Z.of_nat (Z.to_nat (n - 32)) <= n - 1 < 64)
    by (rewrite Z2Nat.id by lia; lia).
  assert (Hbits : Z.of_nat bits = n - 32) by (subst bits; apply Z2Nat.id; lia).
  assert (Hmask : forall x, Z.land x 0xffffffff = x mod 2 ^ 32).
  { intros x. change 0xffffffff with (Z.ones 32). apply Z.land_ones. lia. }
  assert (Hquot : forall data, 0 <= data < 2 ^ n ->
            exists q, 0 <= q < 2 ^ (n - 32) /\
              data = Z.lxor (PolyMul2 bits q divisor) (Poly32Mod2 n data poly)).
  { intros data Hdata.
    destruct (Poly32Mod2_loop_quotient bits (n - 1) data poly) as (q & Hq & Hloop & Hres);
      [lia | lia | assumption | replace (n - 1 + 1) with n by lia; assumption |].
    exists q. rewrite Hbits in Hq. split; [exact Hq|].
    unfold Poly32Mod2. fold bits. rewrite Hmask, Z.mod_small by exact Hres.
    rewrite Hloop. fold divisor.
    rewrite (Z.lxor_comm data), <- Z.lxor_assoc, Z.lxor_nilpotent. reflexivity. }
  split; [|split; [|split; [|split; [|split]]]].
  - intros data. unfold Poly32Mod2. rewrite Hmask. apply Z.mod_pos_bound. lia.
  - intros data Hdata. unfold Poly32Mod2. rewrite Poly32Mod2_loop_small by assumption.
    rewrite Hmask. now apply Z.mod_small.
  - unfold Poly32Mod2. rewrite Poly32Mod2_loop_pow32;
      [ rewrite Hmask; now apply Z.mod_small
      | rewrite Z2Nat.id by lia; lia
      | apply Nat2Z.inj_lt; rewrite Z2Nat.id by lia; lia
      | lia
      | assumption ].
  - intros a b Ha Hb. unfold Poly32Mod2.
    rewrite Poly32Mod2_loop_linear by (replace (n - 1 + 1) with n by lia; lia).
    rewrite !Hmask. apply lxor_mod_pow2. lia.
  - exact Hquot.
  - intros data q r Hq Hr Hdata.
    assert (Hdiv : 2 ^ 32 <= divisor < 2 ^ 33) by (subst divisor; lia).
    assert (Hrange : 0 <= data < 2 ^ n).
    { rewrite Hdata.
      pose proof (PolyMul2_range bits q divisor ltac:(lia)) as Hm.
      rewrite Hbits in Hm. replace (32 + (n - 32)) with n in Hm by lia.
      assert (2 ^ 32 <= 2 ^ n) by (apply Z.pow_le_mono_r; lia).
      apply lxor_range_pow2; lia. }
    destruct (Hquot data Hrange) as (q' & Hq' & Hdata').
    assert (Hres : 0 <= Poly32Mod2 n data poly < 2 ^ 32).
    { unfold Poly32Mod2. rewrite Hmask. apply Z.mod_pos_bound. lia. }
    rewrite Hdata in Hdata' at 1.
    rewrite <- Hbits in Hq, Hq'.
    destruct (PolyMul2_remainder_unique bits divisor q r q' _ Hdiv Hq Hq' Hr Hres Hdata')
      as [_ Heq].
    symmetry. exact Heq.
Qed.

(** * Examples *)

(** ADDS w0, w1, w2 with w1 = 0x7fffffff and w2 = 1. *)
Lemma AddWithCarry_spec_witness :
  let r := AddWithCarry 32 true 0x7fffffff 1 0
             {| value_ := 0; write_ignore_mask_ := 0x0fffffff |} in
  fst r = 0x80000000 /\
  GetN (snd r) = 1 /\ GetZ (snd r) = 0 /\ GetC (snd r) = 0 /\ GetV (snd r) = 1.
Proof.
  destruct (AddWithCarry_spec 32 true 0x7fffffff 1 0
              {| value_ := 0; write_ignore_mask_ := 0x0fffffff |})
    as (Hr & Hf & _); [left; reflexivity | left; reflexivity |].
  destruct (Hf eq_refl) as (HN & HZ & HC & HV).
  cbv zeta. rewrite HN, HZ, HC, HV, Hr. vm_compute. repeat split; reflexivity.
Defined.

(** STXR with the reservation in place and the global monitor passing:
    status 0, the register reaches memory and the reservation is gone. *)
Lemma exclusive_store_and_load_witness :
  exists sim',
    VisitLoadStoreExclusive ExampleStore ExampleSimulator = Done sim' /\
    ReadWRegister 2 Reg31IsZeroRegister (registers_ sim') = 0 /\
    MemoryRead uint64_t 0x200 (memory_ sim') = 0x1111 /\
    reservation_ (local_monitor_ sim') = None.
Proof.
  pose proof (@exclusive_store_and_load ExampleCollaborators ExampleStore
                ExampleSimulator) as Hthm.
  cbv zeta in Hthm. discharge Hthm. discharge Hthm.
  destruct Hthm as [Hstore _].
  specialize (Hstore uint64_t false eq_refl eq_refl).
  destruct Hstore as (sim' & Hrun & Hregs & Hstatus & [Hmem _] & Hmon & _).
  discharge Hstatus.
  exists sim'. split; [exact Hrun|]. split.
  - etransitivity; [exact Hstatus|]. vm_compute. reflexivity.
  - split; [|exact Hmon].
    etransitivity; [apply f_equal; exact Hmem|].
    rewrite Hregs. vm_compute. reflexivity.
Defined.

(** CAS whose compare value is what memory holds: the new value is
    written and the old one returned. *)
Lemma CompareAndSwap_spec_witness :
  exists sim',
    VisitLoadStoreExclusive ExampleCAS ExampleSimulator = Done sim' /\
    MemoryRead uint64_t 0x200 (memory_ sim') = 0x1111 /\
    ReadRegister uint64_t 3 Reg31IsZeroRegister (registers_ sim') = 0x0706050403020100 /\
    reservation_ (local_monitor_ sim') = None.
Proof.
  pose proof (@CompareAndSwap_spec ExampleCollaborators uint64_t ExampleCAS
                ExampleSimulator) as Hthm.
  cbv zeta in Hthm. discharge Hthm. discharge Hthm.
  destruct Hthm as (sim' & Hrun & Hwritten & _ & _ & _ & Hrs & Hmon).
  discharge Hwritten. discharge Hrs. destruct Hwritten as [_ Hread].
  exists sim'. split; [exact Hrun|]. split.
  - etransitivity; [exact Hread|]. vm_compute. reflexivity.
  - split; [|exact Hmon]. etransitivity; [exact Hrs|]. vm_compute. reflexivity.
Defined.

(** CASP whose two compare values are what memory holds. *)
Lemma CompareAndSwapPair_spec_witness :
  exists sim',
    VisitLoadStoreExclusive ExampleCASP ExampleSimulator = Done sim' /\
    MemoryRead uint64_t 0x200 (memory_ sim') = 0x5555 /\
    MemoryRead uint64_t 0x208 (memory_ sim') = 0x4444 /\
    ReadRegister uint64_t 3 Reg31IsZeroRegister (registers_ sim') = 0x0706050403020100 /\
    ReadRegister uint64_t 2 Reg31IsZeroRegister (registers_ sim') = 0x0f0e0d0c0b0a0908.
Proof.
  pose proof (@CompareAndSwapPair_spec ExampleCollaborators uint64_t ExampleCASP
                ExampleSimulator) as Hthm.
  cbv zeta in Hthm. discharge Hthm. discharge Hthm.
  destruct Hthm as (sim' & Hrun & Hsame & _ & _ & Hhigh & Hlow & _).
  assert (Hmatch :
    MemoryRead uint64_t 0x200 (memory_ ExampleSimulator) = 0x0706050403020100 /\
    MemoryRead uint64_t 0x208 (memory_ ExampleSimulator) = 0x0f0e0d0c0b0a0908)
    by (split; vm_compute; reflexivity).
  destruct (Hsame Hmatch) as [_ Hread].
  discharge Hread. discharge Hhigh. discharge Hlow.
  destruct Hread as [Hbase Hnext].
  exists sim'. split; [exact Hrun|].
  split; [etransitivity; [exact Hbase|]; vm_compute; reflexivity|].
  split; [etransitivity; [exact Hnext|]; vm_compute; reflexivity|].
  split.
  - etransitivity; [exact Hhigh|]. vm_compute. reflexivity.
  - etransitivity; [exact Hlow|]. vm_compute. reflexivity.
Defined.



(** UDIV by a zero register gives 0; SDIV of the most negative integer by
    -1 gives the most negative integer. *)
Lemma division_by_zero_and_overflow_witness :
  (exists sim',
     VisitDataProcessing2Source ExampleDivideByZero ExampleSimulator = Done sim' /\
     ReadXRegister 0 Reg31IsZeroRegister (registers_ sim') = 0) /\
  (exists sim',
     VisitDataProcessing2Source ExampleDivide ExampleSimulator = Done sim' /\
     ReadXRegister 0 Reg31IsZeroRegister (registers_ sim') = kXMinInt).
Proof.
  split.
  - pose proof (@division_by_zero_and_overflow ExampleCollaborators
                  ExampleDivideByZero ExampleSimulator) as Hthm.
    cbv zeta in Hthm. destruct Hthm as [_ Hx].
    destruct (Hx eq_refl) as [Hzero _].
    destruct Hzero as (sim' & Hrun & _ & Hrd);
      [right; left; reflexivity | vm_compute; reflexivity |].
    discharge Hrd. exists sim'. split; [exact Hrun | exact Hrd].
  - pose proof (@division_by_zero_and_overflow ExampleCollaborators
                  ExampleDivide ExampleSimulator) as Hthm.
    cbv zeta in Hthm. destruct Hthm as [_ Hx].
    destruct (Hx eq_refl) as [_ Hmin].
    destruct Hmin as (sim' & Hrun & _ & Hrd);
      [reflexivity | vm_compute; reflexivity | vm_compute; reflexivity |].
    discharge Hrd. exists sim'. split; [exact Hrun | exact Hrd].
Defined.

(** In a guarded page with branch type [BranchAndLink], BTI j aborts and
    BTI c and PACIASP do not. *)
Lemma branch_target_checks_witness :
  is_aborted (VisitSystem ExampleCASP ExampleSimulator) = true /\
  VisitSystem ExampleStore ExampleSimulator = Done ExampleSimulator /\
  is_aborted (VisitSystem ExampleCAS ExampleSimulator) = false.
Proof.
  split; [|split].
  - pose proof (@branch_target_checks ExampleCollaborators ExampleCASP
                  ExampleSimulator) as Hthm.
    cbv zeta in Hthm. destruct Hthm as [Hhint _].
    destruct (Hhint eq_refl) as (_ & _ & Hj & _).
    destruct (Hj eq_refl) as [Hiff _]. apply Hiff. split; reflexivity.
  - pose proof (@branch_target_checks ExampleCollaborators ExampleStore
                  ExampleSimulator) as Hthm.
    cbv zeta in Hthm. destruct Hthm as [Hhint _].
    destruct (Hhint eq_refl) as (_ & Hc & _).
    destruct (Hc eq_refl) as [Hiff Hdone]. apply Hdone.
    destruct (is_aborted (VisitSystem ExampleStore ExampleSimulator)) eqn:Ha;
      [|reflexivity].
    destruct Hiff as [Hiff _]. destruct (Hiff eq_refl) as [_ Hb]. discriminate Hb.
  - pose proof (@branch_target_checks ExampleCollaborators ExampleCAS
                  ExampleSimulator) as Hthm.
    cbv zeta in Hthm. destruct Hthm as [_ Hpac].
    destruct (Hpac ASP eq_refl (or_introl eq_refl)) as [_ Hok]. exact Hok.
Defined.

(** BR x1 from a guarded page hands [BranchFromGuardedNotToIP] to its
    target; BLR x1 hands [BranchAndLink]. *)
Lemma next_btype_of_indirect_branch_witness :
  GetBTypeFromInstruction ExampleStore ExampleSimulator = BranchFromGuardedNotToIP /\
  GetBTypeFromInstruction ExampleCAS ExampleSimulator = BranchAndLink /\
  (exists sim',
     VisitUnconditionalBranchToRegister ExampleStore ExampleSimulator = Done sim' /\
     next_btype_ sim' = BranchFromGuardedNotToIP).
Proof.
  pose proof (@next_btype_of_indirect_branch ExampleCollaborators ExampleStore
                ExampleSimulator) as Hbr.
  pose proof (@next_btype_of_indirect_branch ExampleCollaborators ExampleCAS
                ExampleSimulator) as Hblr.
  cbv zeta in Hbr, Hblr.
  destruct Hbr as (_ & Hbr & _ & Hnext). destruct Hblr as (Hblr & _).
  assert (Hguarded :
    GetBTypeFromInstruction ExampleStore ExampleSimulator = BranchFromGuardedNotToIP).
  { apply Hbr; [left; reflexivity | cbv; discriminate | cbv; discriminate | reflexivity]. }
  split; [exact Hguarded|]. split; [apply Hblr; left; reflexivity|].
  eexists. split; [reflexivity|].
  etransitivity; [apply Hnext; reflexivity | exact Hguarded].
Defined.

Lemma AddWithCarry_compare_witness :
  let nzcv := {| value_ := 0; write_ignore_mask_ := 0x0fffffff |} in
  let nzcv' := snd (AddWithCarry 32 true 5 (Z.lnot 0xfffffffe) 1 nzcv) in
  fst (AddWithCarry 32 true 5 (Z.lnot 0xfffffffe) 1 nzcv) = 7 /\
  GetC nzcv' = 0 /\ GetN nzcv' = GetV nzcv'.
Proof.
  pose proof (AddWithCarry_compare 32 5 0xfffffffe
                {| value_ := 0; write_ignore_mask_ := 0x0fffffff |}) as Hthm.
  cbv zeta in Hthm. discharge Hthm.
  destruct Hthm as (Hres & _ & _ & _ & _).
  cbv zeta. split; [rewrite Hres; reflexivity|].
  split; vm_compute; reflexivity.
Defined.

(** SUBS x0, x1, #0x10 with x1 = 0x200. *)
Lemma AddSubHelper_spec_witness :
  exists sim',
    AddSubHelper (ExampleSubtract 0x10 0) 0x10 ExampleSimulator = Done sim' /\
    registers_ sim' 0 = 0x1f0 /\
    registers_ sim' 1 = 0x200.
Proof.
  pose proof (@AddSubHelper_spec ExampleCollaborators (ExampleSubtract 0x10 0) 0x10
                ExampleSimulator) as Hthm.
  cbv zeta in Hthm. discharge Hthm.
  destruct Hthm as (sim' & Hrun & Hrd & Hother & _).
  exists sim'. split; [exact Hrun|]. split.
  - etransitivity; [apply Hrd; reflexivity|]. vm_compute. reflexivity.
  - etransitivity; [apply Hother; cbn; lia|]. reflexivity.
Defined.

(** CMP x1, #0x300 with x1 = 0x200, then B.lt: the branch is taken. *)
Lemma compare_then_conditional_branch_witness :
  exists sim1 sim2,
    VisitAddSubImmediate (ExampleSubtract 0x300 0) ExampleSimulator = Done sim1 /\
    VisitConditionalBranch (ExampleSubtract 0x300 0) sim1 = Done sim2 /\
    pc_ sim2 = 0x2000.
Proof.
  pose proof (@compare_then_conditional_branch ExampleCollaborators
                (ExampleSubtract 0x300 0) (ExampleSubtract 0x300 0)
                ExampleSimulator) as Hthm.
  cbv zeta in Hthm.
  specialize (Hthm (or_introl Logic.eq_refl) Logic.eq_refl).
  destruct Hthm as (sim1 & sim2 & Hrun1 & Hrun2 & _ & Hpc & _).
  exists sim1, sim2. split; [exact Hrun1|]. split; [exact Hrun2|].
  etransitivity; [exact Hpc|]. vm_compute. reflexivity.
Defined.

(** CCMP x1, #3, #4, eq with the Z flag clear: the flags become the
    immediate, which sets Z. *)
Lemma ConditionalCompareHelper_spec_witness :
  exists sim',
    VisitConditionalCompareImmediate (ExampleSubtract 3 0) ExampleSimulator = Done sim' /\
    GetZ (nzcv_ sim') = 1 /\ GetC (nzcv_ sim') = 0.
Proof.
  pose proof (@ConditionalCompareHelper_spec ExampleCollaborators (ExampleSubtract 3 0)
                true ExampleSimulator) as Hthm.
  cbv zeta in Hthm. discharge Hthm.
  destruct Hthm as (sim' & Hrun & _ & _ & _ & Hfail & _).
  discharge Hfail. destruct Hfail as (_ & HZ & HC & _).
  exists sim'. split; [exact Hrun|]. split; [exact HZ | exact HC].
Defined.

(** ADC x0, x1, x2 with the carry clear. *)
Lemma VisitAddSubWithCarry_spec_witness :
  exists sim',
    VisitAddSubWithCarry (ExampleAdd 0 0) ExampleSimulator = Done sim' /\
    registers_ sim' 0 = 0x0f0e0d0c0b0a0b08.
Proof.
  pose proof (@VisitAddSubWithCarry_spec ExampleCollaborators (ExampleAdd 0 0)
                ExampleSimulator) as Hthm.
  cbv zeta in Hthm. discharge Hthm.
  destruct Hthm as (sim' & Hrun & Hrd & _).
  exists sim'. split; [exact Hrun|].
  etransitivity; [exact Hrd|]. vm_compute. reflexivity.
Defined.

(** 0x1_ffffffffffffffff + 0x2_0000000000000001 = 0x4_0000000000000000. *)
Lemma AddWithCarry_two_limbs_witness :
  let nzcv := {| value_ := 0; write_ignore_mask_ := 0x0fffffff |} in
  let add_lo := AddWithCarry 64 true 0xffffffffffffffff 1 0 nzcv in
  let add_hi := AddWithCarry 64 true 1 2 (GetC (snd add_lo)) (snd add_lo) in
  fst add_lo + 2 ^ 64 * fst add_hi = 4 * 2 ^ 64.
Proof.
  pose proof (AddWithCarry_two_limbs 64 0xffffffffffffffff 1 1 2
                {| value_ := 0; write_ignore_mask_ := 0x0fffffff |}) as Hthm.
  cbv zeta in Hthm.
  discharge Hthm. discharge Hthm. discharge Hthm. discharge Hthm. discharge Hthm.
  destruct Hthm as (Hadd & _).
  cbv zeta. etransitivity; [exact Hadd|]. vm_compute. reflexivity.
Defined.

(** BL at 0x1000, then RET x30: the PC is 0x1004. *)
Lemma branch_with_link_then_return_witness :
  exists sim1 sim2,
    VisitUnconditionalBranch (ExampleSubtract 0 0) ExampleSimulator = Done sim1 /\
    VisitUnconditionalBranchToRegister ExampleReturn sim1 = Done sim2 /\
    pc_ sim1 = 0x2000 /\ pc_ sim2 = 0x1004.
Proof.
  pose proof (@branch_with_link_then_return ExampleCollaborators (ExampleSubtract 0 0)
                ExampleReturn ExampleSimulator) as Hthm.
  discharge Hthm. discharge Hthm. discharge Hthm. discharge Hthm.
  destruct Hthm as (sim1 & sim2 & Hrun1 & Hpc1 & Hrun2 & Hpc2 & _).
  exists sim1, sim2. split; [exact Hrun1|]. split; [exact Hrun2|].
  split; [exact Hpc1 | exact Hpc2].
Defined.

(** CBZ x0 with x0 = 0x1111 is not taken; CBNZ x0 is. *)
Lemma VisitCompareBranch_spec_witness :
  VisitCompareBranch (ExampleSubtract 0 0) ExampleSimulator = Done ExampleSimulator /\
  VisitCompareBranch (ExampleAdd 0 0) ExampleSimulator =
    Done (WritePc 0x2000 ExampleSimulator).
Proof.
  pose proof (@VisitCompareBranch_spec ExampleCollaborators (ExampleSubtract 0 0)
                ExampleSimulator) as Hcbz.
  pose proof (@VisitCompareBranch_spec ExampleCollaborators (ExampleAdd 0 0)
                ExampleSimulator) as Hcbnz.
  cbv zeta in Hcbz, Hcbnz. discharge Hcbz. discharge Hcbnz.
  split; [exact Hcbz | exact Hcbnz].
Defined.

(** TBNZ x0, #4 with x0 = 0x1111 is taken; TBZ x0, #4 is not. *)
Lemma VisitTestBranch_spec_witness :
  VisitTestBranch (ExampleSubtract 0 4) ExampleSimulator =
    Done (WritePc 0x2000 ExampleSimulator) /\
  VisitTestBranch (ExampleAdd 0 4) ExampleSimulator = Done ExampleSimulator.
Proof.
  pose proof (@VisitTestBranch_spec ExampleCollaborators (ExampleSubtract 0 4)
                ExampleSimulator) as Htbnz.
  pose proof (@VisitTestBranch_spec ExampleCollaborators (ExampleAdd 0 4)
                ExampleSimulator) as Htbz.
  cbv zeta in Htbnz, Htbz.
  discharge Htbnz. discharge Htbnz. discharge Htbnz.
  discharge Htbz. discharge Htbz. discharge Htbz.
  split; [exact Htbnz | exact Htbz].
Defined.

(** MOVK x0, #0xabcd, LSL #16 with x0 = 0x1111. *)
Lemma VisitMoveWideImmediate_spec_witness :
  exists sim',
    VisitMoveWideImmediate (ExampleSubtract 0xabcd 1) ExampleSimulator = Done sim' /\
    (registers_ sim' 0 / 2 ^ 16) mod 2 ^ 16 = 0xabcd /\
    registers_ sim' 0 mod 2 ^ 16 = 0x1111.
Proof.
  pose proof (@VisitMoveWideImmediate_spec ExampleCollaborators (ExampleSubtract 0xabcd 1)
                ExampleSimulator) as Hthm.
  cbv zeta in Hthm. discharge Hthm. discharge Hthm. discharge Hthm. discharge Hthm.
  destruct Hthm as (sim' & Hrun & _ & _ & _ & Hhw).
  exists sim'. split; [exact Hrun|]. split.
  - exact (Hhw 1 ltac:(cbn; lia)).
  - pose proof (Hhw 0 ltac:(cbn; lia)) as H0.
    change (2 ^ (16 * 0)) with 1 in H0. rewrite Z.div_1_r in H0. exact H0.
Defined.

(** MOVZ x0, #0xcdef; MOVK x0, #0x89ab, LSL #16; MOVK x0, #0x4567, LSL #32;
    MOVK x0, #0x0123, LSL #48. *)
Lemma move_wide_builds_constant_witness :
  exists sim',
    (sim1 <- VisitMoveWideImmediate (ExampleAdd 0xcdef 0) ExampleSimulator ;;
     sim2 <- VisitMoveWideImmediate (ExampleSubtract 0x89ab 1) sim1 ;;
     sim3 <- VisitMoveWideImmediate (ExampleSubtract 0x4567 2) sim2 ;;
     VisitMoveWideImmediate (ExampleSubtract 0x0123 3) sim3) = Done sim' /\
    registers_ sim' 0 = 0x0123456789abcdef.
Proof.
  pose proof (@move_wide_builds_constant ExampleCollaborators
                (ExampleAdd 0xcdef 0) (ExampleSubtract 0x89ab 1)
                (ExampleSubtract 0x4567 2) (ExampleSubtract 0x0123 3)
                0x0123456789abcdef 0 ExampleSimulator) as Hthm.
  discharge Hthm. discharge Hthm.
  assert (H0 : MovesHalfword MOVZ_x 0 0x0123456789abcdef 0 (ExampleAdd 0xcdef 0))
    by (unfold MovesHalfword; split; [|split; [|split; [|split]]]; reflexivity).
  assert (H1 : MovesHalfword MOVK_x 1 0x0123456789abcdef 0 (ExampleSubtract 0x89ab 1))
    by (unfold MovesHalfword; split; [|split; [|split; [|split]]]; reflexivity).
  assert (H2 : MovesHalfword MOVK_x 2 0x0123456789abcdef 0 (ExampleSubtract 0x4567 2))
    by (unfold MovesHalfword; split; [|split; [|split; [|split]]]; reflexivity).
  assert (H3 : MovesHalfword MOVK_x 3 0x0123456789abcdef 0 (ExampleSubtract 0x0123 3))
    by (unfold MovesHalfword; split; [|split; [|split; [|split]]]; reflexivity).
  destruct (Hthm H0 H1 H2 H3) as (sim' & Hrun & Hrd & _).
  exists sim'. split; [exact Hrun | exact Hrd].
Defined.

(** MOVK w7, #0x1234 with x7 = 0xffffffffffffffff: the upper half stays all
    ones. *)
Lemma MOVK_w_upper_half_witness :
  exists sim',
    VisitMoveWideImmediate (ExampleMoveKeepW 0x1234 0) ExampleSimulator = Done sim' /\
    registers_ sim' 7 / 2 ^ 32 = 0xffffffff.
Proof.
  pose proof (@MOVK_w_upper_half ExampleCollaborators (ExampleMoveKeepW 0x1234 0)
                ExampleSimulator) as Hthm.
  discharge Hthm. discharge Hthm. discharge Hthm. discharge Hthm. discharge Hthm.
  destruct Hthm as (sim' & Hrun & Hupper).
  exists sim'. split; [exact Hrun | exact Hupper].
Defined.

(** A store through x1 succeeds whatever the offset. *)
Lemma LoadStoreHelper_stack_alignment_witness :
  exists sim', LoadStoreHelper (ExampleAdd 8 0) 8 Offset ExampleSimulator = Done sim'.
Proof.
  pose proof (@LoadStoreHelper_stack_alignment ExampleCollaborators (ExampleAdd 8 0) 8
                Offset ExampleSimulator) as Hthm.
  cbv zeta in Hthm. destruct Hthm as [_ Hok].
  apply Hok; [left; cbn; lia | left; reflexivity | cbv; discriminate].
Defined.

(** LDR x0, [x1, #8] with x1 = 0x200. *)
Lemma LoadStoreHelper_load_spec_witness :
  exists sim',
    LoadStoreHelper (ExampleSubtract 8 0) 8 Offset ExampleSimulator = Done sim' /\
    registers_ sim' 0 = 0x0f0e0d0c0b0a0908.
Proof.
  pose proof (@LoadStoreHelper_load_spec ExampleCollaborators (ExampleSubtract 8 0) 8
                Offset ExampleSimulator uint64_t true) as Hthm.
  cbv zeta in Hthm. discharge Hthm. discharge Hthm. discharge Hthm.
  discharge_by Hthm ltac:(left; cbv; discriminate).
  discharge_by Hthm ltac:(left; reflexivity).
  destruct Hthm as (sim' & Hrun & Hrt & _).
  exists sim'. split; [exact Hrun|].
  etransitivity; [exact Hrt|]. vm_compute. reflexivity.
Defined.

(** STR x0, [x1, #8]! with x0 = 0x1111 and x1 = 0x200. *)
Lemma LoadStoreHelper_store_spec_witness :
  exists sim',
    LoadStoreHelper (ExampleAdd 8 0) 8 PreIndex ExampleSimulator = Done sim' /\
    MemoryRead uint64_t 0x208 (memory_ sim') = 0x1111 /\
    registers_ sim' 1 = 0x208.
Proof.
  pose proof (@LoadStoreHelper_store_spec ExampleCollaborators (ExampleAdd 8 0) 8
                PreIndex ExampleSimulator uint64_t true) as Hthm.
  cbv zeta in Hthm. discharge Hthm. discharge Hthm.
  discharge_by Hthm ltac:(left; cbv; discriminate).
  discharge_by Hthm ltac:(right; lia).
  destruct Hthm as (sim' & Hrun & Hmem & _ & Hbase & _).
  exists sim'. split; [exact Hrun|]. split.
  - rewrite Hmem. vm_compute. reflexivity.
  - etransitivity; [exact Hbase|]. vm_compute. reflexivity.
Defined.

(** STR x0, [x1, #8] (scaled immediate 1); LDUR x5, [x1, #8]. *)
Lemma store_then_load_round_trip_witness :
  exists sim1 sim2,
    VisitLoadStoreUnsignedOffset (ExampleAdd 1 0) ExampleSimulator = Done sim1 /\
    VisitLoadStoreUnscaledOffset (ExampleLoadRegister 8) sim1 = Done sim2 /\
    registers_ sim2 5 = 0x1111.
Proof.
  pose proof (@store_then_load_round_trip ExampleCollaborators (ExampleAdd 1 0)
                (ExampleLoadRegister 8) ExampleSimulator uint64_t uint64_t true true)
    as Hthm.
  cbv zeta in Hthm.
  discharge Hthm. discharge Hthm. discharge Hthm. discharge Hthm. discharge Hthm.
  discharge Hthm. discharge Hthm. discharge Hthm.
  discharge_by Hthm ltac:(left; cbv; discriminate).
  destruct Hthm as (sim1 & sim2 & Hrun1 & Hrun2 & Hrt & _).
  exists sim1, sim2. split; [exact Hrun1|]. split; [exact Hrun2|].
  etransitivity; [exact Hrt|]. vm_compute. reflexivity.
Defined.

(** STR x0, [x1, #-16]!; LDR x5, [x1], #16. *)
Lemma push_then_pop_round_trip_witness :
  exists sim1 sim2,
    VisitLoadStorePreIndex (ExampleAdd (-16) 0) ExampleSimulator = Done sim1 /\
    VisitLoadStorePostIndex (ExampleLoadRegister 16) sim1 = Done sim2 /\
    registers_ sim2 5 = 0x1111 /\
    registers_ sim2 1 = 0x200.
Proof.
  pose proof (@push_then_pop_round_trip ExampleCollaborators (ExampleAdd (-16) 0)
                (ExampleLoadRegister 16) ExampleSimulator uint64_t uint64_t
                true true) as Hthm.
  cbv zeta in Hthm.
  discharge Hthm. discharge Hthm. discharge Hthm. discharge Hthm. discharge Hthm.
  discharge Hthm. discharge Hthm. discharge Hthm. discharge Hthm. discharge Hthm.
  discharge Hthm.
  discharge_by Hthm ltac:(left; cbv; discriminate).
  destruct Hthm as (sim1 & sim2 & Hrun1 & Hrun2 & Hrt & Hbase & _).
  exists sim1, sim2. split; [exact Hrun1|]. split; [exact Hrun2|]. split.
  - etransitivity; [exact Hrt|]. vm_compute. reflexivity.
  - etransitivity; [exact Hbase|]. vm_compute. reflexivity.
Defined.

(** LDXR x0, [x1] with x1 = 0x200. *)
Lemma VisitLoadStoreExclusive_load_witness :
  exists sim',
    VisitLoadStoreExclusive ExampleLoad ExampleSimulator = Done sim' /\
    registers_ sim' 0 = 0x0706050403020100 /\
    reservation_ (local_monitor_ sim') = Some (0x200, 8).
Proof.
  pose proof (@VisitLoadStoreExclusive_load ExampleCollaborators ExampleLoad
                ExampleSimulator uint64_t false) as Hthm.
  cbv zeta in Hthm. discharge Hthm. discharge Hthm. discharge Hthm.
  destruct Hthm as (sim' & Hrun & Hrt & _ & _ & _ & _ & Hres & _).
  exists sim'. split; [exact Hrun|]. split.
  - etransitivity; [apply Hrt; [cbv; discriminate | left; reflexivity]|].
    vm_compute. reflexivity.
  - etransitivity; [exact Hres|]. vm_compute. reflexivity.
Defined.

(** CLREX; STXR w2, x0, [x1]: the status is 1 and memory is as before. *)
Lemma clear_exclusive_then_store_exclusive_witness :
  exists sim1 sim2,
    VisitSystem ExampleClearExclusive ExampleSimulator = Done sim1 /\
    VisitLoadStoreExclusive ExampleStore sim1 = Done sim2 /\
    registers_ sim2 2 = 1 /\
    memory_ sim2 = memory_ ExampleSimulator.
Proof.
  pose proof (@clear_exclusive_then_store_exclusive ExampleCollaborators
                ExampleClearExclusive ExampleStore ExampleSimulator uint64_t false)
    as Hthm.
  cbv zeta in Hthm.
  discharge Hthm. discharge Hthm. discharge Hthm. discharge Hthm. discharge Hthm.
  destruct Hthm as (sim1 & sim2 & Hrun1 & Hrun2 & Hregs & Hmem & _).
  exists sim1, sim2. split; [exact Hrun1|]. split; [exact Hrun2|].
  split; [|exact Hmem].
  rewrite Hregs. vm_compute. reflexivity.
Defined.

(** LDXR x0, [x1]; STXR w2, x0, [x1] with the global monitor passing: the
    status is 0. *)
Lemma load_exclusive_then_store_exclusive_witness :
  exists sim1 sim2,
    VisitLoadStoreExclusive ExampleLoad ExampleSimulator = Done sim1 /\
    VisitLoadStoreExclusive ExampleStore sim1 = Done sim2 /\
    registers_ sim2 2 = 0 /\
    reservation_ (local_monitor_ sim2) = None.
Proof.
  pose proof (@load_exclusive_then_store_exclusive ExampleCollaborators ExampleLoad
                ExampleStore ExampleSimulator uint64_t uint64_t false false) as Hthm.
  cbv zeta in Hthm.
  discharge Hthm. discharge Hthm. discharge Hthm. discharge Hthm. discharge Hthm.
  discharge Hthm. discharge Hthm. discharge Hthm. discharge Hthm. discharge Hthm.
  discharge Hthm. discharge Hthm.
  destruct Hthm as (sim1 & sim2 & Hrun1 & Hrun2 & Hregs & _ & Hres).
  exists sim1, sim2. split; [exact Hrun1|]. split; [exact Hrun2|].
  split; [|exact Hres].
  rewrite Hregs.
  unfold WriteWRegister, WriteRegister. vm_compute. reflexivity.
Defined.

(** STLR x0, [x1]. *)
Lemma store_release_always_stores_witness :
  exists sim',
    VisitLoadStoreExclusive ExampleStoreRelease ExampleSimulator = Done sim' /\
    MemoryRead uint64_t 0x200 (memory_ sim') = 0x1111 /\
    trace_ sim' = [EvWrite 0x200 8 0x1111; EvFence].
Proof.
  pose proof (@store_release_always_stores ExampleCollaborators ExampleStoreRelease
                ExampleSimulator uint64_t) as Hthm.
  cbv zeta in Hthm. discharge Hthm. discharge Hthm. discharge Hthm. discharge Hthm.
  destruct Hthm as (sim' & Hrun & _ & Hmem & Htrace & _).
  exists sim'. split; [exact Hrun|]. split.
  - rewrite Hmem. vm_compute. reflexivity.
  - etransitivity; [exact Htrace|]. vm_compute. reflexivity.
Defined.

(** LDAPR x0, [x1]. *)
Lemma LoadAcquireRCpc_spec_witness :
  exists sim',
    VisitAtomicMemory ExampleLoad ExampleSimulator = Done sim' /\
    registers_ sim' 0 = 0x0706050403020100 /\
    trace_ sim' = [EvFence; EvRead 0x200 8].
Proof.
  pose proof (@LoadAcquireRCpc_spec ExampleCollaborators ExampleLoad ExampleSimulator
                SizeX) as Hthm.
  cbv zeta in Hthm. discharge Hthm. discharge Hthm.
  destruct Hthm as (sim' & Hrun & Hrt & _ & _ & Htrace & _).
  exists sim'. split; [exact Hrun|]. split.
  - etransitivity; [apply Hrt; cbv; discriminate|]. vm_compute. reflexivity.
  - etransitivity; [exact Htrace|]. vm_compute. reflexivity.
Defined.

(** CFINV with the carry clear sets it. *)
Lemma CFINV_inverts_carry_witness :
  exists sim1,
    VisitSystem ExampleInvertCarry ExampleSimulator = Done sim1 /\
    GetC (nzcv_ sim1) = 1.
Proof.
  pose proof (@CFINV_inverts_carry ExampleCollaborators ExampleInvertCarry
                ExampleSimulator) as Hthm.
  discharge Hthm.
  destruct Hthm as (sim1 & sim2 & Hrun1 & _ & HC & _).
  exists sim1. split; [exact Hrun1|].
  etransitivity; [exact HC|]. vm_compute. reflexivity.
Defined.

(** AXFLAG with all flags clear leaves them clear. *)
Lemma flag_format_conversion_witness :
  exists sim',
    VisitSystem ExampleConvertFlags ExampleSimulator = Done sim' /\
    GetN (nzcv_ sim') = 0 /\ GetZ (nzcv_ sim') = 0 /\
    GetC (nzcv_ sim') = 0 /\ GetV (nzcv_ sim') = 0.
Proof.
  pose proof (@flag_format_conversion ExampleCollaborators ExampleConvertFlags
                ExampleSimulator) as Hthm.
  cbv zeta in Hthm. destruct Hthm as [Hax _].
  destruct (Hax Logic.eq_refl) as (sim' & Hrun & HN & HZ & HC & HV).
  exists sim'. split; [exact Hrun|].
  split; [exact HN|]. split; [exact HZ|]. split; [exact HC | exact HV].
Defined.

(** MADD x0, x1, x2, x4 and its wrap at 64 bits. *)
Lemma VisitDataProcessing3Source_spec_witness :
  exists sim',
    VisitDataProcessing3Source (ExampleSubtract 0 0) ExampleSimulator = Done sim' /\
    registers_ sim' 0 = 0x1c1a18161412_5444.
Proof.
  pose proof (@VisitDataProcessing3Source_spec ExampleCollaborators (ExampleSubtract 0 0)
                ExampleSimulator) as Hthm.
  cbv zeta in Hthm. discharge Hthm. discharge Hthm.
  destruct Hthm as (sim' & Hrun & Hrd & _).
  exists sim'. split; [exact Hrun|].
  etransitivity; [exact Hrd|]. vm_compute. reflexivity.
Defined.

(** The three shifts of 0xf0 by 4 at 32 bits. *)
Lemma ShiftOperand_shifts_witness :
  ShiftOperand 32 0x800000f0 LSL 4 = Some 0xf00 /\
  ShiftOperand 32 0x800000f0 LSR 4 = Some 0x0800000f /\
  ShiftOperand 32 0x800000f0 ASR 4 = Some 0xf800000f.
Proof.
  pose proof (ShiftOperand_shifts 32 0x800000f0 4) as Hthm.
  discharge Hthm. discharge Hthm. discharge Hthm.
  destruct Hthm as (Hlsl & Hlsr & Hasr).
  split; [|split].
  - etransitivity; [exact Hlsl|]. vm_compute. reflexivity.
  - etransitivity; [exact Hlsr|]. vm_compute. reflexivity.
  - etransitivity; [exact Hasr|]. vm_compute. reflexivity.
Defined.

(** LSLV x0, x1, x4 with x1 = 0x200 and x4 = 0x4444: the amount is 4. *)
Lemma variable_shift_64_witness :
  exists sim',
    VisitDataProcessing2Source ExampleClearExclusive ExampleSimulator = Done sim' /\
    registers_ sim' 0 = 0x2000.
Proof.
  pose proof (@variable_shift_64 ExampleCollaborators ExampleClearExclusive
                ExampleSimulator) as Hthm.
  cbv zeta in Hthm. discharge Hthm. discharge Hthm.
  discharge_by Hthm ltac:(left; reflexivity).
  destruct Hthm as (sim' & Hrun & Hrd & _).
  exists sim'. split; [exact Hrun|].
  etransitivity; [exact Hrd|]. vm_compute. reflexivity.
Defined.

(** The CRC-32 polynomial: [x^32] reduces to it, [x^33] to twice it, and
    the reduction is linear. *)
Lemma Poly32Mod2_reduces_witness :
  Poly32Mod2 40 (2 ^ 32) 0x04c11db7 = 0x04c11db7 /\
  Poly32Mod2 40 (2 ^ 33) 0x04c11db7 = 0x09823b6e /\
  Poly32Mod2 40 (Z.lxor 0x0123456789 0xfedcba9876) 0x04c11db7 =
    Z.lxor (Poly32Mod2 40 0x0123456789 0x04c11db7) (Poly32Mod2 40 0xfedcba9876 0x04c11db7).
Proof.
  pose proof (Poly32Mod2_reduces 40 0x04c11db7) as Hthm.
  discharge Hthm. discharge Hthm. cbv zeta in Hthm.
  destruct Hthm as (_ & _ & Hpoly & Hlinear & _ & Hunique).
  split; [exact Hpoly|]. split.
  - apply (Hunique (2 ^ 33) 2 0x09823b6e); [lia | lia | vm_compute; reflexivity].
  - apply Hlinear; vm_compute; split; (reflexivity || discriminate).
Defined.
